(** * A shallow embedding of the request-instrumentation service

    The development follows [src/nodejs/server.js]: the winston logger and
    its five transports, the shared [pool.query] slot and the wrapper that
    [logQueryComplexity] installs in it, the access-log middleware, the
    four route handlers, and the start-up readiness loop.

    The program is effectful JavaScript.  Effects are threaded through an
    explicit [World] (the mutable objects of the module plus a trace of
    what the process did) by a small state-and-exception monad, so that
    [try]/[catch]/[finally] read as they do in the source.  Everything the
    process cannot decide on its own - database replies, [Math.random()],
    [Date.now()] - is supplied by an [Env] of oracles. *)

From Stdlib Require Import String Ascii List ZArith QArith Qround Qpower Bool Arith Lia Lqa.
From Stdlib Require Import DecimalString.
From Stdlib Require DecimalPos DecimalZ Qcanon.
Import ListNotations.
Close Scope Q_scope.
Open Scope string_scope.

(** ** JavaScript values, errors and the built-ins the server relies on *)

Module Js.

(** A JavaScript number is a binary64: [NaN], an infinity, or a finite
    value, given by the rational it denotes.  The two zeros are not told
    apart. *)
Inductive Num : Type :=
| NaN
| Inf (negative : bool)
| Fin (q : Q).

Inductive Val : Type :=
| VUndefined
| VNull
| VBool (b : bool)
| VNum (n : Num)
| VStr (s : string).

Definition of_Z (z : Z) : Val := VNum (Fin (inject_Z z)).

(** [ToBoolean]: what [!v], [v || w] and [v ? a : b] test. *)
Definition truthy (v : Val) : bool :=
  match v with
  | VUndefined | VNull => false
  | VBool b => b
  | VNum NaN => false
  | VNum (Inf _) => true
  | VNum (Fin q) => negb (Qeq_bool q 0)
  | VStr s => negb (String.eqb s EmptyString)
  end.

Inductive ErrKind : Type := Error | TypeError | ReferenceError.

(** A thrown value: every [throw] of the server throws an error object. *)
Record Exn : Type := mkExn { kind : ErrKind; message : string }.

Definition show_Z (z : Z) : string := NilZero.string_of_int (Z.to_int z).

(** *** Binary64 arithmetic

    The result of an arithmetic operation is the exact result rounded to
    the nearest binary64, ties to the value whose last bit is even.  A
    binary64 is [m * 2 ^ e] for integers [|m| < 2 ^ 53] and
    [-1074 <= e <= 971]. *)

(** [floor (log2 q)], for [0 < q]. *)
Definition ilog2 (q : Q) : Z :=
  let k := (Z.log2 (Qnum q) - Z.log2 (Z.pos (Qden q)))%Z in
  if Qle_bool (2 ^ k) q then k else (k - 1)%Z.

(** The integer nearest to [q], the even one of two that are as near. *)
Definition round_half_even (q : Q) : Z :=
  let n := Qfloor q in
  match (q - inject_Z n ?= 1 # 2)%Q with
  | Lt => n
  | Gt => (n + 1)%Z
  | Eq => if Z.even n then n else (n + 1)%Z
  end.

(** Rounding [0 < q] to 53 significant bits; the exponent of the last
    place, [e], does not go below that of the subnormal numbers. *)
Definition round_positive (q : Q) : Q :=
  let e := (Z.max (ilog2 q) (-1022) - 52)%Z in
  Qred (inject_Z (round_half_even (q / 2 ^ e)) * 2 ^ e).

(** The binary64 nearest to [q], as long as the exponent range is not
    left at the top (see [to_number]). *)
Definition to_double (q : Q) : Q :=
  match (q ?= 0)%Q with
  | Eq => 0%Q
  | Gt => round_positive q
  | Lt => (- round_positive (- q))%Q
  end.

(** The number a real value is stored as: what rounds to [2 ^ 1024] or
    beyond is an infinity. *)
Definition to_number (q : Q) : Num :=
  let d := to_double q in
  if Qle_bool (2 ^ 1024) d then Inf false
  else if Qle_bool d (- 2 ^ 1024) then Inf true
  else Fin d.

(** *** Characters

    A string of the model is a sequence of UTF-16 code units below 256,
    the range of ISO 8859-1; text outside that range is not modelled. *)

Definition is_digit (c : ascii) : bool :=
  let n := nat_of_ascii c in ((48 <=? n) && (n <=? 57))%nat.

Definition digit_val (c : ascii) : Z := Z.of_nat (nat_of_ascii c - 48).

Definition is_hex_digit (c : ascii) : bool :=
  let n := nat_of_ascii c in
  is_digit c || ((65 <=? n) && (n <=? 70))%nat || ((97 <=? n) && (n <=? 102))%nat.

Definition hex_val (c : ascii) : Z :=
  let n := nat_of_ascii c in
  if is_digit c then digit_val c
  else if (n <=? 70)%nat then Z.of_nat (n - 55) else Z.of_nat (n - 87).

(** White space and line terminators below 256: TAB, LF, VT, FF, CR,
    SP and the no-break space U+00A0.  The other white space of
    JavaScript (U+1680, U+2000 to U+200A, U+2028, U+2029, U+202F, U+205F,
    U+3000 and U+FEFF) lies outside the range of the model's strings. *)
Definition is_space (c : ascii) : bool :=
  let n := nat_of_ascii c in
  ((n =? 9) || (n =? 10) || (n =? 11) || (n =? 12) || (n =? 13) || (n =? 32)
   || (n =? 160))%nat.

Definition is_line_terminator (c : ascii) : bool :=
  let n := nat_of_ascii c in ((n =? 10) || (n =? 13))%nat.

Fixpoint drop_while (p : ascii -> bool) (s : string) : string :=
  match s with
  | String c s' => if p c then drop_while p s' else s
  | EmptyString => s
  end.

Fixpoint take_while (p : ascii -> bool) (s : string) : string :=
  match s with
  | String c s' => if p c then String c (take_while p s') else EmptyString
  | EmptyString => EmptyString
  end.

Fixpoint drop (n : nat) (s : string) : string :=
  match n, s with
  | S n', String _ s' => drop n' s'
  | _, _ => s
  end.

(** The integer a run of digits denotes in the given radix. *)
Fixpoint digits_value (radix : Z) (val : ascii -> Z) (acc : Z) (s : string) : Z :=
  match s with
  | String c s' => digits_value radix val (acc * radix + val c) s'
  | EmptyString => acc
  end.

(** *** [parseInt(string)], no radix argument

    Leading white space is skipped, one sign is read, a [0x]/[0X] prefix
    selects radix 16, and the longest run of digits is converted; an
    empty run gives [NaN].  The result is the number nearest to the
    integer the run denotes (V8 converts the whole run; the language
    lets an engine drop the digits after the twentieth). *)
Definition parseInt (input : string) : Num :=
  let s := drop_while is_space input in
  let '(negative, s) :=
    match s with
    | String "-" s' => (true, s')
    | String "+" s' => (false, s')
    | _ => (false, s)
    end in
  let '(hex, s) :=
    match s with
    | String "0" (String "x" s') => (true, s')
    | String "0" (String "X" s') => (true, s')
    | _ => (false, s)
    end in
  let run := take_while (if hex then is_hex_digit else is_digit) s in
  match run with
  | EmptyString => NaN
  | _ =>
      let n := if hex then digits_value 16 hex_val 0 run
               else digits_value 10 digit_val 0 run in
      to_number (inject_Z (if negative then - n else n))
  end.

(** *** [parseFloat(string)] on a run of digits and dots

    The only argument the server passes to [parseFloat] is the capture of
    [[\d.]+], so signs, exponents, white space and [Infinity] cannot
    occur.  On such input [parseFloat] reads the longest prefix of the
    shape [digits], [digits.], [digits.digits] or [.digits] and yields
    [NaN] when that prefix has no digit, and otherwise the number nearest
    to the decimal it denotes. *)
Definition parseFloat (input : string) : Num :=
  let int_part := take_while is_digit input in
  let rest := drop (String.length int_part) input in
  let frac_part :=
    match rest with
    | String "." rest' => take_while is_digit rest'
    | _ => EmptyString
    end in
  match int_part, frac_part with
  | EmptyString, EmptyString => NaN
  | _, _ =>
      let i := digits_value 10 digit_val 0 int_part in
      let f := digits_value 10 digit_val 0 frac_part in
      let scale := Z.pow 10 (Z.of_nat (String.length frac_part)) in
      to_number (Qmake (i * scale + f) (Z.to_pos scale))
  end.

(** *** [plan.match(/cost=[\d.]+..([\d.]+)/)]

    The pattern is, in order: the literal [cost=]; a greedy [[\d.]+]; two
    unescaped dots, each matching any one character that is not a line
    terminator; and the capturing group, a greedy [[\d.]+].  A
    backtracking matcher tries the longest run for the first [[\d.]+] and
    gives characters back one at a time until the rest of the pattern
    matches; the group, being last, keeps the longest run it can read. *)
Definition is_cost_char (c : ascii) : bool :=
  is_digit c || Ascii.eqb c ".".

(** The rest of the pattern after the first [[\d.]+]: [..([\d.]+)]. *)
Definition match_tail (s : string) : option string :=
  match s with
  | String a (String b s') =>
      if is_line_terminator a || is_line_terminator b then None
      else match take_while is_cost_char s' with
           | EmptyString => None
           | group => Some group
           end
  | _ => None
  end.

(** The first [[\d.]+] takes [k] characters of [s], then [k-1], ... down
    to one. *)
Fixpoint backtrack (k : nat) (s : string) : option string :=
  match k with
  | O => None
  | S k' =>
      match match_tail (drop k s) with
      | Some group => Some group
      | None => backtrack k' s
      end
  end.

(** The pattern anchored at the head of [s]. *)
Definition match_here (s : string) : option string :=
  if String.prefix "cost=" s then
    let s' := drop 5 s in
    backtrack (String.length (take_while is_cost_char s')) s'
  else None.

(** [match] without the [g] flag: the leftmost position at which the
    pattern matches; the result is the text of group 1. *)
Fixpoint match_cost (s : string) : option string :=
  match match_here s with
  | Some group => Some group
  | None =>
      match s with
      | String _ s' => match_cost s'
      | EmptyString => None
      end
  end.

End Js.

(** ** The winston logger (server.js, lines 25-40) *)

Module Winston.

(** winston's default (npm) levels; a smaller priority is more severe. *)
Inductive Level : Type := error | warn | info | http | verbose | debug | silly.

Definition priority (l : Level) : nat :=
  match l with
  | error => 0 | warn => 1 | info => 2 | http => 3
  | verbose => 4 | debug => 5 | silly => 6
  end.

(** The five destinations the logger is created with. *)
Inductive Sink : Type := AccessLog | ErrorLog | DbLog | AppLog | Console.

Definition sink_eqb (a b : Sink) : bool :=
  match a, b with
  | AccessLog, AccessLog | ErrorLog, ErrorLog | DbLog, DbLog
  | AppLog, AppLog | Console, Console => true
  | _, _ => false
  end.

Definition filename (s : Sink) : option string :=
  match s with
  | AccessLog => Some "logs/access.log"
  | ErrorLog => Some "logs/error.log"
  | DbLog => Some "logs/db.log"
  | AppLog => Some "logs/app.log"
  | Console => None
  end.

Record Transport : Type := mkTransport { sink : Sink; threshold : Level }.

(** [transports: [...]] of [createLogger], in the order of the source. *)
Definition transports : list Transport :=
  [ mkTransport AccessLog info;
    mkTransport ErrorLog error;
    mkTransport DbLog info;
    mkTransport AppLog info;
    mkTransport Console info ].

(** [createLogger] is given no [level]; winston's default is [info]. *)
Definition logger_level : Level := info.

(** The second argument of [logger.info]/[logger.error]: an object whose
    fields are scalars ([transport], [error]) or one nested object
    ([metrics]). *)
Inductive Meta : Type :=
| MVal (v : Js.Val)
| MObj (fields : list (string * Js.Val)).

Record Entry : Type :=
  mkEntry { level : Level; message : string; meta : list (string * Meta) }.

Fixpoint assoc {A : Type} (k : string) (l : list (string * A)) : option A :=
  match l with
  | [] => None
  | (k', v) :: l' => if String.eqb k k' then Some v else assoc k l'
  end.

Definition metrics (e : Entry) : list (string * Js.Val) :=
  match assoc "metrics" (meta e) with
  | Some (MObj fields) => fields
  | _ => []
  end.

Definition metric (k : string) (e : Entry) : option Js.Val :=
  assoc k (metrics e).

(** The sink an entry names through its [transport] field, if any. *)
Definition selected_sink (e : Entry) : option Sink :=
  match assoc "transport" (meta e) with
  | Some (MVal (Js.VStr f)) =>
      if String.eqb f "logs/access.log" then Some AccessLog
      else if String.eqb f "logs/error.log" then Some ErrorLog
      else if String.eqb f "logs/db.log" then Some DbLog
      else if String.eqb f "logs/app.log" then Some AppLog
      else None
  | _ => None
  end.

(** A transport writes an entry when the entry is at least as severe as
    the transport's own [level].  Nothing in the logger reads the
    [transport] field of an entry. *)
Definition accepts (t : Transport) (e : Entry) : bool :=
  (priority (level e) <=? priority (threshold t))%nat.

(** The sinks a logged entry is appended to, in transport order. *)
Definition destinations (e : Entry) : list Sink :=
  if (priority (level e) <=? priority logger_level)%nat
  then map sink (filter (fun t => accepts t e) transports)
  else [].

End Winston.

(** ** The shared query capability *)

(** What the slot [pool.query] can hold.  [Native] is the method of the pg
    pool; [Bound c] is [c.bind(pool)]; [Wrapper req originalQuery] is the
    closure that [logQueryComplexity] builds for request [req], with the
    capability it captured. *)
Inductive Cap : Type :=
| Native
| Bound (target : Cap)
| Wrapper (req : nat) (originalQuery : Cap).

(** A capability is instrumented when calling it reaches a wrapper. *)
Fixpoint instrumented (c : Cap) : bool :=
  match c with
  | Native => false
  | Bound target => instrumented target
  | Wrapper _ _ => true
  end.

(** ** Database replies *)

Definition Row : Type := list (string * Js.Val).

(** The result object of pg: [rows] and [rowCount] ([None] is [null]). *)
Record DbResult : Type := mkResult { rows : list Row; rowCount : option Z }.

Inductive Reply : Type :=
| Rows (r : DbResult)
| Failed (e : Js.Exn).

Definition Params : Type := option (list Js.Val).

(** ** The environment: everything the process does not decide *)

Record Env : Type := mkEnv {
  (** the reply of the database to the [k]-th statement it receives *)
  db : N -> string -> Params -> Reply;
  (** the [k]-th value of [Math.random()], a multiple of [2 ^ -53] in
      [0, 1) *)
  random : N -> Q;
  (** the [k]-th reading of [Date.now()], in milliseconds *)
  now : N -> Z;
  (** the [k]-th [faker.datatype.number({min, max})] *)
  faker_number : N -> Z -> Z -> Z;
  (** the [k]-th [faker.commerce.productName()] *)
  faker_product : N -> string;
  (** the rendering of [new Date()] and of the process gauges *)
  utc_date : string;
  memory_usage_mb : string;
  cpu_usage_s : string;
  (** [String(x)] and [x.toFixed(2)] of a number that is not an integer *)
  number_to_string : Q -> string;
  to_fixed_2 : Q -> string;
  (** the text of [promClient.register.metrics()] *)
  exposition : nat -> string
}.

(** ** The world: the mutable state of the process and its trace *)

Inductive Event : Type :=
(** the database receives a statement *)
| EvDb (text : string) (params : Params)
(** a transport of the logger appends a record *)
| EvWrite (s : Winston.Sink) (e : Winston.Entry)
(** [console.log(line)] *)
| EvConsole (line : string)
(** a [setTimeout] of [ms] milliseconds is awaited *)
| EvTimeout (ms : Z)
(** a call site evaluates [pool.query(text, params)] and finds [c] in the slot *)
| EvInvoke (c : Cap) (text : string) (params : Params)
(** [req.queryComplexity[text] = { cost, time }] on request [req] *)
| EvRecord (req : nat) (text : string) (cost : Js.Num) (time : Z)
(** [end()] of the [http_request_duration_ms] timer *)
| EvObserve.

Record World : Type := mkWorld {
  pool_query : Cap;          (** the slot [pool.query] *)
  errors_total : nat;        (** the counter [app_errors_total] *)
  trace : list Event;        (** what happened so far, oldest first *)
  db_seq : N;                (** statements the database has received *)
  rnd_seq : N;               (** draws of [Math.random()] so far *)
  clk_seq : N;               (** readings of [Date.now()] so far *)
  faker_seq : N              (** calls into faker so far *)
}.

Definition initial_world : World := mkWorld Native 0 [] 0 0 0 0.

(** ** Computations: state passing with exceptions *)

Inductive Outcome (A : Type) : Type :=
| Return (a : A)
| Throw (e : Js.Exn).
Arguments Return {A} a.
Arguments Throw {A} e.

Definition M (A : Type) : Type := World -> Outcome A * World.

Definition ret {A : Type} (a : A) : M A := fun w => (Return a, w).

Definition throw {A : Type} (e : Js.Exn) : M A := fun w => (Throw e, w).

Definition bind {A B : Type} (m : M A) (k : A -> M B) : M B :=
  fun w =>
    match m w with
    | (Return a, w') => k a w'
    | (Throw e, w') => (Throw e, w')
    end.

(** [try { body } catch (err) { handler err }] *)
Definition try_catch {A : Type} (body : M A) (handler : Js.Exn -> M A) : M A :=
  fun w =>
    match body w with
    | (Return a, w') => (Return a, w')
    | (Throw e, w') => handler e w'
    end.

(** [try { body } finally { cleanup }]: [cleanup] runs on both exits and
    the outcome of [body] stands unless [cleanup] itself throws. *)
Definition try_finally {A : Type} (body : M A) (cleanup : M unit) : M A :=
  fun w =>
    match body w with
    | (r, w') =>
        match cleanup w' with
        | (Return _, w'') => (r, w'')
        | (Throw e, w'') => (Throw e, w'')
        end
    end.

Declare Scope js_scope.
Delimit Scope js_scope with js.
Notation "x <- m ;; k" := (bind m (fun x => k))
  (at level 61, m at next level, right associativity) : js_scope.
Notation "m ;; k" := (bind m (fun _ => k))
  (at level 61, right associativity) : js_scope.
Open Scope js_scope.

Definition emit (ev : Event) : M unit :=
  fun w => (Return tt,
            mkWorld (pool_query w) (errors_total w) (trace w ++ [ev])
                    (db_seq w) (rnd_seq w) (clk_seq w) (faker_seq w)).

Definition emit_all (evs : list Event) : M unit :=
  fun w => (Return tt,
            mkWorld (pool_query w) (errors_total w) (trace w ++ evs)
                    (db_seq w) (rnd_seq w) (clk_seq w) (faker_seq w)).

(** Reading and assigning the slot [pool.query]. *)
Definition get_query : M Cap := fun w => (Return (pool_query w), w).

Definition set_query (c : Cap) : M unit :=
  fun w => (Return tt,
            mkWorld c (errors_total w) (trace w)
                    (db_seq w) (rnd_seq w) (clk_seq w) (faker_seq w)).

(** [errorCounter.inc()] *)
Definition errorCounter_inc : M unit :=
  fun w => (Return tt,
            mkWorld (pool_query w) (S (errors_total w)) (trace w)
                    (db_seq w) (rnd_seq w) (clk_seq w) (faker_seq w)).

(** [console.log(line)] *)
Definition console_log (line : string) : M unit := emit (EvConsole line).

(** [await new Promise(res => setTimeout(res, ms))] *)
Definition sleep (ms : Z) : M unit := emit (EvTimeout ms).

(** [logger.log]: the entry is appended to every accepting transport. *)
Definition logger_log (e : Winston.Entry) : M unit :=
  emit_all (map (fun s => EvWrite s e) (Winston.destinations e)).

Definition logger_info (message : string) (meta : list (string * Winston.Meta)) : M unit :=
  logger_log (Winston.mkEntry Winston.info message meta).

Definition logger_error (message : string) (meta : list (string * Winston.Meta)) : M unit :=
  logger_log (Winston.mkEntry Winston.error message meta).

Definition Qltb (x y : Q) : bool := negb (Qle_bool y x).

Definition dquote : string := String (ascii_of_nat 34) EmptyString.

(** ** Requests and responses *)

(** The route Express selects for a request; every handler of the server
    is registered with [app.get]. *)
Inductive Route : Type :=
| ApiUsers            (** [/api/users] *)
| ApiOrdersGenerate   (** [/api/orders/generate] *)
| ApiUsersFilter      (** [/api/users/filter] *)
| ApiCompute          (** [/api/compute] *)
| MetricsEndpoint     (** [/metrics] *)
| NoRoute.            (** any other path *)

Record Request : Type := mkRequest {
  req_id : nat;              (** the identity of the [req] object *)
  method : string;
  url : string;
  route : Route;
  age : option string;       (** [req.query.age]; [None] is [undefined] *)
  ip : option string;        (** [req.ip] *)
  traceId : option string    (** [req.traceId] *)
}.

Record Order : Type := mkOrder { userId : Z; product : string; price : Z }.

Record User : Type := mkUser { name : string; email : string; user_age : Z }.

Inductive Body : Type :=
| Json (fields : list (string * Js.Val))   (** [res.json({ ... })] *)
| JsonRows (rows : list Row)               (** [res.json(result.rows)] *)
| JsonOrders (orders : list Order)         (** [res.json(orders)] *)
| Html (text : string)                     (** Express's own error pages *)
| Text (text : string).                    (** [res.end(text)] *)

Record Response : Type := mkResponse { status : Z; body : Body }.

Definition is_json (b : Body) : bool :=
  match b with
  | Json _ | JsonRows _ | JsonOrders _ => true
  | Html _ | Text _ => false
  end.

(** The names a [catch] block of a route handler can see that are not its
    own: the parameter [err], the handler's [req] and [res], and the
    top-level declarations of server.js. *)
Definition module_scope : list string :=
  [ "express"; "winston"; "Pool"; "generateUsers"; "generateOrders";
    "promClient"; "process"; "app"; "collectDefaultMetrics";
    "httpRequestDuration"; "errorCounter"; "logger"; "pool";
    "logQueryComplexity"; "waitForPostgres" ].

Definition handler_catch_scope : list string :=
  [ "err"; "req"; "res" ] ++ module_scope.

(** [lhs - x], where [x] is an identifier that the enclosing block does not
    bind: reading [x] is a [ReferenceError] unless an outer scope declares
    it.  Every name of [handler_catch_scope] denotes an object or a
    function, whose numeric value is [NaN]. *)
Definition minus_identifier (scope : list string) (lhs : Z) (x : string) : M Js.Num :=
  if existsb (String.eqb x) scope then ret Js.NaN
  else throw (Js.mkExn Js.ReferenceError (x ++ " is not defined")).

Section Server.

Variable env : Env.

(** *** Oracles *)

Definition Date_now : M Z :=
  fun w => (Return (now env (clk_seq w)),
            mkWorld (pool_query w) (errors_total w) (trace w)
                    (db_seq w) (rnd_seq w) (N.succ (clk_seq w)) (faker_seq w)).

Definition Math_random : M Q :=
  fun w => (Return (random env (rnd_seq w)),
            mkWorld (pool_query w) (errors_total w) (trace w)
                    (db_seq w) (N.succ (rnd_seq w)) (clk_seq w) (faker_seq w)).

Definition faker_datatype_number (min max : Z) : M Z :=
  fun w => (Return (faker_number env (faker_seq w) min max),
            mkWorld (pool_query w) (errors_total w) (trace w)
                    (db_seq w) (rnd_seq w) (clk_seq w) (N.succ (faker_seq w))).

Definition faker_commerce_productName : M string :=
  fun w => (Return (faker_product env (faker_seq w)),
            mkWorld (pool_query w) (errors_total w) (trace w)
                    (db_seq w) (rnd_seq w) (clk_seq w) (N.succ (faker_seq w))).

(** The pg method itself: the statement goes to the database, whose reply
    resolves or rejects the promise. *)
Definition query_db (text : string) (params : Params) : M DbResult :=
  fun w =>
    let w' := mkWorld (pool_query w) (errors_total w)
                      (trace w ++ [EvDb text params])
                      (N.succ (db_seq w)) (rnd_seq w) (clk_seq w) (faker_seq w) in
    match db env (db_seq w) text params with
    | Rows r => (Return r, w')
    | Failed e => (Throw e, w')
    end.

(** *** The wrapper of [logQueryComplexity] (server.js, lines 86-119) *)

(** [explainResult.rows[0]['QUERY PLAN'] || 'N/A'] *)
Definition query_plan (explainResult : DbResult) : M Js.Val :=
  match rows explainResult with
  | [] =>
      throw (Js.mkExn Js.TypeError
               "Cannot read properties of undefined (reading 'QUERY PLAN')")
  | row :: _ =>
      let v := match Winston.assoc "QUERY PLAN" row with
               | Some v => v
               | None => Js.VUndefined
               end in
      ret (if Js.truthy v then v else Js.VStr "N/A")
  end.

(** [plan.match(/cost=[\d.]+..([\d.]+)/)]; only strings have [match]. *)
Definition plan_match (plan : Js.Val) : M (option string) :=
  match plan with
  | Js.VStr s => ret (Js.match_cost s)
  | _ => throw (Js.mkExn Js.TypeError "plan.match is not a function")
  end.

(** [costMatch ? parseFloat(costMatch[1]) : 0] *)
Definition query_cost (costMatch : option string) : Js.Num :=
  match costMatch with
  | Some group => Js.parseFloat group
  | None => Js.Fin 0
  end.

(** [result.rowCount || 0] *)
Definition rows_returned (result : DbResult) : Z :=
  match rowCount result with
  | Some n => n
  | None => 0
  end.

(** [params ? params.length : 0] *)
Definition params_count (params : Params) : Z :=
  match params with
  | Some l => Z.of_nat (length l)
  | None => 0
  end.

(** The entry of [logger.info(`Executed query: ${text}`, ...)]. *)
Definition executed_query_entry
    (text : string) (params : Params) (duration : Z) (queryCost : Js.Num)
    (result : DbResult) : Winston.Entry :=
  Winston.mkEntry Winston.info ("Executed query: " ++ text)
    [ ("metrics", Winston.MObj
         [ ("query_time_ms", Js.of_Z duration);
           ("query_cost", Js.VNum queryCost);
           ("rows_returned", Js.of_Z (rows_returned result));
           ("params_count", Js.of_Z (params_count params)) ]);
      ("transport", Winston.MVal (Js.VStr "logs/db.log")) ].

(** The entry of [logger.error(`Query error: ${err.message}`, ...)]. *)
Definition query_error_entry (text : string) (err : Js.Exn) : Winston.Entry :=
  Winston.mkEntry Winston.error ("Query error: " ++ Js.message err)
    [ ("metrics", Winston.MObj
         [ ("query_text", Js.VStr text);
           ("error_code", Js.VStr "QUERY_ERROR") ]) ].

(** Calling a capability with [(text, params)]. *)
Fixpoint call (c : Cap) (text : string) (params : Params) : M DbResult :=
  match c with
  | Native => query_db text params
  | Bound target => call target text params
  | Wrapper req originalQuery =>
      start <- Date_now ;;
      try_finally
        (try_catch
           (let explainQuery := "EXPLAIN " ++ text in
            explainResult <- call originalQuery explainQuery params ;;
            plan <- query_plan explainResult ;;
            costMatch <- plan_match plan ;;
            let queryCost := query_cost costMatch in
            result <- call originalQuery text params ;;
            finish <- Date_now ;;
            let duration := (finish - start)%Z in
            logger_log (executed_query_entry text params duration queryCost result) ;;
            emit (EvRecord req text queryCost duration) ;;
            ret result)
           (fun err =>
              logger_log (query_error_entry text err) ;;
              throw err))
        (set_query originalQuery)
  end.

(** A call site [pool.query(text, params)]: the slot is read, then called. *)
Definition pool_query_call (text : string) (params : Params) : M DbResult :=
  c <- get_query ;;
  emit (EvInvoke c text params) ;;
  call c text params.

(** *** Middleware 2: [logQueryComplexity] (lines 82-121)

    [req.queryComplexity] starts empty; the slot is rebound to a wrapper
    that captures [pool.query.bind(pool)]. *)
Definition logQueryComplexity (rq : Request) : M unit :=
  current <- get_query ;;
  let originalQuery := Bound current in
  set_query (Wrapper (req_id rq) originalQuery).

(** *** [GET /api/users] (lines 127-147) *)
Definition api_users (rq : Request) : M Response :=
  try_catch
    (start <- Date_now ;;
     result <- pool_query_call "SELECT * FROM users" None ;;
     finish <- Date_now ;;
     let duration := (finish - start)%Z in
     logger_info "Fetched users from database"
       [ ("metrics", Winston.MObj
            [ ("rows_returned",
               match rowCount result with
               | Some n => Js.of_Z n
               | None => Js.VNull
               end);
              ("query_time_ms", Js.of_Z duration) ]);
         ("transport", Winston.MVal (Js.VStr "logs/db.log")) ] ;;
     ret (mkResponse 200 (JsonRows (rows result))))
    (fun err =>
       errorCounter_inc ;;
       logger_error ("Database error in /api/users: " ++ Js.message err)
         [ ("metrics", Winston.MObj [ ("error_code", Js.VStr "DB_ERROR") ]) ] ;;
       ret (mkResponse 500 (Json [ ("error", Js.VStr "Internal server error") ]))).

(** *** [generateOrders(count)] (dummyData.js) *)
Fixpoint generateOrders (count : nat) : M (list Order) :=
  match count with
  | O => ret []
  | S count' =>
      userId <- faker_datatype_number 1 50 ;;
      product <- faker_commerce_productName ;;
      price <- faker_datatype_number 10 1000 ;;
      orders <- generateOrders count' ;;
      ret (mkOrder userId product price :: orders)
  end.

Definition insert_order : string :=
  "INSERT INTO orders (user_id, product, price) VALUES ($1, $2, $3)".

(** [[order.userId, order.product, order.price]] *)
Definition order_params (order : Order) : Params :=
  Some [ Js.of_Z (userId order); Js.VStr (product order); Js.of_Z (price order) ].

(** [for (const order of orders) { await pool.query(...); insertedRows++; }] *)
Fixpoint insert_orders (orders : list Order) (insertedRows : Z) : M Z :=
  match orders with
  | [] => ret insertedRows
  | order :: orders' =>
      _ <- pool_query_call insert_order (order_params order) ;;
      insert_orders orders' (insertedRows + 1)%Z
  end.

(** *** [GET /api/orders/generate] (lines 150-178) *)
Definition api_orders_generate (rq : Request) : M Response :=
  try_catch
    (start <- Date_now ;;
     orders <- generateOrders 10 ;;
     insertedRows <- insert_orders orders 0 ;;
     finish <- Date_now ;;
     let duration := (finish - start)%Z in
     logger_info "Generated and saved 10 dummy orders"
       [ ("metrics", Winston.MObj
            [ ("orders_inserted", Js.of_Z insertedRows);
              ("operation_time_ms", Js.of_Z duration) ]);
         ("transport", Winston.MVal (Js.VStr "logs/app.log")) ] ;;
     ret (mkResponse 200 (JsonOrders orders)))
    (fun err =>
       errorCounter_inc ;;
       logger_error ("Error generating orders: " ++ Js.message err)
         [ ("metrics", Winston.MObj [ ("error_code", Js.VStr "INSERT_ERROR") ]) ] ;;
       ret (mkResponse 500 (Json [ ("error", Js.VStr "Failed to generate orders") ]))).

(** [!age] for [age] a string or [undefined]. *)
Definition age_missing (age : option string) : bool :=
  match age with
  | None => true
  | Some s => negb (Js.truthy (Js.VStr s))
  end.

Definition age_text (age : option string) : string :=
  match age with
  | None => "undefined"
  | Some s => s
  end.

(** [parseInt(age)]; [parseInt(undefined)] is [NaN]. *)
Definition parseInt_age (age : option string) : Js.Num :=
  match age with
  | None => Js.NaN
  | Some s => Js.parseInt s
  end.

Definition select_filter : string := "SELECT * FROM users WHERE age > $1".

(** *** [GET /api/users/filter] (lines 181-206) *)
Definition api_users_filter (rq : Request) : M Response :=
  let age := age rq in
  try_catch
    (if age_missing age
     then throw (Js.mkExn Js.Error "Age query parameter is required")
     else
       start <- Date_now ;;
       result <- pool_query_call select_filter
                   (Some [ Js.VNum (parseInt_age age) ]) ;;
       finish <- Date_now ;;
       let duration := (finish - start)%Z in
       r <- Math_random ;;
       (* the literal [0.3] is the binary64 nearest to 3/10; no multiple
          of [2 ^ -53] lies between the two *)
       if Qltb r (3 # 10)
       then throw (Js.mkExn Js.Error "Random server failure")
       else
         logger_info ("Filtered users with age > " ++ age_text age)
           [ ("metrics", Winston.MObj
                [ ("rows_returned",
                   match rowCount result with
                   | Some n => Js.of_Z n
                   | None => Js.VNull
                   end);
                  ("query_time_ms", Js.of_Z duration) ]);
             ("transport", Winston.MVal (Js.VStr "logs/db.log")) ] ;;
         ret (mkResponse 200 (JsonRows (rows result))))
    (fun err =>
       errorCounter_inc ;;
       logger_error ("Filter error: " ++ Js.message err)
         [ ("metrics", Winston.MObj [ ("error_code", Js.VStr "FILTER_ERROR") ]) ] ;;
       ret (mkResponse 500 (Json [ ("error", Js.VStr (Js.message err)) ]))).

(** [for (let i = 0; i < n; i++) result += Math.random();] *)
Definition heavy_computation (n : N) : M Q :=
  N.iter n
    (fun loop =>
       result <- loop ;; r <- Math_random ;; ret (Js.to_double (result + r)))
    (ret 0%Q).

(** *** [GET /api/compute] (lines 209-257)

    [start] is a [const] of the [try] block.  The [catch] block is not
    inside that block, so its [start] is a free identifier, resolved in
    [handler_catch_scope]. *)
Definition api_compute (rq : Request) : M Response :=
  try_catch
    (start <- Date_now ;;
     logger_info "Starting heavy computation"
       [ ("transport", Winston.MVal (Js.VStr "logs/app.log")) ] ;;
     result <- heavy_computation 1000000 ;;
     finish <- Date_now ;;
     let duration := (finish - start)%Z in
     let cpuUsage := cpu_usage_s env in
     failureChance <- Math_random ;;
     (* no binary64 lies between 8/10 and the literal [0.8] *)
     if Qltb failureChance (8 # 10)
     then throw (Js.mkExn Js.Error
                   "Computation overload due to excessive resource demand")
     else
       logger_info ("Computation completed: " ++ number_to_string env result)
         [ ("metrics", Winston.MObj
              [ ("compute_time_ms", Js.of_Z duration);
                ("cpu_usage_s", Js.VStr cpuUsage);
                ("result_size",
                 Js.of_Z (Z.of_nat (String.length (to_fixed_2 env result)))) ]);
           ("transport", Winston.MVal (Js.VStr "logs/app.log")) ] ;;
       ret (mkResponse 200 (Json [ ("result", Js.VNum (Js.Fin result)) ])))
    (fun err =>
       errorCounter_inc ;;
       finish <- Date_now ;;
       duration <- minus_identifier handler_catch_scope finish "start" ;;
       let cpuUsage := cpu_usage_s env in
       logger_error ("Compute error: " ++ Js.message err)
         [ ("metrics", Winston.MObj
              [ ("error_code", Js.VStr "COMPUTE_ERROR");
                ("compute_time_ms", Js.VNum duration);
                ("cpu_usage_s", Js.VStr cpuUsage);
                ("failure_point", Js.VStr "loop_execution");
                ("request_url", Js.VStr (url rq));
                ("trace_id",
                 Js.VStr (match traceId rq with
                          | Some t => if Js.truthy (Js.VStr t) then t else "N/A"
                          | None => "N/A"
                          end)) ]) ] ;;
       ret (mkResponse 500
              (Json [ ("error", Js.VStr "Computation failed");
                      ("details", Js.VStr (Js.message err)) ]))).

(** *** [GET /metrics] (lines 260-263) *)
Definition metrics_endpoint (rq : Request) : M Response :=
  fun w => (Return (mkResponse 200 (Text (exposition env (errors_total w)))), w).

(** What Express answers when a handler throws synchronously: its default
    error handler sends status 500 with an HTML page (whose text depends
    on the environment the server runs in; only its kind matters here). *)
Definition express_error_page (err : Js.Exn) : Response :=
  mkResponse 500 (Html ("<pre>" ++ Js.message err ++ "</pre>")).

(** Routing.  [api_compute] is the one synchronous handler: what it throws
    reaches Express.  The other handlers are [async]; what escapes one of
    them is a rejected promise that Express does not observe, and the
    request gets no response. *)
Definition dispatch (rq : Request) : M Response :=
  match route rq with
  | ApiUsers => api_users rq
  | ApiOrdersGenerate => api_orders_generate rq
  | ApiUsersFilter => api_users_filter rq
  | ApiCompute =>
      try_catch (api_compute rq) (fun err => ret (express_error_page err))
  | MetricsEndpoint => metrics_endpoint rq
  | NoRoute =>
      ret (mkResponse 404
             (Html ("<pre>Cannot " ++ method rq ++ " " ++ url rq ++ "</pre>")))
  end.

(** [Math.floor(Math.random() * 91) + 10]; the product is a binary64. *)
Definition networkLatency (r : Q) : Z := (Qfloor (Js.to_double (r * 91)) + 10)%Z.

Definition access_line (rq : Request) (statusCode duration : Z) : string :=
  (match ip rq with
   | Some a => if Js.truthy (Js.VStr a) then a else "127.0.0.1"
   | None => "127.0.0.1"
   end)
  ++ " - - [" ++ utc_date env ++ "] "
  ++ dquote ++ method rq ++ " " ++ url rq ++ " HTTP/1.1" ++ dquote ++ " "
  ++ Js.show_Z statusCode ++ " " ++ Js.show_Z duration ++ " "
  ++ dquote ++ "-" ++ dquote ++ " "
  ++ dquote ++ "Mozilla/5.0 (Node.js)" ++ dquote ++ " "
  ++ dquote ++ "-" ++ dquote.

(** *** One request through the middleware chain (lines 52-79, 124)

    Middleware 1 reads the clock, draws the latency and waits for it;
    middleware 2 installs the wrapper; the route answers; when the
    response has been written, the [finish] listener logs the access
    line.  No body parser is installed, so [req.body] is [undefined] and
    [reqSize] stays 0. *)
Definition serve (rq : Request) : M Response :=
  start <- Date_now ;;
  let reqSize := 0%Z in
  r <- Math_random ;;
  let latency := networkLatency r in
  sleep latency ;;
  logQueryComplexity rq ;;
  response <- dispatch rq ;;
  finish <- Date_now ;;
  let duration := (finish - start)%Z in
  emit EvObserve ;;
  logger_info (access_line rq (status response) duration)
    [ ("metrics", Winston.MObj
         [ ("response_time_ms", Js.of_Z duration);
           ("request_size_bytes", Js.of_Z reqSize);
           ("memory_usage_mb", Js.VStr (memory_usage_mb env));
           ("network_latency_ms", Js.of_Z latency) ]) ] ;;
  ret response.

(** Requests served one after the other. *)
Fixpoint serve_all (rqs : list Request) : M (list Response) :=
  match rqs with
  | [] => ret []
  | rq :: rqs' =>
      response <- serve rq ;;
      responses <- serve_all rqs' ;;
      ret (response :: responses)
  end.

(** *** Requests that overlap

    An [await] suspends the handler.  While the database has not yet
    answered a statement, callbacks of other requests run: [others k] is
    what they do while the [k]-th statement is pending.  What they return
    or throw does not reach the handler that waits. *)
Section Overlap.

Variable others : N -> M unit.

Definition query_db_among (text : string) (params : Params) : M DbResult :=
  fun w =>
    match query_db text params w with
    | (reply, w') => (reply, snd (others (db_seq w) w'))
    end.

(** [call], every statement being awaited among the others. *)
Fixpoint call_among (c : Cap) (text : string) (params : Params) : M DbResult :=
  match c with
  | Native => query_db_among text params
  | Bound target => call_among target text params
  | Wrapper req originalQuery =>
      start <- Date_now ;;
      try_finally
        (try_catch
           (let explainQuery := "EXPLAIN " ++ text in
            explainResult <- call_among originalQuery explainQuery params ;;
            plan <- query_plan explainResult ;;
            costMatch <- plan_match plan ;;
            let queryCost := query_cost costMatch in
            result <- call_among originalQuery text params ;;
            finish <- Date_now ;;
            let duration := (finish - start)%Z in
            logger_log (executed_query_entry text params duration queryCost result) ;;
            emit (EvRecord req text queryCost duration) ;;
            ret result)
           (fun err =>
              logger_log (query_error_entry text err) ;;
              throw err))
        (set_query originalQuery)
  end.

Definition pool_query_call_among (text : string) (params : Params) : M DbResult :=
  c <- get_query ;;
  emit (EvInvoke c text params) ;;
  call_among c text params.

Fixpoint insert_orders_among (orders : list Order) (insertedRows : Z) : M Z :=
  match orders with
  | [] => ret insertedRows
  | order :: orders' =>
      _ <- pool_query_call_among insert_order (order_params order) ;;
      insert_orders_among orders' (insertedRows + 1)%Z
  end.

(** [GET /api/orders/generate], its inserts awaited among the others. *)
Definition api_orders_generate_among (rq : Request) : M Response :=
  try_catch
    (start <- Date_now ;;
     orders <- generateOrders 10 ;;
     insertedRows <- insert_orders_among orders 0 ;;
     finish <- Date_now ;;
     let duration := (finish - start)%Z in
     logger_info "Generated and saved 10 dummy orders"
       [ ("metrics", Winston.MObj
            [ ("orders_inserted", Js.of_Z insertedRows);
              ("operation_time_ms", Js.of_Z duration) ]);
         ("transport", Winston.MVal (Js.VStr "logs/app.log")) ] ;;
     ret (mkResponse 200 (JsonOrders orders)))
    (fun err =>
       errorCounter_inc ;;
       logger_error ("Error generating orders: " ++ Js.message err)
         [ ("metrics", Winston.MObj [ ("error_code", Js.VStr "INSERT_ERROR") ]) ] ;;
       ret (mkResponse 500 (Json [ ("error", Js.VStr "Failed to generate orders") ]))).

(** The request through the middleware chain, as [serve]. *)
Definition serve_orders_among (rq : Request) : M Response :=
  start <- Date_now ;;
  let reqSize := 0%Z in
  r <- Math_random ;;
  let latency := networkLatency r in
  sleep latency ;;
  logQueryComplexity rq ;;
  response <- api_orders_generate_among rq ;;
  finish <- Date_now ;;
  let duration := (finish - start)%Z in
  emit EvObserve ;;
  logger_info (access_line rq (status response) duration)
    [ ("metrics", Winston.MObj
         [ ("response_time_ms", Js.of_Z duration);
           ("request_size_bytes", Js.of_Z reqSize);
           ("memory_usage_mb", Js.VStr (memory_usage_mb env));
           ("network_latency_ms", Js.of_Z latency) ]) ] ;;
  ret response.

End Overlap.

(** Another request handled from its arrival to its [finish] event. *)
Definition meanwhile (rq : Request) : M unit :=
  fun w => (Return tt, snd (serve rq w)).

(** *** Start-up (lines 266-300) *)

(** [while (retries) { try { ...; break; } catch (err) { ...; retries -= 1; ... } }] *)
Fixpoint waitForPostgres_loop (retries : nat) : M unit :=
  match retries with
  | O => ret tt
  | S retries' =>
      connected <-
        try_catch
          (_ <- pool_query_call "SELECT NOW()" None ;;
           console_log "Connected to Postgres" ;;
           ret true)
          (fun err =>
             console_log "Waiting for Postgres..." ;;
             sleep 5000 ;;
             ret false) ;;
      if connected : bool then ret tt else waitForPostgres_loop retries'
  end.

Definition waitForPostgres : M unit := waitForPostgres_loop 10.

(** [generateUsers(num)] (dummyData.js); [i] counts from 0. *)
Fixpoint generateUsers_from (i : Z) (num : nat) : M (list User) :=
  match num with
  | O => ret []
  | S num' =>
      r <- Math_random ;;
      let user :=
        mkUser ("User " ++ Js.show_Z (i + 1))
               ("user" ++ Js.show_Z (i + 1) ++ "@example.com")
               (Qfloor (Js.to_double (r * (60 - 18 + 1))) + 18)%Z in
      users <- generateUsers_from (i + 1) num' ;;
      ret (user :: users)
  end.

Definition generateUsers (num : nat) : M (list User) := generateUsers_from 0 num.

Definition insert_user : string :=
  "INSERT INTO users (name, email, age) VALUES ($1, $2, $3) ON CONFLICT DO NOTHING".

Fixpoint insert_users (users : list User) (insertedRows : Z) : M Z :=
  match users with
  | [] => ret insertedRows
  | user :: users' =>
      inserted <-
        try_catch
          (_ <- pool_query_call insert_user
                  (Some [ Js.VStr (name user); Js.VStr (email user);
                          Js.of_Z (user_age user) ]) ;;
           logger_info ("Inserted user: " ++ name user ++ " with email: " ++ email user) [] ;;
           ret (insertedRows + 1)%Z)
          (fun err =>
             logger_error ("Failed to insert user: " ++ name user)
               [ ("error", Winston.MVal (Js.VStr (Js.message err))) ] ;;
             ret insertedRows) ;;
      insert_users users' inserted
  end.

(** The callback of [app.listen]. *)
Definition startup : M unit :=
  waitForPostgres ;;
  users <- generateUsers 50 ;;
  insertedRows <- insert_users users 0 ;;
  console_log ("Inserted " ++ Js.show_Z insertedRows ++ " users.").

End Server.

(** ** Sample environments *)

Definition seq_scan_plan : string :=
  "Seq Scan on users  (cost=0.00..35.50 rows=2550 width=244)".

(** A database that is up and behaves as PostgreSQL does on the
    statements of the server: the [EXPLAIN] of an [EXPLAIN] is a syntax
    error, the [EXPLAIN] of a statement yields one plan row, and any other
    statement yields two rows. *)
Definition db_up (k : N) (text : string) (params : Params) : Reply :=
  if String.prefix "EXPLAIN EXPLAIN " text
  then Failed (Js.mkExn Js.Error "syntax error at or near EXPLAIN")
  else if String.prefix "EXPLAIN " text
  then Rows (mkResult [ [ ("QUERY PLAN", Js.VStr seq_scan_plan) ] ] None)
  else Rows (mkResult
               [ [ ("id", Js.of_Z 1); ("name", Js.VStr "User 1") ];
                 [ ("id", Js.of_Z 2); ("name", Js.VStr "User 2") ] ]
               (Some 2%Z)).

(** A database that refuses every connection. *)
Definition db_down (k : N) (text : string) (params : Params) : Reply :=
  Failed (Js.mkExn Js.Error "connect ECONNREFUSED").

(** A database that is up but rejects every statement that is not an
    [EXPLAIN]. *)
Definition db_explain_only (k : N) (text : string) (params : Params) : Reply :=
  if String.prefix "EXPLAIN " text
  then db_up k text params
  else Failed (Js.mkExn Js.Error "permission denied for table users").

(** An environment around a database: every draw of [Math.random()] is
    [draw] and the clock advances 7 ms between two readings. *)
Definition sample_env (database : N -> string -> Params -> Reply) (draw : Q) : Env :=
  mkEnv database (fun _ => draw) (fun k => 1000 + 7 * Z.of_N k)%Z
        (fun _ min _ => min) (fun _ => "Chair")
        "Mon 02 Nov 2026 10:00:00 +0000" "48.00" "0.10"
        (fun _ => "0.5") (fun _ => "0.50") (fun _ => "app_errors_total").




(** [GET path] as request number [id]. *)
Definition get (r : Route) (path : string) (age : option string) (id : nat) : Request :=
  mkRequest id "GET" path r age None None.

(** ** Vocabulary of the statements *)

Open Scope list_scope.

(** The events of [w'] that were not yet in [w]. *)
Definition new_events (w w' : World) : list Event :=
  skipn (length (trace w)) (trace w').

(** The writes that logging [e] causes. *)
Definition writes (e : Winston.Entry) : list Event :=
  map (fun s => EvWrite s e) (Winston.destinations e).

(** An access-log entry is one that carries [network_latency_ms]; only the
    [finish] listener of middleware 1 builds such an entry. *)
Definition is_access_entry (e : Winston.Entry) : bool :=
  match Winston.metric "network_latency_ms" e with
  | Some _ => true
  | None => false
  end.

Definition access_write (ev : Event) : bool :=
  match ev with
  | EvWrite Winston.AccessLog e => is_access_entry e
  | _ => false
  end.

(** Entries appended to one sink, in order. *)
Fixpoint written_to (s : Winston.Sink) (evs : list Event) : list Winston.Entry :=
  match evs with
  | [] => []
  | EvWrite s' e :: evs' =>
      if Winston.sink_eqb s s' then e :: written_to s evs' else written_to s evs'
  | _ :: evs' => written_to s evs'
  end.

(** What calling a capability can add to the trace: statements sent to
    the database, the wrapper's log records and its bookkeeping. *)
Definition call_event (ev : Event) : Prop :=
  match ev with
  | EvDb _ _ | EvRecord _ _ _ _ => True
  | EvWrite _ e => is_access_entry e = false
  | _ => False
  end.

(** Anything but the write of an access-log entry. *)
Definition no_access_entry (ev : Event) : Prop :=
  match ev with
  | EvWrite _ e => is_access_entry e = false
  | _ => True
  end.

(** [m] only appends to the trace, each event it appends satisfies [P],
    and the clock index does not go back. *)
Definition emits {A : Type} (P : Event -> Prop) (m : M A) : Prop :=
  forall w r w',
    m w = (r, w') ->
    (clk_seq w <= clk_seq w')%N /\
    exists evs, trace w' = trace w ++ evs /\ Forall P evs.

(** The wall clock never runs backwards. *)
Definition clock_monotone (env : Env) : Prop :=
  forall i j, (i <= j)%N -> (now env i <= now env j)%Z.

(** Every draw of [Math.random()] lies in [0, 1) and is a multiple of
    [2 ^ -53]: the engines build a draw from at most 53 random bits. *)
Definition draws_in_unit_interval (env : Env) : Prop :=
  forall k, exists m : Z,
    (0 <= m < 2 ^ 53)%Z /\ (random env k == inject_Z m / inject_Z (2 ^ 53))%Q.

(** PostgreSQL has no [EXPLAIN] of an [EXPLAIN]: such a statement is a
    syntax error. *)
Definition rejects_nested_explain (env : Env) : Prop :=
  forall k text params,
    String.prefix "EXPLAIN EXPLAIN " text = true ->
    exists e, db env k text params = Failed e.

(** The two ways a wrapped call fails: the [EXPLAIN] issued through the
    captured capability [o] throws [err]; or it returns, the plan is read
    and matched, and the statement itself throws [err].  [w0] is the world
    after the wrapper has read the clock, [w1] the world the failing call
    leaves. *)
Definition estimation_fails (env : Env) (o : Cap) (text : string) (params : Params)
    (w0 : World) (err : Js.Exn) (w1 : World) : Prop :=
  call env o ("EXPLAIN " ++ text)%string params w0 = (Throw err, w1).

Definition execution_fails (env : Env) (o : Cap) (text : string) (params : Params)
    (w0 : World) (err : Js.Exn) (w1 : World) : Prop :=
  exists explainResult wa plan costMatch,
    call env o ("EXPLAIN " ++ text)%string params w0 = (Return explainResult, wa) /\
    query_plan explainResult wa = (Return plan, wa) /\
    plan_match plan wa = (Return costMatch, wa) /\
    call env o text params wa = (Throw err, w1).

(** The events of a query: a call site reached, a statement received. *)
Definition reaches_database (ev : Event) : bool :=
  match ev with
  | EvDb _ _ | EvInvoke _ _ _ => true
  | _ => false
  end.

(** The error and the entries of [/api/users/filter] and [/api/compute]
    that the statements name. *)
Definition validation_error : Js.Exn :=
  Js.mkExn Js.Error "Age query parameter is required".

Definition filter_error_entry (err : Js.Exn) : Winston.Entry :=
  Winston.mkEntry Winston.error ("Filter error: " ++ Js.message err)%string
    [ ("metrics", Winston.MObj [ ("error_code", Js.VStr "FILTER_ERROR") ]) ].

Definition start_computation_entry : Winston.Entry :=
  Winston.mkEntry Winston.info "Starting heavy computation"
    [ ("transport", Winston.MVal (Js.VStr "logs/app.log")) ].

Definition start_is_not_defined : Js.Exn :=
  Js.mkExn Js.ReferenceError "start is not defined".

(** What the wrapper logs on [GET /api/users] against [db_up]. *)
Definition users_query_entry : Winston.Entry :=
  executed_query_entry "SELECT * FROM users" None 7 (Js.Fin 0)
    (mkResult
       [ [ ("id", Js.of_Z 1); ("name", Js.VStr "User 1") ];
         [ ("id", Js.of_Z 2); ("name", Js.VStr "User 2") ] ]
       (Some 2%Z)).

(** Projections of a trace. *)
Fixpoint console_lines (evs : list Event) : list string :=
  match evs with
  | [] => []
  | EvConsole line :: evs' => line :: console_lines evs'
  | _ :: evs' => console_lines evs'
  end.

Fixpoint timeouts (evs : list Event) : list Z :=
  match evs with
  | [] => []
  | EvTimeout ms :: evs' => ms :: timeouts evs'
  | _ :: evs' => timeouts evs'
  end.

Fixpoint invocations (evs : list Event) : list string :=
  match evs with
  | [] => []
  | EvInvoke _ text _ :: evs' => text :: invocations evs'
  | _ :: evs' => invocations evs'
  end.

(** The notices and the statement of the readiness loop. *)
Definition waiting_line : string := "Waiting for Postgres...".
Definition connected_line : string := "Connected to Postgres".
Definition liveness_query : string := "SELECT NOW()".

(** A log record that is neither of the two notices the loop prints per
    attempt. *)
Definition reports_exhaustion (ev : Event) : Prop :=
  match ev with
  | EvConsole line => line <> waiting_line /\ line <> connected_line
  | EvWrite _ _ => True
  | _ => False
  end.

(** C9 as the specification words it: the loop returns normally after at
    most ten liveness queries and, when no attempt connected, has logged
    the exhaustion. *)
Definition C9_as_stated (env : Env) (w : World) : Prop :=
  let w' := snd (waitForPostgres env w) in
  let evs := new_events w w' in
  fst (waitForPostgres env w) = Return tt /\
  (length (invocations evs) <= 10)%nat /\
  (~ In connected_line (console_lines evs) ->
   exists ev, In ev evs /\ reports_exhaustion ev).

(** No constraint on the events appended. *)
Definition any_event (ev : Event) : Prop := True.

(** What a query leaves in the trace when the slot holds a capability that
    is not instrumented: the invocation and the statement. *)
Definition plain_query (c : Cap) (order : Order) : list Event :=
  [ EvInvoke c insert_order (order_params order);
    EvDb insert_order (order_params order) ].


(** C10 as the specification words it: whenever [age] is present and
    [parseInt(age)] is [NaN], the handler invokes the query capability with
    [NaN]. *)
Definition C10_as_stated (env : Env) (rq : Request) (w : World) : Prop :=
  forall s,
    route rq = ApiUsersFilter ->
    age rq = Some s ->
    Js.parseInt s = Js.NaN ->
    exists c,
      In (EvInvoke c select_filter (Some [ Js.VNum Js.NaN ]))
         (new_events w (snd (serve env rq w))).

(** [GET /api/users/filter?age=]: the parameter is present and empty. *)
Definition empty_age_request : Request :=
  get ApiUsersFilter "/api/users/filter?age=" (Some EmptyString) 1.

(** [m] leaves the error counter alone. *)
Definition keeps_counter {A : Type} (m : M A) : Prop :=
  forall w r w', m w = (r, w') -> errors_total w' = errors_total w.

(** Whatever [m] returns satisfies [P]. *)
Definition returns {A : Type} (P : A -> Prop) (m : M A) : Prop :=
  forall w a w', m w = (Return a, w') -> P a.

(** A response of a handler's own: JSON, with the given status. *)
Definition json_with_status (code : Z) (response : Response) : Prop :=
  status response = code /\ is_json (body response) = true.

(** The capabilities found at the call sites, and the statements the
    database received, in order. *)
Fixpoint invoked_caps (evs : list Event) : list Cap :=
  match evs with
  | [] => []
  | EvInvoke c _ _ :: evs' => c :: invoked_caps evs'
  | _ :: evs' => invoked_caps evs'
  end.

Fixpoint statements (evs : list Event) : list string :=
  match evs with
  | [] => []
  | EvDb text _ :: evs' => text :: statements evs'
  | _ :: evs' => statements evs'
  end.

(** C3 as the specification words it, on the events of a request whose
    handler invokes the capability two or more times: the first
    invocation is instrumented and no later one is. *)
Definition C3_as_stated (evs : list Event) : Prop :=
  (2 <= length (invoked_caps evs))%nat ->
  exists first rest,
    invoked_caps evs = first :: rest /\
    instrumented first = true /\
    Forall (fun c => instrumented c = false) rest.

(** Nothing happens while a statement is pending. *)
Definition nobody : N -> M unit := fun _ => ret tt.

(** [GET /metrics] arrives, is handled and answered while the [k]-th
    statement is pending. *)
Definition scrape_during (env : Env) (k : N) (id : nat) : N -> M unit :=
  fun i =>
    if (i =? k)%N then meanwhile env (get MetricsEndpoint "/metrics" None id)
    else ret tt.

(** What instrumentation leaves in the trace: a wrapper found at a call
    site, an [EXPLAIN], an entry that carries [query_cost], a
    [queryComplexity] record. *)
Definition instrumentation_event (ev : Event) : bool :=
  match ev with
  | EvInvoke c _ _ => instrumented c
  | EvDb text _ => String.prefix "EXPLAIN " text
  | EvWrite _ e =>
      match Winston.metric "query_cost" e with
      | Some _ => true
      | None => false
      end
  | EvRecord _ _ _ _ => true
  | _ => false
  end.

(** ** Vocabulary of the further properties *)

(** faker keeps its promise: a number drawn for [{min, max}] lies between
    the two. *)
Definition faker_in_range (env : Env) : Prop :=
  forall k min max, (min <= max)%Z -> (min <= faker_number env k min max <= max)%Z.

(** How many functions a call of the capability goes through before it
    reaches the pg method. *)
Fixpoint layers (c : Cap) : nat :=
  match c with
  | Native => 0
  | Bound target => S (layers target)
  | Wrapper _ originalQuery => S (layers originalQuery)
  end.

(** [m] leaves the slot [pool.query] alone. *)
Definition keeps_slot {A : Type} (m : M A) : Prop :=
  forall w r w', m w = (r, w') -> pool_query w' = pool_query w.

(** The responses with status 500. *)
Definition server_errors (responses : list Response) : nat :=
  length (filter (fun r => Z.eqb (status r) 500) responses).

(** [m] only appends to the trace, and what it appends satisfies [Q]. *)
Definition appends {A : Type} (Q : list Event -> Prop) (m : M A) : Prop :=
  forall w r w', m w = (r, w') -> exists evs, trace w' = trace w ++ evs /\ Q evs.

(** A property of event lists that holds of nothing and of what two lists
    with the property make together. *)
Definition additive (Q : list Event -> Prop) : Prop :=
  Q [] /\ forall a b, Q a -> Q b -> Q (a ++ b).

Definition is_error_entry (e : Winston.Entry) : bool :=
  match Winston.level e with
  | Winston.error => true
  | _ => false
  end.

(** The files mirror one another: the access, db and app files and the
    console have received the same entries, and the error file the error
    entries among them. *)
Definition mirrored (evs : list Event) : Prop :=
  written_to Winston.DbLog evs = written_to Winston.AccessLog evs /\
  written_to Winston.AppLog evs = written_to Winston.AccessLog evs /\
  written_to Winston.Console evs = written_to Winston.AccessLog evs /\
  written_to Winston.ErrorLog evs
    = filter is_error_entry (written_to Winston.AccessLog evs).

(** One failed attempt of the readiness loop, and the successful one. *)
Definition failed_attempt (c : Cap) : list Event :=
  [ EvInvoke c liveness_query None; EvDb liveness_query None;
    EvConsole waiting_line; EvTimeout 5000 ].

Definition successful_attempt (c : Cap) : list Event :=
  [ EvInvoke c liveness_query None; EvDb liveness_query None;
    EvConsole connected_line ].

(** The entries of the start-up inserts. *)
Definition inserted_entry (user : User) : Winston.Entry :=
  Winston.mkEntry Winston.info
    ("Inserted user: " ++ name user ++ " with email: " ++ email user)%string [].

Definition insert_failed_entry (user : User) (err : Js.Exn) : Winston.Entry :=
  Winston.mkEntry Winston.error ("Failed to insert user: " ++ name user)%string
    [ ("error", Winston.MVal (Js.VStr (Js.message err))) ].

(** [[user.name, user.email, user.age]] *)
Definition user_params (user : User) : Params :=
  Some [ Js.VStr (name user); Js.VStr (email user); Js.of_Z (user_age user) ].

(** The database fails the next statement it receives, whatever it is. *)
Definition next_statement_fails (env : Env) (w : World) (err : Js.Exn) : Prop :=
  forall text params, db env (db_seq w) text params = Failed err.

(** A string of decimal digits. *)
Fixpoint all_digits (s : string) : bool :=
  match s with
  | EmptyString => true
  | String c s' => Js.is_digit c && all_digits s'
  end.

(** The world in which a route handler starts: middleware 1 has read the
    clock, drawn the latency and waited for it; middleware 2 has installed
    the wrapper of the request. *)
Definition entering (env : Env) (rq : Request) (w : World) : World :=
  mkWorld (Wrapper (req_id rq) (Bound (pool_query w))) (errors_total w)
          (trace w ++ [EvTimeout (networkLatency (random env (rnd_seq w)))])
          (db_seq w) (N.succ (rnd_seq w)) (N.succ (clk_seq w)) (faker_seq w).

(** The entry of the [finish] listener (lines 68-75). *)
Definition access_entry (env : Env) (rq : Request) (statusCode duration latency : Z)
    : Winston.Entry :=
  Winston.mkEntry Winston.info (access_line env rq statusCode duration)
    [ ("metrics", Winston.MObj
         [ ("response_time_ms", Js.of_Z duration);
           ("request_size_bytes", Js.of_Z 0);
           ("memory_usage_mb", Js.VStr (memory_usage_mb env));
           ("network_latency_ms", Js.of_Z latency) ]) ].

(** The world in which [serve] ends, from the one the handler ended in. *)
Definition leaving (env : Env) (rq : Request) (w : World) (response : Response)
    (w5 : World) : World :=
  let latency := networkLatency (random env (rnd_seq w)) in
  let duration := (now env (clk_seq w5) - now env (clk_seq w))%Z in
  mkWorld (pool_query w5) (errors_total w5)
          ((trace w5 ++ [EvObserve])
           ++ writes (access_entry env rq (status response) duration latency))
          (db_seq w5) (rnd_seq w5) (N.succ (clk_seq w5)) (faker_seq w5).

(** The entry of [logger.info(`Computation completed: ${result}`, ...)]. *)
Definition computation_completed_entry (env : Env) (result : Q) (duration : Z)
    : Winston.Entry :=
  Winston.mkEntry Winston.info ("Computation completed: " ++ number_to_string env result)
    [ ("metrics", Winston.MObj
         [ ("compute_time_ms", Js.of_Z duration);
           ("cpu_usage_s", Js.VStr (cpu_usage_s env));
           ("result_size",
            Js.of_Z (Z.of_nat (String.length (to_fixed_2 env result)))) ]);
      ("transport", Winston.MVal (Js.VStr "logs/app.log")) ].

(** Whether the reply to an [EXPLAIN] leaves the wrapper without a plan
    text: the statement failed, no row came back, or the [QUERY PLAN]
    column holds a truthy value that is not a string. *)
Definition plan_unreadable (reply : Reply) : bool :=
  match reply with
  | Failed _ => true
  | Rows explainResult =>
      match rows explainResult with
      | [] => true
      | row :: _ =>
          match Winston.assoc "QUERY PLAN" row with
          | Some (Js.VStr _) | None => false
          | Some v => Js.truthy v
          end
      end
  end.

(** What one call of a wrapper over a capability that is not instrumented
    amounts to, by the replies of the database to the [EXPLAIN] and to the
    statement: [pre] is what the caller added to the trace before the
    call, [r] and [w'] are the outcome and the world after it. *)
Definition wrapped_outcome (env : Env) (req : nat) (text : string) (params : Params)
    (w : World) (pre : list Event) (r : Outcome DbResult) (w' : World) : Prop :=
  let explain := ("EXPLAIN " ++ text)%string in
  let duration := (now env (N.succ (clk_seq w)) - now env (clk_seq w))%Z in
  if plan_unreadable (db env (db_seq w) explain params)
  then exists err,
         r = Throw err /\
         trace w' = trace w ++ pre ++ EvDb explain params
                            :: writes (query_error_entry text err) /\
         db_seq w' = N.succ (db_seq w)
  else match db env (N.succ (db_seq w)) text params with
       | Failed err =>
           r = Throw err /\
           trace w' = trace w ++ pre ++ EvDb explain params :: EvDb text params
                              :: writes (query_error_entry text err) /\
           db_seq w' = N.succ (N.succ (db_seq w))
       | Rows result =>
           r = Return result /\
           (exists cost,
              trace w'
                = trace w ++ pre ++ EvDb explain params :: EvDb text params
                          :: writes (executed_query_entry text params duration cost result)
                          ++ [ EvRecord req text cost duration ]) /\
           db_seq w' = N.succ (N.succ (db_seq w)) /\
           clk_seq w' = N.succ (N.succ (clk_seq w))
       end.

(** What a call through a wrapper over a capability that is not
    instrumented returns when it is issued in [w]: the reply to the
    statement, provided a plan text was read first. *)
Definition wrapped_reply (env : Env) (text : string) (params : Params) (w : World)
    : option DbResult :=
  if plan_unreadable (db env (db_seq w) ("EXPLAIN " ++ text)%string params)
  then None
  else match db env (N.succ (db_seq w)) text params with
       | Rows result => Some result
       | Failed _ => None
       end.

(** The statements such a call sends. *)
Definition wrapped_statements (env : Env) (text : string) (params : Params) (w : World)
    : list string :=
  if plan_unreadable (db env (db_seq w) ("EXPLAIN " ++ text)%string params)
  then [ ("EXPLAIN " ++ text)%string ]
  else [ ("EXPLAIN " ++ text)%string; text ].

(** The entries of the [catch] blocks of [/api/users] and
    [/api/orders/generate]. *)
Definition users_error_entry (err : Js.Exn) : Winston.Entry :=
  Winston.mkEntry Winston.error
    ("Database error in /api/users: " ++ Js.message err)%string
    [ ("metrics", Winston.MObj [ ("error_code", Js.VStr "DB_ERROR") ]) ].

Definition orders_error_entry (err : Js.Exn) : Winston.Entry :=
  Winston.mkEntry Winston.error
    ("Error generating orders: " ++ Js.message err)%string
    [ ("metrics", Winston.MObj [ ("error_code", Js.VStr "INSERT_ERROR") ]) ].

Definition users_query : string := "SELECT * FROM users".

(** What the [catch] block of an asynchronous handler puts in the
    [error] field of its response (lines 145, 176 and 204) and the entry
    it logs (lines 142, 173 and 201). *)
Definition catch_body (r : Route) (err : Js.Exn) : string :=
  match r with
  | ApiUsers => "Internal server error"
  | ApiOrdersGenerate => "Failed to generate orders"
  | _ => Js.message err
  end.

Definition catch_entry (r : Route) (err : Js.Exn) : Winston.Entry :=
  match r with
  | ApiUsers => users_error_entry err
  | ApiOrdersGenerate => orders_error_entry err
  | _ => filter_error_entry err
  end.

(** How many of the start-up inserts the database accepts, the first of
    them being the [k]-th statement it receives. *)
Fixpoint accepted (env : Env) (k : N) (users : list User) : nat :=
  match users with
  | [] => 0
  | user :: users' =>
      (match db env k insert_user (user_params user) with
       | Rows _ => 1
       | Failed _ => 0
       end + accepted env (N.succ k) users')%nat
  end.

(** The world after a call site found a capability that is not
    instrumented in the slot. *)
Definition after_plain_query (text : string) (params : Params) (w : World) : World :=
  mkWorld (pool_query w) (errors_total w)
          ((trace w ++ [EvInvoke (pool_query w) text params]) ++ [EvDb text params])
          (N.succ (db_seq w)) (rnd_seq w) (clk_seq w) (faker_seq w).

(** A string of characters of the class [[\d.]]. *)
Fixpoint all_cost_chars (s : string) : bool :=
  match s with
  | EmptyString => true
  | String c s' => Js.is_cost_char c && all_cost_chars s'
  end.

(** None of the first three characters of [s], as far as it has them, is
    of the class [[\d.]]. *)
Definition no_cost_char_ahead (s : string) : bool :=
  match s with
  | String r0 (String r1 (String r2 _)) =>
      negb (Js.is_cost_char r0 || Js.is_cost_char r1 || Js.is_cost_char r2)
  | String r0 (String r1 EmptyString) =>
      negb (Js.is_cost_char r0 || Js.is_cost_char r1)
  | String r0 EmptyString => negb (Js.is_cost_char r0)
  | EmptyString => true
  end.

(** A recorded or logged query cost is acceptable when it is [NaN] or
    not negative. *)
Definition cost_in_range (n : Js.Num) : Prop :=
  match n with
  | Js.NaN => True
  | Js.Inf negative => negative = false
  | Js.Fin q => (0 <= q)%Q
  end.

Definition cost_event_in_range (ev : Event) : Prop :=
  match ev with
  | EvRecord _ _ cost _ => cost_in_range cost
  | EvWrite _ e =>
      match Winston.metric "query_cost" e with
      | Some (Js.VNum n) => cost_in_range n
      | Some _ => False
      | None => True
      end
  | _ => True
  end.

(** Whether the handler of a request reaches a call site of [pool.query]:
    [/api/users] and [/api/orders/generate] always do, [/api/users/filter]
    does when [age] passes validation, the other routes never do. *)
Definition issues_query (rq : Request) : bool :=
  match route rq with
  | ApiUsers | ApiOrdersGenerate => true
  | ApiUsersFilter => negb (age_missing (age rq))
  | ApiCompute | MetricsEndpoint | NoRoute => false
  end.

(** An event other than the record of the [catch] block of
    [/api/compute] (lines 244-253), which is tagged [COMPUTE_ERROR]. *)
Definition no_compute_error_entry (ev : Event) : Prop :=
  match ev with
  | EvWrite _ e => Winston.metric "error_code" e <> Some (Js.VStr "COMPUTE_ERROR")
  | _ => True
  end.

(** The five statements of the source. *)
Definition source_statements : list string :=
  [ users_query; insert_order; select_filter; liveness_query; insert_user ].

(** [text] behind [k] prefixes [EXPLAIN]. *)
Fixpoint explained (k : nat) (text : string) : string :=
  match k with
  | O => text
  | S k' => ("EXPLAIN " ++ explained k' text)%string
  end.

(** A statement the database receives is one of the source, explained
    zero or more times. *)
Definition known_statement (ev : Event) : Prop :=
  match ev with
  | EvDb text _ => exists k base, In base source_statements /\ text = explained k base
  | _ => True
  end.

(** What a route handler may add to the trace: anything but the wait and
    the timer of middleware 1 and an access entry. *)
Definition handler_event (ev : Event) : Prop :=
  match ev with
  | EvTimeout _ | EvObserve => False
  | EvWrite _ e => is_access_entry e = false
  | _ => True
  end.

(** How many times the [http_request_duration_ms] timer was ended. *)
Fixpoint observations (evs : list Event) : nat :=
  match evs with
  | [] => 0
  | EvObserve :: evs' => S (observations evs')
  | _ :: evs' => observations evs'
  end.

(** A database in which every row to insert conflicts with an existing
    one: [ON CONFLICT DO NOTHING] makes each insert succeed with no row. *)
Definition db_all_conflicts (k : N) (text : string) (params : Params) : Reply :=
  Rows (mkResult [] (Some 0%Z)).

(** The liveness query of one attempt of the readiness loop, issued in
    [w]. *)
Definition liveness_attempt (env : Env) (w : World) : Outcome DbResult * World :=
  pool_query_call env liveness_query None w.

Definition attempt_fails (env : Env) (w : World) : Prop :=
  exists err, fst (liveness_attempt env w) = Throw err.

Definition attempt_succeeds (env : Env) (w : World) : Prop :=
  exists result, fst (liveness_attempt env w) = Return result.

(** The world after an attempt that failed in [w]: the query, the
    waiting notice and the wait of 5000 ms. *)
Definition after_failed_attempt (env : Env) (w : World) : World :=
  snd ((console_log waiting_line ;; sleep 5000) (snd (liveness_attempt env w))).

(** The world after an attempt that succeeded in [w]: the query and the
    connection notice. *)
Definition after_successful_attempt (env : Env) (w : World) : World :=
  snd (console_log connected_line (snd (liveness_attempt env w))).

(** The world after [j] attempts in a row that failed. *)
Fixpoint after_failed_attempts (env : Env) (j : nat) (w : World) : World :=
  match j with
  | O => w
  | S j' => after_failed_attempts env j' (after_failed_attempt env w)
  end.

(** The entry of [logger.info('Generated and saved 10 dummy orders', ...)]. *)
Definition orders_saved_entry (insertedRows duration : Z) : Winston.Entry :=
  Winston.mkEntry Winston.info "Generated and saved 10 dummy orders"
    [ ("metrics", Winston.MObj
         [ ("orders_inserted", Js.of_Z insertedRows);
           ("operation_time_ms", Js.of_Z duration) ]);
      ("transport", Winston.MVal (Js.VStr "logs/app.log")) ].

(** ** The computation monad *)

Lemma bind_return {A B : Type} (m : M A) (k : A -> M B) (w w1 : World) (a : A) :
  m w = (Return a, w1) -> bind m k w = k a w1.
Proof. intros H. unfold bind. rewrite H. reflexivity. Qed.

Lemma bind_throw {A B : Type} (m : M A) (k : A -> M B) (w w1 : World) (e : Js.Exn) :
  m w = (Throw e, w1) -> bind m k w = (Throw e, w1).
Proof. intros H. unfold bind. rewrite H. reflexivity. Qed.

Lemma try_catch_return {A : Type} (m : M A) (h : Js.Exn -> M A) (w w1 : World) (a : A) :
  m w = (Return a, w1) -> try_catch m h w = (Return a, w1).
Proof. intros H. unfold try_catch. rewrite H. reflexivity. Qed.

Lemma try_catch_throw {A : Type} (m : M A) (h : Js.Exn -> M A) (w w1 : World) (e : Js.Exn) :
  m w = (Throw e, w1) -> try_catch m h w = h e w1.
Proof. intros H. unfold try_catch. rewrite H. reflexivity. Qed.

Lemma try_catch_bind {A B : Type} (m : M A) (k : A -> M B) (h : Js.Exn -> M B)
    (w w1 : World) (r1 : Outcome A) :
  m w = (r1, w1) ->
  try_catch (bind m k) h w
    = match r1 with
      | Return a => try_catch (k a) h w1
      | Throw e => h e w1
      end.
Proof.
  intros H. unfold try_catch, bind. rewrite H. destruct r1; reflexivity.
Qed.

Lemma emits_weaken {A : Type} (P R : Event -> Prop) (m : M A) :
  (forall ev, P ev -> R ev) -> emits P m -> emits R m.
Proof.
  intros HPR Hm w r w' E. destruct (Hm w r w' E) as [Hc [evs [Ht Hall]]].
  split; [exact Hc|]. exists evs. split; [exact Ht|].
  eapply Forall_impl; eauto.
Qed.

Lemma emits_any {A : Type} (P : Event -> Prop) (m : M A) : emits P m -> emits any_event m.
Proof. apply emits_weaken. intros; exact I. Qed.

Lemma emits_ret {A : Type} (P : Event -> Prop) (a : A) : emits P (ret a).
Proof.
  intros w r w' E. inversion E; subst. split; [lia|].
  exists []. rewrite app_nil_r. auto.
Qed.

Lemma emits_throw {A : Type} (P : Event -> Prop) (e : Js.Exn) : emits P (@throw A e).
Proof.
  intros w r w' E. inversion E; subst. split; [lia|].
  exists []. rewrite app_nil_r. auto.
Qed.

Lemma emits_bind {A B : Type} (P : Event -> Prop) (m : M A) (k : A -> M B) :
  emits P m -> (forall a, emits P (k a)) -> emits P (bind m k).
Proof.
  intros Hm Hk w r w' E. unfold bind in E.
  destruct (m w) as [o w1] eqn:Em.
  destruct (Hm w o w1 Em) as [Hc1 [evs1 [Ht1 Hall1]]].
  destruct o as [a|e].
  - destruct (Hk a w1 r w' E) as [Hc2 [evs2 [Ht2 Hall2]]].
    split; [lia|]. exists (evs1 ++ evs2).
    rewrite Ht2, Ht1, app_assoc. split; [reflexivity|].
    apply Forall_app; auto.
  - inversion E; subst. split; [exact Hc1|]. exists evs1. auto.
Qed.

Lemma emits_try_catch {A : Type} (P : Event -> Prop) (body : M A) (handler : Js.Exn -> M A) :
  emits P body -> (forall e, emits P (handler e)) -> emits P (try_catch body handler).
Proof.
  intros Hm Hk w r w' E. unfold try_catch in E.
  destruct (body w) as [o w1] eqn:Em.
  destruct (Hm w o w1 Em) as [Hc1 [evs1 [Ht1 Hall1]]].
  destruct o as [a|e].
  - inversion E; subst. split; [exact Hc1|]. exists evs1. auto.
  - destruct (Hk e w1 r w' E) as [Hc2 [evs2 [Ht2 Hall2]]].
    split; [lia|]. exists (evs1 ++ evs2).
    rewrite Ht2, Ht1, app_assoc. split; [reflexivity|].
    apply Forall_app; auto.
Qed.

Lemma emits_try_finally {A : Type} (P : Event -> Prop) (body : M A) (cleanup : M unit) :
  emits P body -> emits P cleanup -> emits P (try_finally body cleanup).
Proof.
  intros Hm Hk w r w' E. unfold try_finally in E.
  destruct (body w) as [o w1] eqn:Em.
  destruct (Hm w o w1 Em) as [Hc1 [evs1 [Ht1 Hall1]]].
  destruct (cleanup w1) as [o2 w2] eqn:Ec.
  destruct (Hk w1 o2 w2 Ec) as [Hc2 [evs2 [Ht2 Hall2]]].
  assert (w' = w2) by (destruct o2; inversion E; reflexivity). subst w'.
  split; [lia|]. exists (evs1 ++ evs2).
  rewrite Ht2, Ht1, app_assoc. split; [reflexivity|].
  apply Forall_app; auto.
Qed.

Lemma emits_emit_all (P : Event -> Prop) (evs : list Event) :
  Forall P evs -> emits P (emit_all evs).
Proof.
  intros H w r w' E. inversion E; subst. simpl. split; [lia|].
  exists evs. auto.
Qed.

Lemma emits_emit (P : Event -> Prop) (ev : Event) : P ev -> emits P (emit ev).
Proof.
  intros H w r w' E. inversion E; subst. simpl. split; [lia|].
  exists [ev]. auto.
Qed.

Lemma emits_logger_log (P : Event -> Prop) (e : Winston.Entry) :
  (forall s, P (EvWrite s e)) -> emits P (logger_log e).
Proof.
  intros H. apply emits_emit_all. apply Forall_forall. intros ev Hin.
  apply in_map_iff in Hin. destruct Hin as [s [<- _]]. apply H.
Qed.

Lemma emits_get_query (P : Event -> Prop) : emits P get_query.
Proof.
  intros w r w' E. inversion E; subst. split; [lia|].
  exists []. rewrite app_nil_r. auto.
Qed.

Lemma emits_set_query (P : Event -> Prop) (c : Cap) : emits P (set_query c).
Proof.
  intros w r w' E. inversion E; subst. simpl. split; [lia|].
  exists []. rewrite app_nil_r. auto.
Qed.

Lemma emits_errorCounter_inc (P : Event -> Prop) : emits P errorCounter_inc.
Proof.
  intros w r w' E. inversion E; subst. simpl. split; [lia|].
  exists []. rewrite app_nil_r. auto.
Qed.

Lemma emits_Date_now (P : Event -> Prop) (env : Env) : emits P (Date_now env).
Proof.
  intros w r w' E. inversion E; subst. simpl. split; [lia|].
  exists []. rewrite app_nil_r. auto.
Qed.

Lemma emits_Math_random (P : Event -> Prop) (env : Env) : emits P (Math_random env).
Proof.
  intros w r w' E. inversion E; subst. simpl. split; [lia|].
  exists []. rewrite app_nil_r. auto.
Qed.

Lemma emits_faker_datatype_number (P : Event -> Prop) (env : Env) (min max : Z) :
  emits P (faker_datatype_number env min max).
Proof.
  intros w r w' E. inversion E; subst. simpl. split; [lia|].
  exists []. rewrite app_nil_r. auto.
Qed.

Lemma emits_faker_commerce_productName (P : Event -> Prop) (env : Env) :
  emits P (faker_commerce_productName env).
Proof.
  intros w r w' E. inversion E; subst. simpl. split; [lia|].
  exists []. rewrite app_nil_r. auto.
Qed.

Lemma emits_query_plan (P : Event -> Prop) (r : DbResult) : emits P (query_plan r).
Proof.
  unfold query_plan. destruct (rows r); [apply emits_throw | apply emits_ret].
Qed.

Lemma emits_plan_match (P : Event -> Prop) (plan : Js.Val) : emits P (plan_match plan).
Proof.
  destruct plan; simpl; first [apply emits_throw | apply emits_ret].
Qed.

Lemma emits_query_db (P : Event -> Prop) (env : Env) (text : string) (params : Params) :
  P (EvDb text params) -> emits P (query_db env text params).
Proof.
  intros H w r w' E. unfold query_db in E.
  destruct (db env (db_seq w) text params); inversion E; subst; simpl;
    (split; [lia|]); exists [EvDb text params]; auto.
Qed.

Lemma emits_minus_identifier (P : Event -> Prop) (scope : list string) (lhs : Z) (x : string) :
  emits P (minus_identifier scope lhs x).
Proof.
  unfold minus_identifier. destruct (existsb (String.eqb x) scope);
    [apply emits_ret | apply emits_throw].
Qed.

(** One step of the syntax-directed proof that a computation only emits
    events of a given kind. *)
Ltac emits_step :=
  lazymatch goal with
  | |- emits _ (bind _ _) => apply emits_bind; [| intro]
  | |- emits _ (try_catch _ _) => apply emits_try_catch; [| intro]
  | |- emits _ (try_finally _ _) => apply emits_try_finally
  | |- emits _ (ret _) => apply emits_ret
  | |- emits _ (throw _) => apply emits_throw
  | |- emits _ get_query => apply emits_get_query
  | |- emits _ (set_query _) => apply emits_set_query
  | |- emits _ errorCounter_inc => apply emits_errorCounter_inc
  | |- emits _ (Date_now _) => apply emits_Date_now
  | |- emits _ (Math_random _) => apply emits_Math_random
  | |- emits _ (query_plan _) => apply emits_query_plan
  | |- emits _ (plan_match _) => apply emits_plan_match
  | |- emits _ (emit _) => apply emits_emit; simpl; auto
  | |- emits _ (sleep _) => apply emits_emit; simpl; auto
  | |- emits _ (console_log _) => apply emits_emit; simpl; auto
  | |- emits _ (logger_log _) => apply emits_logger_log; intro; simpl; auto
  | |- emits _ (logger_info _ _) => apply emits_logger_log; intro; simpl; auto
  | |- emits _ (logger_error _ _) => apply emits_logger_log; intro; simpl; auto
  | |- emits _ (if ?b then _ else _) => destruct b
  end.

Lemma keeps_ret {A : Type} (a : A) : keeps_counter (ret a).
Proof. intros w r w' E. inversion E. reflexivity. Qed.

Lemma keeps_throw {A : Type} (e : Js.Exn) : keeps_counter (@throw A e).
Proof. intros w r w' E. inversion E. reflexivity. Qed.

Lemma keeps_bind {A B : Type} (m : M A) (k : A -> M B) :
  keeps_counter m -> (forall a, keeps_counter (k a)) -> keeps_counter (bind m k).
Proof.
  intros Hm Hk w r w' E. unfold bind in E.
  destruct (m w) as [[a | e] w1] eqn:Em.
  - rewrite (Hk a _ _ _ E). exact (Hm _ _ _ Em).
  - inversion E; subst. exact (Hm _ _ _ Em).
Qed.

Lemma keeps_try_catch {A : Type} (m : M A) (h : Js.Exn -> M A) :
  keeps_counter m -> (forall e, keeps_counter (h e)) -> keeps_counter (try_catch m h).
Proof.
  intros Hm Hh w r w' E. unfold try_catch in E.
  destruct (m w) as [[a | e] w1] eqn:Em.
  - inversion E; subst. exact (Hm _ _ _ Em).
  - rewrite (Hh e _ _ _ E). exact (Hm _ _ _ Em).
Qed.

Lemma keeps_try_finally {A : Type} (m : M A) (cleanup : M unit) :
  keeps_counter m -> keeps_counter cleanup -> keeps_counter (try_finally m cleanup).
Proof.
  intros Hm Hc w r w' E. unfold try_finally in E.
  destruct (m w) as [r1 w1] eqn:Em.
  destruct (cleanup w1) as [r2 w2] eqn:Ec.
  assert (w' = w2) by (destruct r2; inversion E; reflexivity). subst w'.
  rewrite (Hc _ _ _ Ec). exact (Hm _ _ _ Em).
Qed.

Lemma keeps_emit_all (evs : list Event) : keeps_counter (emit_all evs).
Proof. intros w r w' E. inversion E. reflexivity. Qed.

Lemma keeps_set_query (c : Cap) : keeps_counter (set_query c).
Proof. intros w r w' E. inversion E. reflexivity. Qed.

Lemma keeps_Date_now (env : Env) : keeps_counter (Date_now env).
Proof. intros w r w' E. inversion E. reflexivity. Qed.

Lemma keeps_Math_random (env : Env) : keeps_counter (Math_random env).
Proof. intros w r w' E. inversion E. reflexivity. Qed.

Lemma keeps_query_db (env : Env) (text : string) (params : Params) :
  keeps_counter (query_db env text params).
Proof.
  intros w r w' E. unfold query_db in E.
  destruct (db env (db_seq w) text params); inversion E; reflexivity.
Qed.

Lemma keeps_query_plan (r : DbResult) : keeps_counter (query_plan r).
Proof.
  unfold query_plan. destruct (rows r); [apply keeps_throw | apply keeps_ret].
Qed.

Lemma keeps_plan_match (plan : Js.Val) : keeps_counter (plan_match plan).
Proof.
  destruct plan; cbn [plan_match]; first [apply keeps_throw | apply keeps_ret].
Qed.

(** One step of the syntax-directed proof that a computation leaves the
    error counter alone. *)
Ltac keeps_step :=
  lazymatch goal with
  | |- keeps_counter (bind _ _) => apply keeps_bind; [| intro]
  | |- keeps_counter (try_catch _ _) => apply keeps_try_catch; [| intro]
  | |- keeps_counter (try_finally _ _) => apply keeps_try_finally
  | |- keeps_counter (ret _) => apply keeps_ret
  | |- keeps_counter (throw _) => apply keeps_throw
  | |- keeps_counter (set_query _) => apply keeps_set_query
  | |- keeps_counter (Date_now _) => apply keeps_Date_now
  | |- keeps_counter (Math_random _) => apply keeps_Math_random
  | |- keeps_counter (query_plan _) => apply keeps_query_plan
  | |- keeps_counter (plan_match _) => apply keeps_plan_match
  | |- keeps_counter (emit _) => apply (keeps_emit_all [_])
  | |- keeps_counter (logger_log _) => apply keeps_emit_all
  | |- keeps_counter (logger_info _ _) => apply keeps_emit_all
  | |- keeps_counter (logger_error _ _) => apply keeps_emit_all
  | |- keeps_counter (if ?b then _ else _) => destruct b
  end.

Lemma returns_ret {A : Type} (P : A -> Prop) (a : A) : P a -> returns P (ret a).
Proof. intros H w b w' E. inversion E; subst. exact H. Qed.

Lemma returns_throw {A : Type} (P : A -> Prop) (e : Js.Exn) : returns P (throw e).
Proof. intros w b w' E. inversion E. Qed.

Lemma returns_bind {A B : Type} (P : B -> Prop) (m : M A) (k : A -> M B) :
  (forall a, returns P (k a)) -> returns P (bind m k).
Proof.
  intros Hk w b w' E. unfold bind in E.
  destruct (m w) as [[a | e] w1]; [exact (Hk a _ _ _ E) | inversion E].
Qed.

(** ** Binary64 rounding

    Rounding to the nearest binary64 never crosses a binary64: a bound
    that is itself a binary64 is kept by the rounded value. *)

Lemma pow2_pos (e : Z) : (0 < 2 ^ e)%Q.
Proof. apply Qpower_0_lt. reflexivity. Qed.

Lemma pow2_add (a b : Z) : (2 ^ (a + b) == 2 ^ a * 2 ^ b)%Q.
Proof. apply Qpower_plus. discriminate. Qed.

Lemma pow2_le (a b : Z) : (a <= b)%Z -> (2 ^ a <= 2 ^ b)%Q.
Proof. intro H. apply Qpower_le_compat_l; [exact H | discriminate]. Qed.

Lemma pow2_lt_inv (a b : Z) : (2 ^ a < 2 ^ b)%Q -> (a < b)%Z.
Proof. intro H. apply (Qpower_lt_compat_l_inv 2); [exact H | reflexivity]. Qed.

Lemma pow2_Z (n : Z) : (0 <= n)%Z -> (2 ^ n == inject_Z (2 ^ n))%Q.
Proof. intro H. symmetry. apply (Zpower_Qpower 2 n H). Qed.

Lemma pow2_split (t e : Z) : (2 ^ t == 2 ^ (t - e) * 2 ^ e)%Q.
Proof. rewrite <- pow2_add. replace (t - e + e)%Z with t by ring. reflexivity. Qed.

Lemma ilog2_spec (q : Q) :
  (0 < q)%Q -> (2 ^ Js.ilog2 q <= q)%Q /\ (q < 2 ^ (Js.ilog2 q + 1))%Q.
Proof.
  intro Hq. destruct q as [n d].
  assert (Hn : (0 < n)%Z).
  { unfold Qlt in Hq. simpl in Hq. lia. }
  unfold Js.ilog2. cbn [Qnum Qden].
  set (a := Z.log2 n). set (b := Z.log2 (Z.pos d)).
  destruct (Z.log2_spec n Hn) as [Ha1 Ha2]. fold a in Ha1, Ha2.
  destruct (Z.log2_spec (Z.pos d) (Pos2Z.is_pos d)) as [Hb1 Hb2]. fold b in Hb1, Hb2.
  assert (Ha0 : (0 <= a)%Z) by apply Z.log2_nonneg.
  assert (Hb0 : (0 <= b)%Z) by apply Z.log2_nonneg.
  assert (Hqd : (n # d == inject_Z n / inject_Z (Z.pos d))%Q) by apply Qmake_Qdiv.
  assert (Hd : (0 < inject_Z (Z.pos d))%Q) by (unfold Qlt; simpl; lia).
  assert (Hupper : (n # d < 2 ^ (a - b + 1))%Q).
  { rewrite Hqd. apply Qlt_shift_div_r; [exact Hd |].
    apply Qlt_le_trans with (inject_Z (2 ^ (a + 1))).
    - rewrite <- Zlt_Qlt. replace (a + 1)%Z with (Z.succ a) by lia. exact Ha2.
    - rewrite <- (pow2_Z (a + 1)) by lia.
      rewrite (pow2_split (a + 1) b).
      replace (a + 1 - b)%Z with (a - b + 1)%Z by ring.
      apply Qmult_le_l; [apply pow2_pos |].
      rewrite (pow2_Z b) by lia. rewrite <- Zle_Qle. exact Hb1. }
  assert (Hlower : (2 ^ (a - b - 1) <= n # d)%Q).
  { rewrite Hqd. apply Qle_shift_div_l; [exact Hd |].
    apply Qle_trans with (inject_Z (2 ^ a)).
    - rewrite <- (pow2_Z a) by lia.
      rewrite (pow2_split a (b + 1)).
      replace (a - (b + 1))%Z with (a - b - 1)%Z by ring.
      apply Qmult_le_l; [apply pow2_pos |].
      rewrite (pow2_Z (b + 1)) by lia. rewrite <- Zle_Qle.
      replace (b + 1)%Z with (Z.succ b) by lia. lia.
    - rewrite <- Zle_Qle. exact Ha1. }
  destruct (Qle_bool (2 ^ (a - b)) (n # d)) eqn:Hle.
  - split; [apply Qle_bool_iff; exact Hle | exact Hupper].
  - split; [exact Hlower |].
    replace (a - b - 1 + 1)%Z with (a - b)%Z by ring.
    apply Qnot_le_lt. intro Hc. apply Qle_bool_iff in Hc. congruence.
Qed.

Lemma round_half_even_le (z : Q) (n : Z) :
  (z <= inject_Z n)%Q -> (Js.round_half_even z <= n)%Z.
Proof.
  intro H. unfold Js.round_half_even.
  pose proof (Qfloor_le z) as Hf. pose proof (Qlt_floor z) as Hl.
  assert (Hfn : (Qfloor z <= n)%Z).
  { rewrite Zle_Qle. apply Qle_trans with z; assumption. }
  destruct (Z.eq_dec (Qfloor z) n) as [He | Hne].
  - assert (Hz : (z - inject_Z (Qfloor z) < 1 # 2)%Q).
    { rewrite He. lra. }
    destruct (Qcompare_spec (z - inject_Z (Qfloor z)) (1 # 2)) as [Hc | Hc | Hc];
      [rewrite Hc in Hz; discriminate Hz | lia | lra].
  - destruct (Qcompare_spec (z - inject_Z (Qfloor z)) (1 # 2)); [destruct (Z.even _) | |]; lia.
Qed.

Lemma round_half_even_ge (z : Q) (n : Z) :
  (inject_Z n <= z)%Q -> (n <= Js.round_half_even z)%Z.
Proof.
  intro H. unfold Js.round_half_even.
  assert (Hfn : (n <= Qfloor z)%Z).
  { rewrite <- (Qfloor_Z n). apply Qfloor_resp_le. exact H. }
  destruct (Qcompare_spec (z - inject_Z (Qfloor z)) (1 # 2)); [destruct (Z.even _) | |]; lia.
Qed.

Lemma round_half_even_below (z : Q) (n : Z) :
  (z < inject_Z n + (1 # 2))%Q -> (Js.round_half_even z <= n)%Z.
Proof.
  intro H. unfold Js.round_half_even.
  pose proof (Qfloor_le z) as Hf.
  assert (Hfn : (Qfloor z <= n)%Z).
  { assert (Hlt : (inject_Z (Qfloor z) < inject_Z (n + 1))%Q).
    { rewrite inject_Z_plus. change (inject_Z 1) with 1%Q. lra. }
    rewrite <- Zlt_Qlt in Hlt. lia. }
  destruct (Z.eq_dec (Qfloor z) n) as [He | Hne].
  - assert (Hz : (z - inject_Z (Qfloor z) < 1 # 2)%Q).
    { rewrite He. lra. }
    destruct (Qcompare_spec (z - inject_Z (Qfloor z)) (1 # 2)) as [Hc | Hc | Hc];
      [rewrite Hc in Hz; discriminate Hz | lia | lra].
  - destruct (Qcompare_spec (z - inject_Z (Qfloor z)) (1 # 2)); [destruct (Z.even _) | |]; lia.
Qed.

(** The exponent of the last place of [y] is at most [t] when [y] lies
    below [2 ^ (53 + t)]. *)
Lemma exponent_le (y : Q) (t : Z) :
  (0 < y)%Q -> (-1074 <= t)%Z -> (y < 2 ^ (53 + t))%Q ->
  (Z.max (Js.ilog2 y) (-1022) - 52 <= t)%Z.
Proof.
  intros Hy Ht Hlt. destruct (ilog2_spec y Hy) as [Hk _].
  assert (Js.ilog2 y < 53 + t)%Z.
  { apply pow2_lt_inv. apply Qle_lt_trans with y; assumption. }
  lia.
Qed.

Lemma unscale (y : Q) (e : Z) : (y == y / 2 ^ e * 2 ^ e)%Q.
Proof. field. apply Qnot_eq_sym, Qlt_not_eq, pow2_pos. Qed.

Lemma result_of_round_positive (y : Q) :
  (Js.round_positive y
   == inject_Z (Js.round_half_even (y / 2 ^ (Z.max (Js.ilog2 y) (-1022) - 52)))
      * 2 ^ (Z.max (Js.ilog2 y) (-1022) - 52))%Q.
Proof. unfold Js.round_positive. cbv zeta. apply Qred_correct. Qed.

Lemma round_positive_le (y : Q) (M t : Z) :
  (0 < y)%Q -> (0 <= M < 2 ^ 53)%Z -> (-1074 <= t)%Z ->
  (y <= inject_Z M * 2 ^ t)%Q ->
  (Js.round_positive y <= inject_Z M * 2 ^ t)%Q.
Proof.
  intros Hy HM Ht Hle.
  rewrite result_of_round_positive.
  set (e := (Z.max (Js.ilog2 y) (-1022) - 52)%Z).
  assert (He : (e <= t)%Z).
  { apply exponent_le; [exact Hy | exact Ht |].
    apply Qle_lt_trans with (inject_Z M * 2 ^ t)%Q; [exact Hle |].
    rewrite pow2_add. apply Qmult_lt_compat_r; [apply pow2_pos |].
    rewrite (pow2_Z 53) by lia. rewrite <- Zlt_Qlt. lia. }
  rewrite (pow2_split t e), Qmult_assoc.
  apply Qmult_le_compat_r; [| apply Qlt_le_weak, pow2_pos].
  rewrite (pow2_Z (t - e)) by lia. rewrite <- inject_Z_mult, <- Zle_Qle.
  apply round_half_even_le.
  rewrite inject_Z_mult, <- (pow2_Z (t - e)) by lia.
  apply Qle_shift_div_r; [apply pow2_pos |].
  rewrite <- Qmult_assoc, <- pow2_split. exact Hle.
Qed.

Lemma round_positive_below (y : Q) (M t : Z) :
  (0 < y)%Q -> (2 ^ 52 <= M < 2 ^ 53)%Z -> (-1074 <= t)%Z ->
  (y < (inject_Z M + (1 # 2)) * 2 ^ t)%Q ->
  (Js.round_positive y <= inject_Z M * 2 ^ t)%Q.
Proof.
  intros Hy HM Ht Hlt.
  assert (H53 : (y < 2 ^ (53 + t))%Q).
  { apply Qlt_le_trans with ((inject_Z M + (1 # 2)) * 2 ^ t)%Q; [exact Hlt |].
    rewrite pow2_add. apply Qmult_le_compat_r; [| apply Qlt_le_weak, pow2_pos].
    rewrite (pow2_Z 53) by lia.
    assert (H : (inject_Z (M + 1) <= inject_Z (2 ^ 53))%Q) by (rewrite <- Zle_Qle; lia).
    rewrite inject_Z_plus in H. change (inject_Z 1) with 1%Q in H. lra. }
  pose proof (exponent_le y t Hy Ht H53) as He.
  destruct (ilog2_spec y Hy) as [_ Hk].
  rewrite result_of_round_positive.
  set (e := (Z.max (Js.ilog2 y) (-1022) - 52)%Z) in *.
  rewrite (pow2_split t e), Qmult_assoc.
  apply Qmult_le_compat_r; [| apply Qlt_le_weak, pow2_pos].
  rewrite (pow2_Z (t - e)) by lia. rewrite <- inject_Z_mult, <- Zle_Qle.
  destruct (Z.eq_dec e t) as [Heq | Hne].
  - replace (t - e)%Z with 0%Z by lia. rewrite Z.pow_0_r, Z.mul_1_r.
    apply round_half_even_below.
    apply Qlt_shift_div_r; [apply pow2_pos |]. rewrite Heq. exact Hlt.
  - apply round_half_even_le.
    apply Qle_trans with (inject_Z (2 ^ 53)).
    + rewrite <- (pow2_Z 53) by lia.
      apply Qle_shift_div_r; [apply pow2_pos |].
      rewrite <- pow2_add.
      apply Qlt_le_weak, Qlt_le_trans with (2 ^ (Js.ilog2 y + 1))%Q; [exact Hk |].
      apply pow2_le. lia.
    + rewrite <- Zle_Qle.
      replace (2 ^ 53)%Z with (2 ^ 52 * 2 ^ 1)%Z by reflexivity.
      apply Z.mul_le_mono_nonneg; try lia.
      apply Z.pow_le_mono_r; lia.
Qed.

Lemma round_positive_ge (y : Q) (M t : Z) :
  (0 < y)%Q -> (0 <= M < 2 ^ 53)%Z -> (-1074 <= t)%Z ->
  (inject_Z M * 2 ^ t <= y)%Q ->
  (inject_Z M * 2 ^ t <= Js.round_positive y)%Q.
Proof.
  intros Hy HM Ht Hle.
  destruct (ilog2_spec y Hy) as [Hk _].
  rewrite result_of_round_positive.
  set (e := (Z.max (Js.ilog2 y) (-1022) - 52)%Z) in *.
  destruct (Z.le_gt_cases e t) as [He | He].
  - rewrite (pow2_split t e), Qmult_assoc.
    apply Qmult_le_compat_r; [| apply Qlt_le_weak, pow2_pos].
    rewrite (pow2_Z (t - e)) by lia. rewrite <- inject_Z_mult, <- Zle_Qle.
    apply round_half_even_ge.
    rewrite inject_Z_mult, <- (pow2_Z (t - e)) by lia.
    apply Qle_shift_div_l; [apply pow2_pos |].
    rewrite <- Qmult_assoc, <- pow2_split. exact Hle.
  - assert (Hek : e = (Js.ilog2 y - 52)%Z) by lia.
    apply Qle_trans with (inject_Z (2 ^ 52) * 2 ^ e)%Q.
    + rewrite <- (pow2_Z 52) by lia. rewrite <- pow2_add.
      apply Qle_trans with (2 ^ 53 * 2 ^ t)%Q.
      * apply Qmult_le_compat_r; [| apply Qlt_le_weak, pow2_pos].
        rewrite (pow2_Z 53) by lia. rewrite <- Zle_Qle. lia.
      * rewrite <- pow2_add. apply pow2_le. lia.
    + apply Qmult_le_compat_r; [| apply Qlt_le_weak, pow2_pos].
      rewrite <- Zle_Qle. apply round_half_even_ge.
      rewrite <- (pow2_Z 52) by lia.
      apply Qle_shift_div_l; [apply pow2_pos |].
      rewrite <- pow2_add. replace (52 + e)%Z with (Js.ilog2 y) by lia. exact Hk.
Qed.

(** *** Bounds on [to_double] *)

Lemma scaled_nonneg (M t : Z) : (0 <= M)%Z -> (0 <= inject_Z M * 2 ^ t)%Q.
Proof.
  intro HM. apply Qmult_le_0_compat; [| apply Qlt_le_weak, pow2_pos].
  change 0%Q with (inject_Z 0). rewrite <- Zle_Qle. exact HM.
Qed.

Lemma to_double_le (y : Q) (M t : Z) :
  (0 <= y)%Q -> (0 <= M < 2 ^ 53)%Z -> (-1074 <= t)%Z ->
  (y <= inject_Z M * 2 ^ t)%Q ->
  (Js.to_double y <= inject_Z M * 2 ^ t)%Q.
Proof.
  intros Hy HM Ht Hle. unfold Js.to_double.
  destruct (Qcompare_spec y 0) as [H0 | H0 | H0].
  - apply scaled_nonneg. lia.
  - lra.
  - apply round_positive_le; assumption.
Qed.

Lemma to_double_ge (y : Q) (M t : Z) :
  (0 <= M < 2 ^ 53)%Z -> (-1074 <= t)%Z ->
  (inject_Z M * 2 ^ t <= y)%Q ->
  (inject_Z M * 2 ^ t <= Js.to_double y)%Q.
Proof.
  intros HM Ht Hle. unfold Js.to_double.
  assert (Hc : (0 <= inject_Z M * 2 ^ t)%Q) by (apply scaled_nonneg; lia).
  destruct (Qcompare_spec y 0) as [H0 | H0 | H0].
  - lra.
  - lra.
  - apply round_positive_ge; assumption.
Qed.

Lemma to_double_below (y : Q) (M t : Z) :
  (0 <= y)%Q -> (2 ^ 52 <= M < 2 ^ 53)%Z -> (-1074 <= t)%Z ->
  (y < (inject_Z M + (1 # 2)) * 2 ^ t)%Q ->
  (Js.to_double y <= inject_Z M * 2 ^ t)%Q.
Proof.
  intros Hy HM Ht Hlt. unfold Js.to_double.
  destruct (Qcompare_spec y 0) as [H0 | H0 | H0].
  - apply scaled_nonneg. lia.
  - lra.
  - apply round_positive_below; assumption.
Qed.

Lemma to_double_nonneg (y : Q) : (0 <= y)%Q -> (0 <= Js.to_double y)%Q.
Proof.
  intro Hy.
  assert (H : (inject_Z 0 * 2 ^ 0 <= Js.to_double y)%Q).
  { apply to_double_ge; [lia | lia |]. exact Hy. }
  exact H.
Qed.

Lemma to_double_le_Z (y : Q) (n : Z) :
  (0 <= y)%Q -> (0 <= n < 2 ^ 53)%Z -> (y <= inject_Z n)%Q ->
  (Js.to_double y <= inject_Z n)%Q.
Proof.
  intros Hy Hn Hle.
  assert (H : (Js.to_double y <= inject_Z n * 2 ^ 0)%Q).
  { apply to_double_le; [exact Hy | exact Hn | lia |].
    change (2 ^ 0)%Q with 1%Q. rewrite Qmult_1_r. exact Hle. }
  change (2 ^ 0)%Q with 1%Q in H. rewrite Qmult_1_r in H. exact H.
Qed.

Lemma to_double_ge_Z (y : Q) (n : Z) :
  (0 <= n < 2 ^ 53)%Z -> (inject_Z n <= y)%Q ->
  (inject_Z n <= Js.to_double y)%Q.
Proof.
  intros Hn Hle.
  assert (H : (inject_Z n * 2 ^ 0 <= Js.to_double y)%Q).
  { apply to_double_ge; [exact Hn | lia |].
    change (2 ^ 0)%Q with 1%Q. rewrite Qmult_1_r. exact Hle. }
  change (2 ^ 0)%Q with 1%Q in H. rewrite Qmult_1_r in H. exact H.
Qed.

Lemma Qred_idempotent (q : Q) : Qred (Qred q) = Qred q.
Proof. apply Qred_complete, Qred_correct. Qed.

Lemma Qred_inject_Z (n : Z) : Qred (inject_Z n) = inject_Z n.
Proof. apply Qcanon.Qred_identity. simpl. apply Z.gcd_1_r. Qed.

(** An integer of at most 53 bits is a binary64. *)
Lemma round_positive_Z (n : Z) :
  (0 < n < 2 ^ 53)%Z -> Js.round_positive (inject_Z n) = inject_Z n.
Proof.
  intro Hn.
  assert (Hq : (0 < inject_Z n)%Q) by (unfold Qlt; simpl; lia).
  assert (Heq : (Js.round_positive (inject_Z n) == inject_Z n)%Q).
  { apply Qle_antisym.
    - assert (H : (Js.round_positive (inject_Z n) <= inject_Z n * 2 ^ 0)%Q).
      { apply round_positive_le; try lia; [exact Hq |].
        change (2 ^ 0)%Q with 1%Q. rewrite Qmult_1_r. apply Qle_refl. }
      change (2 ^ 0)%Q with 1%Q in H. rewrite Qmult_1_r in H. exact H.
    - assert (H : (inject_Z n * 2 ^ 0 <= Js.round_positive (inject_Z n))%Q).
      { apply round_positive_ge; try lia; [exact Hq |].
        change (2 ^ 0)%Q with 1%Q. rewrite Qmult_1_r. apply Qle_refl. }
      change (2 ^ 0)%Q with 1%Q in H. rewrite Qmult_1_r in H. exact H. }
  apply Qred_complete in Heq. rewrite Qred_inject_Z in Heq.
  unfold Js.round_positive in *. cbv zeta in *.
  rewrite Qred_idempotent in Heq. exact Heq.
Qed.

Lemma to_double_Z (z : Z) :
  (Z.abs z <= 2 ^ 53)%Z -> Js.to_double (inject_Z z) = inject_Z z.
Proof.
  intro Hz.
  destruct (Z.eq_dec (Z.abs z) (2 ^ 53)) as [Hedge | Hin].
  - assert (Hcases : z = (2 ^ 53)%Z \/ z = (- 2 ^ 53)%Z) by lia.
    destruct Hcases as [-> | ->]; vm_compute; reflexivity.
  - unfold Js.to_double.
    destruct (Qcompare_spec (inject_Z z) 0) as [H0 | H0 | H0].
    + unfold Qeq in H0. simpl in H0. assert (z = 0%Z) by lia. subst z. reflexivity.
    + assert (Hneg : (z < 0)%Z) by (unfold Qlt in H0; simpl in H0; lia).
      change (- inject_Z z)%Q with (inject_Z (- z)).
      rewrite round_positive_Z by lia.
      unfold inject_Z, Qopp. simpl. rewrite Z.opp_involutive. reflexivity.
    + assert (Hp : (0 < z)%Z) by (unfold Qlt in H0; simpl in H0; lia).
      apply round_positive_Z. lia.
Qed.

(** ** The built-ins on the inputs of the server *)

Example parseInt_of_digits : Js.parseInt "30" = Js.Fin 30.
Proof. vm_compute. reflexivity. Qed.

Example parseInt_of_letters : Js.parseInt "abc" = Js.NaN.
Proof. vm_compute. reflexivity. Qed.

Example parseInt_of_leading_digits : Js.parseInt "12abc" = Js.Fin 12.
Proof. vm_compute. reflexivity. Qed.

(** Beyond 53 bits the integer is rounded; a no-break space is white
    space; a run that leaves the exponent range is an infinity. *)
Example parseInt_of_a_long_run :
  Js.parseInt "9007199254740993" = Js.Fin 9007199254740992.
Proof. vm_compute. reflexivity. Qed.

Example parseInt_after_a_no_break_space :
  Js.parseInt (String (ascii_of_nat 160) "30") = Js.Fin 30.
Proof. vm_compute. reflexivity. Qed.

Example parseInt_of_a_huge_run :
  Js.parseInt (Js.show_Z (10 ^ 400)) = Js.Inf false.
Proof. vm_compute. reflexivity. Qed.

Example parseInt_of_nothing : Js.parseInt EmptyString = Js.NaN.
Proof. vm_compute. reflexivity. Qed.

Example parseFloat_of_a_cost : Js.parseFloat "35.50" = Js.Fin (71 # 2).
Proof. vm_compute. reflexivity. Qed.

Example parseFloat_of_a_tenth :
  Js.parseFloat "0.1" = Js.Fin (3602879701896397 # 36028797018963968).
Proof. vm_compute. reflexivity. Qed.

Example parseFloat_of_a_dot : Js.parseFloat "." = Js.NaN.
Proof. vm_compute. reflexivity. Qed.

(** The pattern on plans of PostgreSQL: the capture is the last character
    of the second figure, the whole figure only when it has one
    character. *)
Example match_cost_two_decimals : Js.match_cost seq_scan_plan = Some "0"%string.
Proof. vm_compute. reflexivity. Qed.

Example match_cost_large_figure :
  Js.match_cost "Sort  (cost=158.51..1234.56 rows=2550 width=244)" = Some "6"%string.
Proof. vm_compute. reflexivity. Qed.

Example match_cost_one_character :
  Js.match_cost "Result  (cost=0.00..5 rows=1 width=4)" = Some "5"%string.
Proof. vm_compute. reflexivity. Qed.

Example match_cost_absent : Js.match_cost "N/A" = None.
Proof. vm_compute. reflexivity. Qed.

(** ** Strings and traces *)

Lemma prefix_app_same (a b s : string) :
  String.prefix (a ++ b)%string (a ++ s)%string = String.prefix b s.
Proof.
  induction a as [| c a IH]; simpl; [reflexivity|].
  destruct (ascii_dec c c) as [_ | Hne]; [exact IH | contradiction Hne; reflexivity].
Qed.

Lemma prefix_app_weaken (a b : string) :
  forall s, String.prefix (a ++ b)%string s = true -> String.prefix a s = true.
Proof.
  induction a as [| c a IH]; intros s H.
  - destruct s; reflexivity.
  - destruct s as [| d s]; simpl in H |- *; [discriminate H|].
    destruct (ascii_dec c d); [apply IH; exact H | discriminate H].
Qed.

Lemma prefix_app_self (a s : string) : String.prefix a (a ++ s)%string = true.
Proof.
  induction a as [| c a IH]; simpl; [destruct s; reflexivity|].
  destruct (ascii_dec c c) as [_ | Hne]; [exact IH | contradiction Hne; reflexivity].
Qed.

Lemma explain_of_explain (text : string) :
  String.prefix "EXPLAIN " text = true ->
  String.prefix "EXPLAIN EXPLAIN " ("EXPLAIN " ++ text)%string = true.
Proof.
  intros H. change "EXPLAIN EXPLAIN "%string with ("EXPLAIN " ++ "EXPLAIN ")%string.
  rewrite prefix_app_same. exact H.
Qed.

Lemma new_events_app (w w' : World) (evs : list Event) :
  trace w' = trace w ++ evs -> new_events w w' = evs.
Proof.
  intros H. unfold new_events. rewrite H.
  rewrite skipn_app, skipn_all, Nat.sub_diag. reflexivity.
Qed.

Lemma console_lines_app (a b : list Event) :
  console_lines (a ++ b) = console_lines a ++ console_lines b.
Proof.
  induction a as [| ev a IH]; simpl; [reflexivity|].
  destruct ev; simpl; rewrite IH; reflexivity.
Qed.

Lemma timeouts_app (a b : list Event) :
  timeouts (a ++ b) = timeouts a ++ timeouts b.
Proof.
  induction a as [| ev a IH]; simpl; [reflexivity|].
  destruct ev; simpl; rewrite IH; reflexivity.
Qed.

Lemma invocations_app (a b : list Event) :
  invocations (a ++ b) = invocations a ++ invocations b.
Proof.
  induction a as [| ev a IH]; simpl; [reflexivity|].
  destruct ev; simpl; rewrite IH; reflexivity.
Qed.

Lemma call_events_project (evs : list Event) :
  Forall call_event evs ->
  console_lines evs = [] /\ timeouts evs = [] /\ invocations evs = [].
Proof.
  induction 1 as [| ev evs Hev _ IH]; simpl; [auto|].
  destruct ev; simpl in Hev; try contradiction; exact IH.
Qed.

Lemma in_invocations (c : Cap) (text : string) (params : Params) (evs : list Event) :
  In (EvInvoke c text params) evs -> In text (invocations evs).
Proof.
  induction evs as [| ev evs IH]; simpl; [tauto|].
  intros [-> | Hin]; [simpl; auto|].
  destruct ev; simpl; auto.
Qed.

Lemma invocations_writes (e : Winston.Entry) : invocations (writes e) = [].
Proof.
  unfold writes. induction (Winston.destinations e); simpl; auto.
Qed.



(** ** The logger *)

(** C5, as the code has it. The logger routes on the level alone. Whatever
    its [transport] field says, an [info] entry is appended to the access,
    db and app files and the console, and an [error] entry to all five
    destinations; so the record the wrapper addresses to [logs/db.log] is
    appended to [logs/access.log] and [logs/app.log] as well. *)
Theorem C5_sink_selection_is_ignored :
  (forall message meta,
      Winston.destinations (Winston.mkEntry Winston.info message meta)
        = [ Winston.AccessLog; Winston.DbLog; Winston.AppLog; Winston.Console ]) /\
  (forall message meta,
      Winston.destinations (Winston.mkEntry Winston.error message meta)
        = [ Winston.AccessLog; Winston.ErrorLog; Winston.DbLog; Winston.AppLog;
            Winston.Console ]) /\
  (forall text params duration cost result,
      let e := executed_query_entry text params duration cost result in
      Winston.selected_sink e = Some Winston.DbLog /\
      writes e = [ EvWrite Winston.AccessLog e; EvWrite Winston.DbLog e;
                   EvWrite Winston.AppLog e; EvWrite Winston.Console e ]).
Proof.
  repeat split.
Qed.

(** ** The wrapper and the slot *)

Lemma emits_call (env : Env) (c : Cap) :
  forall text params, emits call_event (call env c text params).
Proof.
  induction c as [| target IH | req originalQuery IH]; intros text params; simpl.
  - apply emits_query_db. exact I.
  - apply IH.
  - emits_step; [emits_step |].
    emits_step; [| emits_step].
    emits_step.
    + emits_step; [apply IH |].
      emits_step; [emits_step |].
      emits_step; [emits_step |].
      emits_step; [apply IH |].
      repeat emits_step.
    + repeat emits_step.
Qed.

Lemma emits_call_any (env : Env) (c : Cap) (text : string) (params : Params) :
  emits any_event (call env c text params).
Proof. eapply emits_any. apply emits_call. Qed.

Lemma keeps_call (env : Env) (c : Cap) :
  forall text params, keeps_counter (call env c text params).
Proof.
  induction c as [| target IH | req o IH]; intros text params; cbn [call].
  - apply keeps_query_db.
  - apply IH.
  - keeps_step; [keeps_step |].
    keeps_step; [| keeps_step].
    keeps_step; [| repeat keeps_step].
    keeps_step; [apply IH |].
    keeps_step; [keeps_step |].
    keeps_step; [keeps_step |].
    keeps_step; [apply IH |].
    repeat keeps_step.
Qed.

(** Whatever happens inside, a wrapper leaves in the slot the capability
    it captured. *)
Lemma call_wrapper_restores (env : Env) (req : nat) (o : Cap)
    (text : string) (params : Params) (w w' : World) (r : Outcome DbResult) :
  call env (Wrapper req o) text params w = (r, w') -> pool_query w' = o.
Proof.
  cbn [call]. intros H.
  erewrite bind_return in H by reflexivity.
  unfold try_finally in H.
  match type of H with
  | (let (_, _) := ?X in _) = _ => destruct X as [r0 w0]
  end.
  unfold set_query in H. inversion H. reflexivity.
Qed.

(** A capability that is not instrumented is the pg method. *)
Lemma call_not_instrumented (env : Env) (c : Cap) (text : string) (params : Params) :
  instrumented c = false -> call env c text params = query_db env text params.
Proof.
  induction c as [| target IH | req o IH]; simpl; intros H.
  - reflexivity.
  - apply IH. exact H.
  - discriminate H.
Qed.

(** The [EXPLAIN] of an [EXPLAIN] fails through any capability. *)
Lemma nested_explain_fails (env : Env) (c : Cap) :
  rejects_nested_explain env ->
  forall text params w,
    String.prefix "EXPLAIN EXPLAIN " text = true ->
    exists e w', call env c text params w = (Throw e, w').
Proof.
  intros Hpg. induction c as [| target IH | req o IH]; intros text params w Hpre.
  - destruct (Hpg (db_seq w) text params Hpre) as [e He].
    cbn [call]. unfold query_db. rewrite He. eauto.
  - cbn [call]. apply IH. exact Hpre.
  - cbn [call]. erewrite bind_return by reflexivity.
    match goal with
    | |- context [try_finally _ _ ?W] => set (w0 := W)
    end.
    destruct (IH ("EXPLAIN " ++ text)%string params w0) as (e & w1 & Hinner).
    { apply explain_of_explain.
      apply (prefix_app_weaken "EXPLAIN " "EXPLAIN "). exact Hpre. }
    unfold try_finally, try_catch.
    erewrite bind_throw by exact Hinner.
    eexists. eexists. reflexivity.
Qed.

(** An instrumented capability cannot explain: its wrapper explains the
    [EXPLAIN]. *)
Lemma instrumented_explain_fails (env : Env) (c : Cap) :
  rejects_nested_explain env ->
  instrumented c = true ->
  forall text params w,
    String.prefix "EXPLAIN " text = true ->
    exists e w', call env c text params w = (Throw e, w').
Proof.
  intros Hpg. induction c as [| target IH | req o _]; intros Hins text params w Hpre.
  - discriminate Hins.
  - cbn [call]. apply IH; assumption.
  - cbn [call]. erewrite bind_return by reflexivity.
    match goal with
    | |- context [try_finally _ _ ?W] => set (w0 := W)
    end.
    destruct (nested_explain_fails env o Hpg ("EXPLAIN " ++ text)%string params w0
                (explain_of_explain text Hpre)) as (e & w1 & Hinner).
    unfold try_finally, try_catch.
    erewrite bind_throw by exact Hinner.
    eexists. eexists. reflexivity.
Qed.

(** A wrapper built over an instrumented capability fails on every
    statement. *)
Lemma wrapper_over_wrapper_fails (env : Env) (req : nat) (o : Cap) :
  rejects_nested_explain env ->
  instrumented o = true ->
  forall text params w,
    exists e w', call env (Wrapper req o) text params w = (Throw e, w').
Proof.
  intros Hpg Hins text params w.
  cbn [call]. erewrite bind_return by reflexivity.
  match goal with
  | |- context [try_finally _ _ ?W] => set (w0 := W)
  end.
  destruct (instrumented_explain_fails env o Hpg Hins ("EXPLAIN " ++ text)%string
              params w0 (prefix_app_self "EXPLAIN " text)) as (e & w1 & Hinner).
  unfold try_finally, try_catch.
  erewrite bind_throw by exact Hinner.
  eexists. eexists. reflexivity.
Qed.

(** Through any capability, the first thing a call does to the outside is
    to send the database a statement with the caller's parameters. *)
Lemma call_first_event (env : Env) (c : Cap) :
  forall text params w,
  exists r w' text' rest,
    call env c text params w = (r, w') /\
    trace w' = trace w ++ EvDb text' params :: rest.
Proof.
  induction c as [| target IH | req o IH]; intros text params w.
  - cbn [call]. unfold query_db.
    destruct (db env (db_seq w) text params);
      eexists; eexists; exists text; exists (@nil Event); split; reflexivity.
  - cbn [call]. apply IH.
  - destruct (call env (Wrapper req o) text params w) as [r w'] eqn:Hcall.
    exists r, w'. cbn [call] in Hcall.
    erewrite bind_return in Hcall by reflexivity.
    match type of Hcall with
    | try_finally _ _ ?W = _ => set (w0 := W) in *
    end.
    destruct (IH ("EXPLAIN " ++ text)%string params w0)
      as (r1 & w1 & text' & rest1 & Hinner & Ht1).
    exists text'.
    unfold try_finally in Hcall.
    erewrite try_catch_bind in Hcall by exact Hinner.
    match type of Hcall with
    | (let (_, _) := ?X in _) = _ => destruct X as [r2 w2] eqn:Hrest
    end.
    assert (Hgrow : exists evs, trace w2 = trace w1 ++ evs).
    { destruct r1 as [a | e].
      - match type of Hrest with
        | ?m w1 = _ => assert (Hm : emits any_event m)
        end.
        { emits_step.
          - emits_step; [emits_step |].
            emits_step; [emits_step |].
            emits_step; [apply emits_call_any |].
            repeat emits_step; exact I.
          - repeat emits_step; exact I. }
        destruct (Hm _ _ _ Hrest) as [_ [evs [Hevs _]]]. eauto.
      - match type of Hrest with
        | ?m w1 = _ => assert (Hm : emits any_event m)
        end.
        { repeat emits_step; exact I. }
        destruct (Hm _ _ _ Hrest) as [_ [evs [Hevs _]]]. eauto. }
    destruct Hgrow as [evs Hevs].
    unfold set_query in Hcall. inversion Hcall; subst r w'; clear Hcall.
    exists (rest1 ++ evs). split; [reflexivity|].
    cbn [trace]. rewrite Hevs, Ht1. subst w0. cbn [trace].
    rewrite <- app_assoc. reflexivity.
Qed.

(** On a capability that is not instrumented, a successful wrapped call
    leaves, in this order: the [EXPLAIN], the statement itself, the
    records of the db entry, and the [queryComplexity] assignment. *)
Lemma instrumented_call_order (env : Env) (req : nat) (o : Cap)
    (text : string) (params : Params) (w w' : World) (result : DbResult) :
  instrumented o = false ->
  call env (Wrapper req o) text params w = (Return result, w') ->
  exists cost duration,
    trace w'
      = trace w
        ++ EvDb ("EXPLAIN " ++ text)%string params
        :: EvDb text params
        :: writes (executed_query_entry text params duration cost result)
        ++ [ EvRecord req text cost duration ] /\
    pool_query w' = o.
Proof.
  intros Hclean Hcall. cbn [call] in Hcall.
  erewrite bind_return in Hcall by reflexivity.
  unfold try_finally, try_catch in Hcall.
  rewrite !(call_not_instrumented env o _ _ Hclean) in Hcall.
  unfold bind at 1 in Hcall. unfold query_db at 1 in Hcall.
  cbn [db_seq trace pool_query errors_total rnd_seq clk_seq faker_seq] in Hcall.
  destruct (db env (db_seq w) ("EXPLAIN " ++ text)%string params) as [er | e];
    [| unfold logger_log, emit_all, throw, bind, set_query in Hcall;
       cbn in Hcall; discriminate Hcall].
  unfold bind at 1 in Hcall. unfold query_plan in Hcall.
  destruct (rows er) as [| row rest];
    [unfold logger_log, emit_all, throw, bind, set_query in Hcall;
     cbn in Hcall; discriminate Hcall |].
  unfold ret at 1 in Hcall.
  unfold bind at 1 in Hcall.
  match type of Hcall with
  | context [plan_match ?p] => destruct (plan_match p) as [[cm | e] wp] eqn:Hplan
  end.
  - match type of Hplan with
    | plan_match ?p ?W = _ =>
        assert (Hwp : wp = W)
          by (destruct p; cbn in Hplan; inversion Hplan; reflexivity)
    end.
    subst wp.
    unfold bind at 1 in Hcall. unfold query_db at 1 in Hcall.
    cbn [db_seq trace pool_query errors_total rnd_seq clk_seq faker_seq] in Hcall.
    destruct (db env (N.succ (db_seq w)) text params) as [res | e];
      [| unfold logger_log, emit_all, throw, bind, set_query in Hcall;
         cbn in Hcall; discriminate Hcall].
    cbn in Hcall. inversion Hcall; subst result w'; clear Hcall.
    eexists. eexists. split; [|reflexivity].
    cbn [trace]. rewrite <- !app_assoc. cbn [app]. reflexivity.
  - unfold logger_log, emit_all, throw, bind, set_query in Hcall.
    cbn in Hcall. discriminate Hcall.
Qed.

(** C4, as the code has it. One instrumented call of [SELECT * FROM users]
    whose plan reads [cost=0.00..35.50]: the [EXPLAIN] goes out first,
    then the statement, then the log record. The pattern's two dots are
    not escaped, so the first [[\d.]+] runs on into the second figure and
    the group captures its last character only: the logged [query_cost] is
    0, not the maximum cost figure 35.5. *)
Theorem C4_logged_cost_is_not_the_maximum_cost_figure :
  let env := sample_env db_up (1 # 2) in
  exists result w',
    call env (Wrapper 1 (Bound Native)) "SELECT * FROM users" None initial_world
      = (Return result, w') /\
    trace w' = [ EvDb "EXPLAIN SELECT * FROM users" None;
                 EvDb "SELECT * FROM users" None ]
               ++ writes users_query_entry
               ++ [ EvRecord 1 "SELECT * FROM users" (Js.Fin 0) 7 ] /\
    Js.match_cost seq_scan_plan = Some "0"%string /\
    Winston.metric "query_cost" users_query_entry = Some (Js.VNum (Js.Fin 0)) /\
    Js.parseFloat "35.50" = Js.Fin (71 # 2).
Proof.
  intros env. eexists. eexists.
  split; [vm_compute; reflexivity|].
  repeat split.
Qed.

(** C6.  When the [EXPLAIN] issued by the wrapper fails, or the [EXPLAIN]
    succeeds and the statement itself fails, the wrapper logs an [error]
    entry tagged [QUERY_ERROR] - the error log is among its destinations -
    as the last thing it adds to the trace, restores the slot, and
    rethrows the very error it caught. *)
Theorem C6_query_failure_is_logged_and_rethrown
    (env : Env) (req : nat) (originalQuery : Cap) (text : string) (params : Params)
    (w w1 : World) (err : Js.Exn) :
  estimation_fails env originalQuery text params (snd (Date_now env w)) err w1 \/
  execution_fails env originalQuery text params (snd (Date_now env w)) err w1 ->
  exists w',
    call env (Wrapper req originalQuery) text params w = (Throw err, w') /\
    trace w' = trace w1 ++ writes (query_error_entry text err) /\
    In (EvWrite Winston.ErrorLog (query_error_entry text err)) (trace w') /\
    Winston.metric "error_code" (query_error_entry text err)
      = Some (Js.VStr "QUERY_ERROR") /\
    pool_query w' = originalQuery.
Proof.
  unfold estimation_fails, execution_fails.
  intros [H | (er & wa & plan & cm & H1 & H2 & H3 & H4)].
  - eexists. split.
    + cbn [call]. unfold bind at 1. unfold Date_now at 1.
      unfold try_finally, try_catch. unfold bind at 1.
      unfold Date_now in H. cbn [snd] in H. rewrite H.
      reflexivity.
    + simpl. repeat split.
      apply in_or_app. right. simpl. auto.
  - eexists. split.
    + cbn [call]. unfold bind at 1. unfold Date_now at 1.
      unfold try_finally, try_catch. unfold bind at 1.
      unfold Date_now in H1. cbn [snd] in H1. rewrite H1.
      unfold bind at 1. rewrite H2. unfold bind at 1. rewrite H3.
      unfold bind at 1. rewrite H4.
      reflexivity.
    + simpl. repeat split.
      apply in_or_app. right. simpl. auto.
Qed.

(** C6 with the database down: the [EXPLAIN] is refused. *)
Lemma C6_witness :
  exists w',
    call (sample_env db_down (1 # 2)) (Wrapper 1 (Bound Native))
         "SELECT * FROM users" None initial_world
      = (Throw (Js.mkExn Js.Error "connect ECONNREFUSED"), w') /\
    trace w' = [ EvDb "EXPLAIN SELECT * FROM users" None ]
               ++ writes (query_error_entry "SELECT * FROM users"
                            (Js.mkExn Js.Error "connect ECONNREFUSED")) /\
    pool_query w' = Bound Native.
Proof.
  destruct (C6_query_failure_is_logged_and_rethrown
              (sample_env db_down (1 # 2)) 1 (Bound Native)
              "SELECT * FROM users" None initial_world
              (mkWorld Native 0 [ EvDb "EXPLAIN SELECT * FROM users" None ] 1 0 1 0)
              (Js.mkExn Js.Error "connect ECONNREFUSED"))
    as (w' & Hcall & Htrace & _ & _ & Hslot).
  - left. reflexivity.
  - exists w'. repeat split; assumption.
Defined.

(** The other way of failing: the [EXPLAIN] succeeds and the statement is
    refused. *)
Example statement_failure_is_logged_and_rethrown :
  let run := call (sample_env db_explain_only (1 # 2)) (Wrapper 1 (Bound Native))
                  "SELECT * FROM users" None initial_world in
  let err := Js.mkExn Js.Error "permission denied for table users" in
  fst run = Throw err /\
  trace (snd run)
    = [ EvDb "EXPLAIN SELECT * FROM users" None; EvDb "SELECT * FROM users" None ]
      ++ writes (query_error_entry "SELECT * FROM users" err) /\
  pool_query (snd run) = Bound Native.
Proof. vm_compute. repeat split. Qed.

(** One call site [pool.query(text, params)]: the invocation is recorded,
    then the capability found in the slot runs. *)
Lemma pool_query_call_events (env : Env) (text : string) (params : Params) (w : World) :
  exists r w' evs,
    pool_query_call env text params w = (r, w') /\
    trace w' = trace w ++ EvInvoke (pool_query w) text params :: evs /\
    Forall call_event evs.
Proof.
  unfold pool_query_call.
  erewrite bind_return by reflexivity.
  erewrite bind_return by reflexivity.
  match goal with |- context [call env ?c text params ?W] => set (w0 := W) end.
  destruct (call env (pool_query w) text params w0) as [r w'] eqn:Hcall.
  destruct (emits_call env _ _ _ _ _ _ Hcall) as [_ [evs [Htrace Hevs]]].
  exists r, w', evs. split; [reflexivity|]. split; [|exact Hevs].
  rewrite Htrace. subst w0. cbn [trace]. rewrite <- app_assoc. reflexivity.
Qed.


Lemma keeps_pool_query_call (env : Env) (text : string) (params : Params) :
  keeps_counter (pool_query_call env text params).
Proof.
  unfold pool_query_call.
  keeps_step; [intros w r w' E; inversion E; reflexivity |].
  keeps_step; [keeps_step | apply keeps_call].
Qed.

(** ** The route handlers *)

(** The loop of [/api/compute] draws [n] numbers and touches nothing else. *)
Lemma heavy_computation_spec (env : Env) (n : N) (w : World) :
  exists result,
    heavy_computation env n w
      = (Return result,
         mkWorld (pool_query w) (errors_total w) (trace w)
                 (db_seq w) (rnd_seq w + n) (clk_seq w) (faker_seq w)).
Proof.
  unfold heavy_computation.
  induction n as [| n IH] using N.peano_ind.
  - exists 0%Q. simpl. unfold ret. rewrite N.add_0_r. destruct w; reflexivity.
  - destruct IH as [q IH]. rewrite N.iter_succ.
    exists (Js.to_double (q + random env (rnd_seq w + n))).
    erewrite bind_return by exact IH.
    unfold bind, Math_random, ret. simpl.
    rewrite N.add_succ_r. reflexivity.
Qed.

Lemma emits_heavy_computation (P : Event -> Prop) (env : Env) (n : N) :
  emits P (heavy_computation env n).
Proof.
  intros w r w' E.
  destruct (heavy_computation_spec env n w) as [q Hq].
  rewrite Hq in E. inversion E; subst. simpl. split; [lia|].
  exists []. rewrite app_nil_r. auto.
Qed.

(** The failure path of [/api/compute]: the [catch] block counts the error
    and then throws itself. *)
Lemma api_compute_failure (env : Env) (rq : Request) (w : World) :
  Qltb (random env (rnd_seq w + 1000000)) (8 # 10) = true ->
  api_compute env rq w
    = (Throw start_is_not_defined,
       mkWorld (pool_query w) (S (errors_total w))
               (trace w ++ writes start_computation_entry)
               (db_seq w) (N.succ (rnd_seq w + 1000000))
               (N.succ (N.succ (N.succ (clk_seq w)))) (faker_seq w)).
Proof.
  intros Hfail. unfold api_compute.
  erewrite try_catch_throw.
  2:{ erewrite bind_return by reflexivity.
      erewrite bind_return by reflexivity.
      match goal with
      | |- bind (heavy_computation env ?n) _ ?w0 = _ =>
          destruct (heavy_computation_spec env n w0) as [result Hloop]
      end.
      erewrite bind_return by exact Hloop.
      erewrite bind_return by reflexivity.
      erewrite bind_return by reflexivity.
      cbn [rnd_seq]. rewrite Hfail. reflexivity. }
  reflexivity.
Qed.

Lemma generateOrders_spec (env : Env) (count : nat) :
  forall w,
  exists orders w',
    generateOrders env count w = (Return orders, w') /\
    trace w' = trace w /\
    pool_query w' = pool_query w /\
    errors_total w' = errors_total w /\
    length orders = count.
Proof.
  induction count as [| count IH]; intros w; cbn [generateOrders].
  - exists [], w. repeat split.
  - do 3 (erewrite bind_return by reflexivity).
    match goal with
    | |- context [bind (generateOrders env count) _ ?W] =>
        destruct (IH W) as (orders & w' & Hgen & Htrace & Hslot & Herr & Hlen)
    end.
    erewrite bind_return by exact Hgen.
    eexists. exists w'. split; [reflexivity|].
    repeat split; try assumption. simpl. rewrite Hlen. reflexivity.
Qed.

Lemma emits_generateOrders (P : Event -> Prop) (env : Env) (count : nat) :
  emits P (generateOrders env count).
Proof.
  induction count as [| count IH]; simpl.
  - apply emits_ret.
  - emits_step; [apply emits_faker_datatype_number |].
    emits_step; [apply emits_faker_commerce_productName |].
    emits_step; [apply emits_faker_datatype_number |].
    emits_step; [apply IH | apply emits_ret].
Qed.

Lemma keeps_generateOrders (env : Env) (count : nat) :
  keeps_counter (generateOrders env count).
Proof.
  intros w r w' E.
  destruct (generateOrders_spec env count w) as (orders & w1 & Hgen & _ & _ & Herr & _).
  rewrite Hgen in E. inversion E; subst. exact Herr.
Qed.


Lemma keeps_insert_orders (env : Env) (orders : list Order) :
  forall insertedRows, keeps_counter (insert_orders env orders insertedRows).
Proof.
  induction orders as [| order orders IH]; intros insertedRows; cbn [insert_orders].
  - keeps_step.
  - keeps_step; [apply keeps_pool_query_call | apply IH].
Qed.

(** The insert loop on a slot that is not instrumented: [k] statements go
    straight to the database - all of them, or those up to the first that
    fails - and the slot is left as it was. *)
Lemma insert_orders_not_instrumented (env : Env) (orders : list Order) :
  forall insertedRows w,
    instrumented (pool_query w) = false ->
    exists r w' k,
      insert_orders env orders insertedRows w = (r, w') /\
      trace w' = trace w ++ flat_map (plain_query (pool_query w)) (firstn k orders) /\
      pool_query w' = pool_query w /\
      errors_total w' = errors_total w /\
      (k <= length orders)%nat.
Proof.
  induction orders as [| order orders IH]; intros insertedRows w Hclean;
    cbn [insert_orders].
  - exists (Return insertedRows), w, 0%nat. simpl. rewrite app_nil_r.
    repeat split. lia.
  - assert (Hq : pool_query_call env insert_order (order_params order) w
                 = query_db env insert_order (order_params order)
                     (mkWorld (pool_query w) (errors_total w)
                        (trace w ++ [EvInvoke (pool_query w) insert_order
                                       (order_params order)])
                        (db_seq w) (rnd_seq w) (clk_seq w) (faker_seq w))).
    { unfold pool_query_call.
      do 2 (erewrite bind_return by reflexivity).
      rewrite (call_not_instrumented env _ _ _ Hclean). reflexivity. }
    unfold query_db in Hq.
    cbn [trace db_seq pool_query errors_total rnd_seq clk_seq faker_seq] in Hq.
    destruct (db env (db_seq w) insert_order (order_params order)) as [res | e].
    + erewrite bind_return by exact Hq.
      match goal with
      | |- context [insert_orders env orders ?n ?W] =>
          destruct (IH n W Hclean) as (r & w' & k & Hloop & Htrace & Hslot & Herr & Hk)
      end.
      exists r, w', (S k). split; [exact Hloop|].
      split.
      { rewrite Htrace. cbn [trace pool_query firstn flat_map plain_query app].
        rewrite <- !app_assoc. reflexivity. }
      split; [exact Hslot|]. split; [exact Herr|]. simpl. lia.
    + erewrite bind_throw by exact Hq.
      eexists. eexists. exists 1%nat. split; [reflexivity|].
      cbn [trace pool_query errors_total firstn flat_map plain_query app length].
      rewrite <- !app_assoc. repeat split. lia.
Qed.

(** [/api/orders/generate] behind a freshly installed wrapper: the first
    insert runs through the wrapper; the [k] inserts that follow find the
    captured capability in the slot and go straight to the database. *)
Lemma api_orders_generate_spec (env : Env) (rq : Request) (w : World) (req : nat) (o : Cap) :
  pool_query w = Wrapper req o ->
  instrumented o = false \/ rejects_nested_explain env ->
  exists response w' order orders first_call k tail,
    api_orders_generate env rq w = (Return response, w') /\
    trace w'
      = trace w
        ++ EvInvoke (Wrapper req o) insert_order (order_params order)
        :: first_call
        ++ flat_map (plain_query o) (firstn k orders)
        ++ tail /\
    length (order :: orders) = 10%nat /\
    Forall call_event first_call /\
    (k <= length orders)%nat /\
    ((0 < k)%nat -> instrumented o = false) /\
    existsb reaches_database tail = false /\
    pool_query w' = o.
Proof.
  intros Hslot Hcase.
  destruct (generateOrders_spec env 10 (snd (Date_now env w)))
    as (orders10 & wb & Hgen & Htb & Hsb & _ & Hlen).
  destruct orders10 as [| order orders]; [discriminate Hlen|].
  cbn [Date_now snd trace pool_query] in Htb, Hsb.
  destruct (pool_query_call_events env insert_order (order_params order) wb)
    as (r1 & w5 & evs1 & Hq & Ht5 & Hevs1).
  rewrite Hsb, Hslot in Ht5.
  assert (Hs5 : pool_query w5 = o).
  { unfold pool_query_call in Hq.
    do 2 (erewrite bind_return in Hq by reflexivity).
    rewrite Hsb, Hslot in Hq.
    exact (call_wrapper_restores _ _ _ _ _ _ _ _ Hq). }
  unfold api_orders_generate.
  destruct r1 as [res | e].
  - assert (Hclean : instrumented o = false).
    { destruct Hcase as [Hclean | Hpg]; [exact Hclean|].
      destruct (instrumented o) eqn:Hins; [|reflexivity].
      unfold pool_query_call in Hq.
      do 2 (erewrite bind_return in Hq by reflexivity).
      rewrite Hsb, Hslot in Hq.
      match type of Hq with
      | call env _ ?t ?p ?W = _ =>
          destruct (wrapper_over_wrapper_fails env req o Hpg Hins t p W)
            as (e & w0 & Hfail)
      end.
      rewrite Hfail in Hq. discriminate Hq. }
    destruct (insert_orders_not_instrumented env orders (0 + 1)%Z w5)
      as (r2 & w6 & k & Hloop & Ht6 & Hs6 & _ & Hk).
    { rewrite Hs5. exact Hclean. }
    rewrite Hs5 in Ht6, Hs6.
    destruct r2 as [n | e].
    + erewrite try_catch_return.
      2:{ erewrite bind_return by reflexivity.
          erewrite bind_return by exact Hgen.
          erewrite bind_return.
          2:{ cbn [insert_orders]. erewrite bind_return by exact Hq. exact Hloop. }
          erewrite bind_return by reflexivity.
          erewrite bind_return by reflexivity.
          reflexivity. }
      eexists. eexists. exists order, orders, evs1, k. eexists.
      split; [reflexivity|].
      split.
      { cbn [trace]. rewrite Ht6, Ht5, Htb.
        rewrite <- !app_assoc. cbn [app]. rewrite <- ?app_assoc. reflexivity. }
      repeat split; auto.
    + erewrite try_catch_throw.
      2:{ erewrite bind_return by reflexivity.
          erewrite bind_return by exact Hgen.
          erewrite bind_throw; [reflexivity|].
          cbn [insert_orders]. erewrite bind_return by exact Hq. exact Hloop. }
      do 2 (erewrite bind_return by reflexivity).
      eexists. eexists. exists order, orders, evs1, k. eexists.
      split; [reflexivity|].
      split.
      { cbn [trace]. rewrite Ht6, Ht5, Htb.
        rewrite <- !app_assoc. cbn [app]. rewrite <- ?app_assoc. reflexivity. }
      repeat split; auto.
  - erewrite try_catch_throw.
    2:{ erewrite bind_return by reflexivity.
        erewrite bind_return by exact Hgen.
        erewrite bind_throw; [reflexivity|].
        cbn [insert_orders]. erewrite bind_throw by exact Hq. reflexivity. }
    do 2 (erewrite bind_return by reflexivity).
    eexists. eexists. exists order, orders, evs1, 0%nat. eexists.
    split; [reflexivity|].
    split.
    { cbn [trace firstn flat_map app]. rewrite Ht5, Htb.
      rewrite <- !app_assoc. cbn [app]. reflexivity. }
    repeat split; auto; try lia.
Qed.

(** [/api/users/filter] with a non-empty [age]: validation passes and the
    statement is issued with [parseInt(age)] as its parameter. *)
Lemma api_users_filter_queries (env : Env) (rq : Request) (w : World) (s : string) :
  age rq = Some s ->
  s <> EmptyString ->
  exists response w' text' rest,
    api_users_filter env rq w = (Return response, w') /\
    trace w'
      = trace w
        ++ EvInvoke (pool_query w) select_filter (Some [ Js.VNum (Js.parseInt s) ])
        :: EvDb text' (Some [ Js.VNum (Js.parseInt s) ])
        :: rest.
Proof.
  intros Hage Hne. unfold api_users_filter. rewrite Hage. cbv zeta.
  assert (Hpresent : age_missing (Some s) = false).
  { simpl. apply String.eqb_neq in Hne. rewrite Hne. reflexivity. }
  rewrite Hpresent. cbn [parseInt_age age_text].
  set (params := Some [ Js.VNum (Js.parseInt s) ]).
  set (wa := snd (Date_now env w)).
  set (wi := mkWorld (pool_query wa) (errors_total wa)
               (trace wa ++ [EvInvoke (pool_query wa) select_filter params])
               (db_seq wa) (rnd_seq wa) (clk_seq wa) (faker_seq wa)).
  destruct (call_first_event env (pool_query wa) select_filter params wi)
    as (r1 & w1 & text' & rest1 & Hcall & Ht1).
  assert (Hq : pool_query_call env select_filter params wa = (r1, w1)).
  { unfold pool_query_call. do 2 (erewrite bind_return by reflexivity). exact Hcall. }
  assert (Hshape : trace w1
                   = trace w ++ EvInvoke (pool_query w) select_filter params
                     :: EvDb text' params :: rest1).
  { rewrite Ht1. subst wi wa. cbn [trace pool_query Date_now snd].
    rewrite <- app_assoc. reflexivity. }
  destruct r1 as [res | e].
  - destruct (Qltb (random env (rnd_seq w1)) (3 # 10)) eqn:Hdraw.
    + erewrite try_catch_throw.
      2:{ erewrite bind_return by reflexivity.
          erewrite bind_return by exact Hq.
          do 2 (erewrite bind_return by reflexivity).
          cbn [rnd_seq]. rewrite Hdraw. reflexivity. }
      do 2 (erewrite bind_return by reflexivity).
      eexists. eexists. exists text'. eexists.
      split; [reflexivity|].
      cbn [trace]. rewrite Hshape. rewrite <- !app_assoc. cbn [app]. reflexivity.
    + erewrite try_catch_return.
      2:{ erewrite bind_return by reflexivity.
          erewrite bind_return by exact Hq.
          do 2 (erewrite bind_return by reflexivity).
          cbn [rnd_seq]. rewrite Hdraw.
          erewrite bind_return by reflexivity. reflexivity. }
      eexists. eexists. exists text'. eexists.
      split; [reflexivity|].
      cbn [trace]. rewrite Hshape. rewrite <- !app_assoc. cbn [app]. reflexivity.
  - erewrite try_catch_throw.
    2:{ erewrite bind_return by reflexivity.
        erewrite bind_throw by exact Hq. reflexivity. }
    do 2 (erewrite bind_return by reflexivity).
    eexists. eexists. exists text'. eexists.
    split; [reflexivity|].
    cbn [trace]. rewrite Hshape. rewrite <- !app_assoc. cbn [app]. reflexivity.
Qed.

(** The shape shared by the three asynchronous handlers: whatever the
    [try] block throws is caught, counted once and answered by the [catch]
    block. *)
Lemma handler_boundary (work : M Response) (on_error : Js.Exn -> M Response) (w : World) :
  keeps_counter work ->
  returns (json_with_status 200) work ->
  (forall e w1, exists response w2,
      on_error e w1 = (Return response, w2) /\
      json_with_status 500 response /\
      errors_total w2 = S (errors_total w1)) ->
  exists response w',
    try_catch work on_error w = (Return response, w') /\
    ((json_with_status 200 response /\ errors_total w' = errors_total w) \/
     (json_with_status 500 response /\ errors_total w' = S (errors_total w))).
Proof.
  intros Hkeep Hret Herr. unfold try_catch.
  destruct (work w) as [[response | e] w1] eqn:Hwork.
  - exists response, w1. split; [reflexivity|]. left.
    split; [exact (Hret _ _ _ Hwork) | exact (Hkeep _ _ _ Hwork)].
  - destruct (Herr e w1) as (response & w2 & Hon & Hjson & Hcount).
    exists response, w2. split; [exact Hon|]. right.
    split; [exact Hjson|]. rewrite Hcount, (Hkeep _ _ _ Hwork). reflexivity.
Qed.

(** The three asynchronous handlers always answer with JSON: 200, or 500
    after counting the error. *)
Lemma async_handlers_catch_failures (env : Env) (rq : Request) (w : World) :
  route rq = ApiUsers \/ route rq = ApiOrdersGenerate \/ route rq = ApiUsersFilter ->
  exists response w',
    dispatch env rq w = (Return response, w') /\
    ((json_with_status 200 response /\ errors_total w' = errors_total w) \/
     (json_with_status 500 response /\ errors_total w' = S (errors_total w))).
Proof.
  intros [Hroute | [Hroute | Hroute]]; unfold dispatch; rewrite Hroute.
  - unfold api_users. apply handler_boundary.
    + keeps_step; [keeps_step |].
      keeps_step; [apply keeps_pool_query_call |].
      repeat (cbv zeta; keeps_step).
    + repeat (apply returns_bind; intro). apply returns_ret. split; reflexivity.
    + intros e w1. eexists. eexists. split; [cbn; reflexivity|].
      split; [split; reflexivity | reflexivity].
  - unfold api_orders_generate. apply handler_boundary.
    + keeps_step; [keeps_step |].
      keeps_step; [apply keeps_generateOrders |].
      keeps_step; [apply keeps_insert_orders |].
      repeat (cbv zeta; keeps_step).
    + repeat (apply returns_bind; intro). apply returns_ret. split; reflexivity.
    + intros e w1. eexists. eexists. split; [cbn; reflexivity|].
      split; [split; reflexivity | reflexivity].
  - unfold api_users_filter. cbv zeta. apply handler_boundary.
    + keeps_step; [keeps_step |].
      keeps_step; [keeps_step |].
      keeps_step; [apply keeps_pool_query_call |].
      repeat (cbv zeta; keeps_step).
    + destruct (age_missing (age rq)); [apply returns_throw |].
      do 4 (apply returns_bind; intro). cbv zeta.
      match goal with |- returns _ (if ?b then _ else _) => destruct b end;
        [apply returns_throw |].
      apply returns_bind; intro. apply returns_ret. split; reflexivity.
    + intros e w1. eexists. eexists. split; [cbn; reflexivity|].
      split; [split; reflexivity | reflexivity].
Qed.

(** Every request is answered: the asynchronous handlers answer
    themselves, and what [/api/compute] throws is answered by Express. *)
Lemma dispatch_always_responds (env : Env) (rq : Request) (w : World) :
  exists response w', dispatch env rq w = (Return response, w').
Proof.
  destruct (route rq) eqn:Hroute.
  - destruct (async_handlers_catch_failures env rq w) as (r & w' & H & _); eauto.
  - destruct (async_handlers_catch_failures env rq w) as (r & w' & H & _); eauto.
  - destruct (async_handlers_catch_failures env rq w) as (r & w' & H & _); eauto.
  - unfold dispatch. rewrite Hroute.
    destruct (api_compute env rq w) as [[r | e] w1] eqn:Hcompute.
    + erewrite try_catch_return by exact Hcompute. eauto.
    + erewrite try_catch_throw by exact Hcompute. eexists. eexists. reflexivity.
  - unfold dispatch. rewrite Hroute. eexists. eexists. reflexivity.
  - unfold dispatch. rewrite Hroute. eexists. eexists. reflexivity.
Qed.


(** ** Requests through the middleware chain *)

(** A draw on the grid of [Math.random()] is at most [1 - 2 ^ -53]. *)
Lemma draw_bounds (r : Q) (m : Z) :
  (0 <= m < 2 ^ 53)%Z -> (r == inject_Z m / inject_Z (2 ^ 53))%Q ->
  (0 <= r)%Q /\ (r <= 1 - (1 # 9007199254740992))%Q.
Proof.
  intros Hm Hr.
  assert (Hq : (inject_Z m / inject_Z (2 ^ 53) == m # 9007199254740992)%Q).
  { symmetry. apply (Qmake_Qdiv m 9007199254740992). }
  rewrite Hr, Hq. unfold Qle. simpl. lia.
Qed.

(** The two thresholds of the server are written [0.3] and [0.8]: the
    binary64 nearest to 3/10 and to 8/10.  On a draw of [Math.random()]
    the comparison with the literal decides as the comparison with the
    fraction. *)
Lemma thresholds_on_draws (m : Z) :
  let r := (inject_Z m / inject_Z (2 ^ 53))%Q in
  Qltb r (Js.to_double (3 # 10)) = Qltb r (3 # 10) /\
  Qltb r (Js.to_double (8 # 10)) = Qltb r (8 # 10).
Proof.
  intros r.
  assert (Hr : (r == m # 9007199254740992)%Q).
  { symmetry. apply (Qmake_Qdiv m 9007199254740992). }
  replace (Js.to_double (3 # 10)) with (5404319552844595 # 18014398509481984)%Q
    by (vm_compute; reflexivity).
  replace (Js.to_double (8 # 10)) with (3602879701896397 # 4503599627370496)%Q
    by (vm_compute; reflexivity).
  assert (Hlt : forall q : Q, Qltb r q = Qltb (m # 9007199254740992) q).
  { intros q. unfold Qltb. f_equal.
    destruct (Qle_bool q r) eqn:E1, (Qle_bool q (m # 9007199254740992)) eqn:E2;
      try reflexivity.
    - apply Qle_bool_iff in E1. rewrite Hr in E1. apply Qle_bool_iff in E1. congruence.
    - apply Qle_bool_iff in E2. rewrite <- Hr in E2. apply Qle_bool_iff in E2. congruence. }
  rewrite !Hlt. unfold Qltb, Qle_bool. cbn [Qnum Qden].
  split; f_equal.
  - destruct (Z.leb_spec (5404319552844595 * 9007199254740992) (m * 18014398509481984));
      destruct (Z.leb_spec (3 * 9007199254740992) (m * 10)); try reflexivity; lia.
  - destruct (Z.leb_spec (3602879701896397 * 9007199254740992) (m * 4503599627370496));
      destruct (Z.leb_spec (8 * 9007199254740992) (m * 10)); try reflexivity; lia.
Qed.

(** Rounding moves the integer part of a small number by at most one. *)
Lemma floor_of_rounded (y : Q) :
  (0 <= y)%Q -> (y <= 1000000)%Q ->
  (Qfloor y <= Qfloor (Js.to_double y) <= Qfloor y + 1)%Z.
Proof.
  intros H0 H1.
  assert (Hf0 : (0 <= Qfloor y)%Z).
  { change 0%Z with (Qfloor 0). apply Qfloor_resp_le. exact H0. }
  assert (Hf1 : (Qfloor y <= 1000000)%Z).
  { change 1000000%Z with (Qfloor 1000000). apply Qfloor_resp_le. exact H1. }
  split.
  - rewrite <- (Qfloor_Z (Qfloor y)) at 1. apply Qfloor_resp_le.
    apply to_double_ge_Z; [lia | apply Qfloor_le].
  - rewrite <- (Qfloor_Z (Qfloor y + 1)). apply Qfloor_resp_le.
    apply to_double_le_Z; [exact H0 | lia | apply Qlt_le_weak, Qlt_floor].
Qed.

(** The product of a draw by [c] stays below [c] when rounded, for the two
    factors of the server: the binary64 just below [c] is nearer to it
    than [c] is. *)
Lemma rounded_product_below_91 (r : Q) :
  (0 <= r)%Q -> (r <= 1 - (1 # 9007199254740992))%Q ->
  (0 <= Qfloor (Js.to_double (r * 91)) < 91)%Z.
Proof.
  intros H0 H1. split.
  - change 0%Z with (Qfloor 0). apply Qfloor_resp_le, to_double_nonneg.
    apply Qmult_le_0_compat; [exact H0 | discriminate].
  - assert (H : (Js.to_double (r * 91)
                 <= inject_Z (91 * 2 ^ 46 - 1) * 2 ^ (-46))%Q).
    { apply to_double_below.
      - apply Qmult_le_0_compat; [exact H0 | discriminate].
      - split; [vm_compute; discriminate | reflexivity].
      - lia.
      - replace (2 ^ (-46))%Q with (1 # 70368744177664)%Q by reflexivity.
        replace (inject_Z (91 * 2 ^ 46 - 1)) with (6403555720167423 # 1)%Q by reflexivity.
        lra. }
    replace (2 ^ (-46))%Q with (1 # 70368744177664)%Q in H by reflexivity.
    replace (inject_Z (91 * 2 ^ 46 - 1)) with (6403555720167423 # 1)%Q in H by reflexivity.
    rewrite Zlt_Qlt. eapply Qle_lt_trans; [apply Qfloor_le |].
    change (inject_Z 91) with 91%Q. lra.
Qed.

Lemma rounded_product_below_43 (r : Q) :
  (0 <= r)%Q -> (r <= 1 - (1 # 9007199254740992))%Q ->
  (0 <= Qfloor (Js.to_double (r * 43)) < 43)%Z.
Proof.
  intros H0 H1. split.
  - change 0%Z with (Qfloor 0). apply Qfloor_resp_le, to_double_nonneg.
    apply Qmult_le_0_compat; [exact H0 | discriminate].
  - assert (H : (Js.to_double (r * 43)
                 <= inject_Z (43 * 2 ^ 47 - 1) * 2 ^ (-47))%Q).
    { apply to_double_below.
      - apply Qmult_le_0_compat; [exact H0 | discriminate].
      - split; [vm_compute; discriminate | reflexivity].
      - lia.
      - replace (2 ^ (-47))%Q with (1 # 140737488355328)%Q by reflexivity.
        replace (inject_Z (43 * 2 ^ 47 - 1)) with (6051711999279103 # 1)%Q by reflexivity.
        lra. }
    replace (2 ^ (-47))%Q with (1 # 140737488355328)%Q in H by reflexivity.
    replace (inject_Z (43 * 2 ^ 47 - 1)) with (6051711999279103 # 1)%Q in H by reflexivity.
    rewrite Zlt_Qlt. eapply Qle_lt_trans; [apply Qfloor_le |].
    change (inject_Z 43) with 43%Q. lra.
Qed.

(** [Math.floor(r * 91) + 10] lies in [10, 100] for a draw [r], and is
    the exact [floor (91 r) + 10] or one more. *)
Lemma networkLatency_range (r : Q) (m : Z) :
  (0 <= m < 2 ^ 53)%Z -> (r == inject_Z m / inject_Z (2 ^ 53))%Q ->
  (10 <= networkLatency r <= 100)%Z /\
  (Qfloor (91 * r) + 10 <= networkLatency r <= Qfloor (91 * r) + 11)%Z.
Proof.
  intros Hm Hr. destruct (draw_bounds r m Hm Hr) as [H0 H1].
  unfold networkLatency.
  pose proof (rounded_product_below_91 r H0 H1) as Hrange.
  assert (Hc : (91 * r == r * 91)%Q) by ring.
  rewrite (Qfloor_comp _ _ Hc).
  assert (Hround : (Qfloor (r * 91) <= Qfloor (Js.to_double (r * 91))
                    <= Qfloor (r * 91) + 1)%Z).
  { apply floor_of_rounded; [apply Qmult_le_0_compat; [exact H0 | discriminate] | lra]. }
  lia.
Qed.

(** C1, as the code has it. [GET /api/compute] with a failure draw below
    0.8, on a fresh process: the handler's [catch] block increments the
    error counter and then throws [ReferenceError: start is not defined],
    so the failure leaves the handler; nothing is written to the error
    log, and the response is Express's own 500 page, not a JSON body. *)
Theorem C1_compute_failure_escapes_the_handler :
  let env := sample_env db_up (1 # 2) in
  let rq := get ApiCompute "/api/compute" None 1 in
  (exists w1,
     api_compute env rq initial_world = (Throw start_is_not_defined, w1) /\
     errors_total w1 = 1 /\
     written_to Winston.ErrorLog (trace w1) = []) /\
  (exists w2,
     serve env rq initial_world
       = (Return (mkResponse 500 (Html "<pre>start is not defined</pre>")), w2) /\
     is_json (Html "<pre>start is not defined</pre>") = false /\
     errors_total w2 = 1 /\
     written_to Winston.ErrorLog (trace w2) = []).
Proof.
  intros env rq. split.
  - eexists. split; [apply api_compute_failure; reflexivity|].
    split; reflexivity.
  - eexists. split.
    + unfold serve.
      do 4 (erewrite bind_return by (vm_compute; reflexivity)).
      erewrite bind_return.
      2:{ unfold dispatch. cbn [route rq get].
          erewrite try_catch_throw by (apply api_compute_failure; reflexivity).
          reflexivity. }
      do 3 (erewrite bind_return by (vm_compute; reflexivity)).
      reflexivity.
    + split; [reflexivity|]. split; reflexivity.
Qed.

(** C2, as the code has it. A request whose handler issues no query - here
    [GET /metrics] - completes with its wrapper still in [pool.query]:
    only the wrapper's own [finally] restores the slot, and the wrapper
    never ran. On a fresh process, the request that follows ([GET
    /api/users]) captures that leftover wrapper as its [originalQuery];
    its query is then explained twice over, which the database rejects,
    and the slot is instrumented again when it ends. *)
Theorem C2_request_without_query_leaves_the_wrapper_installed :
  (forall env id w,
      exists response w',
        serve env (get MetricsEndpoint "/metrics" None id) w = (Return response, w') /\
        pool_query w' = Wrapper id (Bound (pool_query w)) /\
        instrumented (pool_query w') = true) /\
  (let env := sample_env db_up (1 # 2) in
   exists r1 w1 r2 w2,
     serve env (get MetricsEndpoint "/metrics" None 1) initial_world = (Return r1, w1) /\
     pool_query w1 = Wrapper 1 (Bound Native) /\
     serve env (get ApiUsers "/api/users" None 2) w1 = (Return r2, w2) /\
     In (EvInvoke (Wrapper 2 (Bound (Wrapper 1 (Bound Native))))
                  "SELECT * FROM users" None)
        (trace w2) /\
     In (EvDb "EXPLAIN EXPLAIN SELECT * FROM users" None) (trace w2) /\
     status r2 = 500%Z /\
     pool_query w2 = Bound (Wrapper 1 (Bound Native)) /\
     instrumented (pool_query w2) = true).
Proof.
  split.
  - intros env id w. eexists. eexists.
    split; [cbn; reflexivity|]. split; reflexivity.
  - intros env. eexists. eexists. eexists. eexists.
    split; [vm_compute; reflexivity|].
    split; [reflexivity|].
    split; [vm_compute; reflexivity|].
    split; [vm_compute; auto 10|].
    split; [vm_compute; auto 10|].
    repeat split.
Qed.

(** A scrape of [/metrics] followed by [/api/users], both on a database
    that is up: the second request fails. *)
Example scrape_then_users :
  let env := sample_env db_up (1 # 2) in
  let run := serve_all env [ get MetricsEndpoint "/metrics" None 1;
                             get ApiUsers "/api/users" None 2 ] initial_world in
  exists responses,
    fst run = Return responses /\
    map status responses = [ 200%Z; 500%Z ] /\
    statements (trace (snd run)) = [ "EXPLAIN EXPLAIN SELECT * FROM users"%string ] /\
    errors_total (snd run) = 1%nat.
Proof. eexists. vm_compute. repeat split. Qed.

(** [/api/orders/generate] on a fresh process with the database up: ten
    invocations, the first on the wrapper, and eleven statements, the
    first an [EXPLAIN]. *)
Example orders_generate_on_a_fresh_process :
  let env := sample_env db_up (1 # 2) in
  let run := serve env (get ApiOrdersGenerate "/api/orders/generate" None 1)
                   initial_world in
  map instrumented (invoked_caps (trace (snd run))) = true :: repeat false 9 /\
  statements (trace (snd run))
    = ("EXPLAIN " ++ insert_order)%string :: repeat insert_order 10 /\
  length (written_to Winston.DbLog (trace (snd run))) = 3%nat.
Proof. vm_compute. repeat split. Qed.




(** C8.  [/api/users/filter] without [age]: the handler throws the
    validation error, counts it, logs it to the error log and answers 500
    with [{ error }]; no call site of [pool.query] is reached and the
    database receives nothing. *)
Theorem C8_filter_without_age_fails_validation
    (env : Env) (rq : Request) (w : World) :
  route rq = ApiUsersFilter ->
  age rq = None ->
  exists w',
    serve env rq w
      = (Return (mkResponse 500
                   (Json [ ("error", Js.VStr "Age query parameter is required") ])),
         w') /\
    errors_total w' = S (errors_total w) /\
    In (EvWrite Winston.ErrorLog (filter_error_entry validation_error))
       (new_events w w') /\
    existsb reaches_database (new_events w w') = false /\
    db_seq w' = db_seq w.
Proof.
  intros Hroute Hage. destruct rq as [id m u r a i t]. simpl in Hroute, Hage. subst.
  eexists. split; [cbn; reflexivity|]. cbn [errors_total db_seq].
  split; [reflexivity|].
  erewrite new_events_app
    by (cbn [trace]; rewrite <- !app_assoc; reflexivity).
  split; [simpl; auto 10|]. split; reflexivity.
Qed.

(** C8 for [GET /api/users/filter] on a fresh process. *)
Lemma C8_witness :
  exists w',
    serve (sample_env db_up (1 # 2)) (get ApiUsersFilter "/api/users/filter" None 1)
          initial_world
      = (Return (mkResponse 500
                   (Json [ ("error", Js.VStr "Age query parameter is required") ])),
         w') /\
    errors_total w' = 1 /\
    existsb reaches_database (new_events initial_world w') = false.
Proof.
  destruct (C8_filter_without_age_fails_validation
              (sample_env db_up (1 # 2))
              (get ApiUsersFilter "/api/users/filter" None 1) initial_world)
    as (w' & Hserve & Herr & _ & Hdb & _).
  - reflexivity.
  - reflexivity.
  - exists w'. repeat split; assumption.
Defined.

(** C10, counterexample.  An [age] that is present but empty is not a
    number either, yet [!age] holds for the empty string: validation
    triggers and no query is issued. *)
Lemma C10_counterexample_empty_age :
  let env := sample_env db_up (1 # 2) in
  Js.parseInt EmptyString = Js.NaN /\
  fst (serve env empty_age_request initial_world)
    = Return (mkResponse 500
                (Json [ ("error", Js.VStr "Age query parameter is required") ])) /\
  invocations (new_events initial_world (snd (serve env empty_age_request initial_world)))
    = [] /\
  ~ C10_as_stated env empty_age_request initial_world.
Proof.
  intros env.
  assert (Hnone : invocations
                    (new_events initial_world
                       (snd (serve env empty_age_request initial_world))) = [])
    by (vm_compute; reflexivity).
  split; [reflexivity|]. split; [vm_compute; reflexivity|]. split; [exact Hnone|].
  intros H. destruct (H EmptyString eq_refl eq_refl eq_refl) as [c Hin].
  apply in_invocations in Hin. rewrite Hnone in Hin. exact Hin.
Qed.

(** C10, as the code has it. When [age] is present, not empty, and
    [parseInt(age)] is [NaN], validation does not trigger: the handler
    invokes the query capability with [NaN] as the comparison parameter,
    and the first statement the database then receives carries it. *)
Theorem C10_non_numeric_age_reaches_the_database
    (env : Env) (rq : Request) (w : World) (s : string) :
  route rq = ApiUsersFilter ->
  age rq = Some s ->
  s <> EmptyString ->
  Js.parseInt s = Js.NaN ->
  exists response w' text' rest,
    serve env rq w = (Return response, w') /\
    new_events w w'
      = EvTimeout (networkLatency (random env (rnd_seq w)))
        :: EvInvoke (Wrapper (req_id rq) (Bound (pool_query w)))
             select_filter (Some [ Js.VNum Js.NaN ])
        :: EvDb text' (Some [ Js.VNum Js.NaN ])
        :: rest.
Proof.
  intros Hroute Hage Hne Hnan.
  unfold serve.
  do 4 (erewrite bind_return by (cbn; reflexivity)).
  match goal with
  | |- context [bind (dispatch env rq) _ ?W] => set (w4 := W)
  end.
  destruct (api_users_filter_queries env rq w4 s Hage Hne)
    as (resp & w5 & text' & rest & Hhandler & Htrace).
  rewrite Hnan in Htrace.
  erewrite bind_return by (unfold dispatch; rewrite Hroute; exact Hhandler).
  do 3 (erewrite bind_return by (cbn; reflexivity)).
  eexists. eexists. exists text'. eexists.
  split; [reflexivity|].
  apply new_events_app. cbn [trace]. rewrite Htrace. subst w4. cbn [trace pool_query].
  rewrite <- !app_assoc. cbn [app]. reflexivity.
Qed.

(** C10 for [GET /api/users/filter?age=abc] on a fresh process. *)
Lemma C10_witness :
  let env := sample_env db_up (1 # 2) in
  let rq := get ApiUsersFilter "/api/users/filter?age=abc" (Some "abc"%string) 1 in
  exists response w' text' rest,
    serve env rq initial_world = (Return response, w') /\
    new_events initial_world w'
      = EvTimeout 55
        :: EvInvoke (Wrapper 1 (Bound Native)) select_filter (Some [ Js.VNum Js.NaN ])
        :: EvDb text' (Some [ Js.VNum Js.NaN ])
        :: rest.
Proof.
  intros env rq.
  apply (C10_non_numeric_age_reaches_the_database env rq initial_world "abc").
  - reflexivity.
  - reflexivity.
  - discriminate.
  - reflexivity.
Defined.

(** ** Start-up *)

(** The readiness loop with [retries] attempts left: it returns normally;
    [failures] attempts fail, each followed by the notice and the 5000 ms
    wait; a success, if any, ends the loop with the connection notice. *)
Lemma waitForPostgres_loop_spec (env : Env) (retries : nat) :
  forall w,
  exists w' evs failures connected,
    waitForPostgres_loop env retries w = (Return tt, w') /\
    trace w' = trace w ++ evs /\
    (failures <= retries)%nat /\
    (connected = false -> failures = retries) /\
    (connected = true -> (failures < retries)%nat) /\
    invocations evs
      = repeat liveness_query (failures + if connected then 1 else 0) /\
    console_lines evs
      = repeat waiting_line failures ++ (if connected then [connected_line] else []) /\
    timeouts evs = repeat 5000%Z failures /\
    (connected = true -> exists pre, evs = pre ++ [EvConsole connected_line]).
Proof.
  induction retries as [| retries IH]; intros w.
  - exists w, [], 0%nat, false. simpl. rewrite app_nil_r.
    repeat split; auto; discriminate.
  - destruct (pool_query_call_events env liveness_query None w)
      as (r & w1 & evs1 & Hq & Ht1 & Hc1).
    destruct (call_events_project evs1 Hc1) as (Hcl & Hto & Hin).
    cbn [waitForPostgres_loop]. fold liveness_query.
    destruct r as [res | err].
    + erewrite bind_return.
      2:{ apply try_catch_return. erewrite bind_return by exact Hq.
          erewrite bind_return by reflexivity. reflexivity. }
      eexists. exists (EvInvoke (pool_query w) liveness_query None
                         :: evs1 ++ [EvConsole connected_line]), 0%nat, true.
      split; [reflexivity|].
      split; [cbn [trace]; rewrite Ht1, <- app_assoc; reflexivity|].
      split; [lia|]. split; [discriminate|]. split; [lia|].
      cbn [invocations console_lines timeouts].
      rewrite invocations_app, console_lines_app, timeouts_app, Hcl, Hto, Hin.
      repeat split.
      intros _. exists (EvInvoke (pool_query w) liveness_query None :: evs1).
      reflexivity.
    + erewrite bind_return.
      2:{ erewrite try_catch_throw.
          2:{ erewrite bind_throw by exact Hq. reflexivity. }
          erewrite bind_return by reflexivity.
          erewrite bind_return by reflexivity. reflexivity. }
      cbv iota.
      match goal with
      | |- context [waitForPostgres_loop env retries ?W] => set (w2 := W)
      end.
      destruct (IH w2) as (w' & evs2 & failures & connected
                           & Hloop & Ht2 & Hle & Hfalse & Htrue & Hi & Hc & Ht & Hlast).
      exists w', (EvInvoke (pool_query w) liveness_query None
                    :: evs1 ++ [EvConsole waiting_line; EvTimeout 5000] ++ evs2),
             (S failures), connected.
      split; [exact Hloop|].
      split.
      { rewrite Ht2. subst w2. cbn [trace]. rewrite Ht1.
        rewrite <- !app_assoc. reflexivity. }
      split; [lia|].
      split; [intros Hc0; rewrite (Hfalse Hc0); reflexivity|].
      split; [intros Hc1'; specialize (Htrue Hc1'); lia|].
      cbn [invocations console_lines timeouts].
      rewrite !invocations_app, !console_lines_app, !timeouts_app, Hcl, Hto, Hin.
      cbn [invocations console_lines timeouts app].
      rewrite Hi, Hc, Ht.
      repeat split.
      intros Hc1'. destruct (Hlast Hc1') as [pre Hpre].
      exists (EvInvoke (pool_query w) liveness_query None
                :: evs1 ++ [EvConsole waiting_line; EvTimeout 5000] ++ pre).
      rewrite Hpre. cbn [app]. rewrite <- !app_assoc. reflexivity.
Qed.

Lemma generateUsers_from_spec (env : Env) (num : nat) :
  forall i w,
  exists users w',
    generateUsers_from env i num w = (Return users, w') /\
    trace w' = trace w /\
    length users = num.
Proof.
  induction num as [| num IH]; intros i w; cbn [generateUsers_from].
  - exists [], w. repeat split.
  - erewrite bind_return by reflexivity. cbv beta zeta.
    match goal with
    | |- context [bind (generateUsers_from env ?j num) _ ?W] =>
        destruct (IH j W) as (users & w' & Hgen & Htrace & Hlen)
    end.
    erewrite bind_return by exact Hgen.
    eexists. exists w'. split; [reflexivity|].
    split; [rewrite Htrace; reflexivity | simpl; rewrite Hlen; reflexivity].
Qed.

Lemma insert_users_spec (env : Env) (users : list User) :
  forall insertedRows w,
  exists n w' evs,
    insert_users env users insertedRows w = (Return n, w') /\
    trace w' = trace w ++ evs /\
    invocations evs = repeat insert_user (length users).
Proof.
  induction users as [| user users IH]; intros insertedRows w; cbn [insert_users].
  - exists insertedRows, w, []. rewrite app_nil_r. repeat split.
  - destruct (pool_query_call_events env insert_user
                (Some [ Js.VStr (name user); Js.VStr (email user);
                        Js.of_Z (user_age user) ]) w)
      as (r & w1 & evs1 & Hq & Ht1 & Hc1).
    destruct (call_events_project evs1 Hc1) as (_ & _ & Hin).
    destruct r as [res | err].
    + erewrite bind_return.
      2:{ apply try_catch_return. erewrite bind_return by exact Hq.
          erewrite bind_return by reflexivity. reflexivity. }
      match goal with
      | |- context [insert_users env users ?k ?W] =>
          destruct (IH k W) as (n & w' & evs2 & Hloop & Ht2 & Hi)
      end.
      eexists. exists w'. eexists.
      split; [exact Hloop|].
      split.
      { rewrite Ht2. cbn [trace]. rewrite Ht1. rewrite <- !app_assoc.
        cbn [app]. reflexivity. }
      cbn [invocations length repeat].
      rewrite !invocations_app, Hin, Hi.
      fold (writes (Winston.mkEntry Winston.info
              ("Inserted user: " ++ name user ++ " with email: " ++ email user)%string [])).
      rewrite invocations_writes. reflexivity.
    + erewrite bind_return.
      2:{ erewrite try_catch_throw.
          2:{ erewrite bind_throw by exact Hq. reflexivity. }
          erewrite bind_return by reflexivity. reflexivity. }
      match goal with
      | |- context [insert_users env users ?k ?W] =>
          destruct (IH k W) as (n & w' & evs2 & Hloop & Ht2 & Hi)
      end.
      eexists. exists w'. eexists.
      split; [exact Hloop|].
      split.
      { rewrite Ht2. cbn [trace]. rewrite Ht1. rewrite <- !app_assoc.
        cbn [app]. reflexivity. }
      cbn [invocations length repeat].
      rewrite !invocations_app, Hin, Hi.
      fold (writes (Winston.mkEntry Winston.error
              ("Failed to insert user: " ++ name user)%string
              [ ("error", Winston.MVal (Js.VStr (Js.message err))) ])).
      rewrite invocations_writes. reflexivity.
Qed.

(** C9, counterexample.  Against a database that is down, the ten attempts
    leave ten times the same four events - the invocation, the statement,
    the waiting notice, the 5000 ms wait - and nothing after the last wait:
    no record reports the exhaustion. *)
Lemma C9_counterexample_exhaustion_is_not_logged :
  trace (snd (waitForPostgres (sample_env db_down (1 # 2)) initial_world))
    = concat (repeat [ EvInvoke Native liveness_query None;
                       EvDb liveness_query None;
                       EvConsole waiting_line;
                       EvTimeout 5000 ] 10) /\
  ~ C9_as_stated (sample_env db_down (1 # 2)) initial_world.
Proof.
  assert (Htrace :
            trace (snd (waitForPostgres (sample_env db_down (1 # 2)) initial_world))
            = concat (repeat [ EvInvoke Native liveness_query None;
                               EvDb liveness_query None;
                               EvConsole waiting_line;
                               EvTimeout 5000 ] 10))
    by (vm_compute; reflexivity).
  split; [exact Htrace|].
  unfold C9_as_stated, new_events. cbn [initial_world trace length skipn].
  rewrite Htrace. intros (_ & _ & H).
  destruct H as [ev [Hin Hrep]].
  - intros Hin. apply (repeat_spec 10 waiting_line connected_line) in Hin.
    discriminate Hin.
  - apply in_concat in Hin. destruct Hin as [block [Hblock Hin]].
    apply repeat_spec in Hblock. subst block.
    simpl in Hin.
    destruct Hin as [<- | [<- | [<- | [<- | []]]]]; simpl in Hrep;
      try contradiction.
    destruct Hrep as [Hrep _]. apply Hrep. reflexivity.
Qed.

(** ** Further properties: numerals and strings *)

Lemma string_length_append (a b : string) :
  String.length (a ++ b)%string = String.length a + String.length b.
Proof. induction a as [| c a IH]; simpl; [reflexivity | rewrite IH; reflexivity]. Qed.

Lemma string_append_cancel_r (a b c : string) :
  (a ++ c)%string = (b ++ c)%string -> a = b.
Proof.
  revert b. induction a as [| x a IH]; intros [| y b] H; simpl in H.
  - reflexivity.
  - apply (f_equal String.length) in H. simpl in H.
    rewrite string_length_append in H. lia.
  - apply (f_equal String.length) in H. simpl in H.
    rewrite string_length_append in H. lia.
  - injection H as -> H. f_equal. apply IH. exact H.
Qed.

(** The decimal rendering of integers is one to one. *)
Lemma show_Z_inj (a b : Z) : Js.show_Z a = Js.show_Z b -> a = b.
Proof.
  unfold Js.show_Z. intros H. apply DecimalZ.to_int_inj.
  assert (Hnil : forall z, Z.to_int z <> Decimal.Pos Decimal.Nil
                           /\ Z.to_int z <> Decimal.Neg Decimal.Nil).
  { intros [| p | p]; simpl; split; try discriminate;
      intros [= Hp]; exact (DecimalPos.Unsigned.to_uint_nonnil p Hp). }
  destruct (Hnil a) as [Ha1 Ha2]. destruct (Hnil b) as [Hb1 Hb2].
  pose proof (NilZero.isi _ Ha1 Ha2) as Ia.
  pose proof (NilZero.isi _ Hb1 Hb2) as Ib.
  rewrite H in Ia. rewrite Ia in Ib. injection Ib as Ib. exact Ib.
Qed.

Lemma show_Z_not_empty (z : Z) : Js.show_Z z <> EmptyString.
Proof.
  unfold Js.show_Z. destruct z as [| p | p]; simpl; try discriminate.
  destruct (Pos.to_uint p); discriminate.
Qed.

(** [parseInt] reads back the decimal rendering of an integer. *)
Lemma take_while_digits (d : Decimal.uint) :
  Js.take_while Js.is_digit (NilEmpty.string_of_uint d) = NilEmpty.string_of_uint d.
Proof. induction d; simpl; [reflexivity | rewrite IHd; reflexivity ..]. Qed.

Lemma digits_value_acc (d : Decimal.uint) :
  forall acc : positive,
    Js.digits_value 10 Js.digit_val (Z.pos acc) (NilEmpty.string_of_uint d)
    = Z.pos (Pos.of_uint_acc d acc).
Proof.
  induction d; intros acc; cbn [NilEmpty.string_of_uint Js.digits_value Pos.of_uint_acc];
    [reflexivity | ..];
    match goal with
    | |- Js.digits_value _ _ ?z _ = Z.pos (Pos.of_uint_acc _ ?a) =>
        replace z with (Z.pos a) by (unfold Js.digit_val; cbn [nat_of_ascii]; simpl Z.of_nat; lia)
    end; apply IHd.
Qed.

Lemma digits_value_of_uint (d : Decimal.uint) :
  Js.digits_value 10 Js.digit_val 0 (NilEmpty.string_of_uint d)
  = Z.of_N (Pos.of_uint d).
Proof.
  induction d; cbn [NilEmpty.string_of_uint Js.digits_value Pos.of_uint];
    [reflexivity | exact IHd | ..];
    match goal with
    | |- Js.digits_value _ _ ?z _ = Z.of_N (N.pos (Pos.of_uint_acc _ ?a)) =>
        change z with (Z.pos a)
    end; apply digits_value_acc.
Qed.

Lemma take_while_all_digits (s : string) :
  all_digits s = true -> Js.take_while Js.is_digit s = s.
Proof.
  induction s as [| c s IH]; simpl; [reflexivity|].
  intros H. apply andb_prop in H. destruct H as [Hc Hs].
  rewrite Hc, (IH Hs). reflexivity.
Qed.

Lemma all_digits_uint (d : Decimal.uint) : all_digits (NilEmpty.string_of_uint d) = true.
Proof. induction d; simpl; auto. Qed.

(** [parseInt] on a digit that does not open a hexadecimal literal: the
    run of digits is read in radix 10. *)
Lemma parseInt_decimal_run (c : ascii) (rest : string) :
  Js.is_digit c = true ->
  (c = "0"%char ->
   match rest with
   | String x _ => x <> "x"%char /\ x <> "X"%char
   | EmptyString => True
   end) ->
  Js.parseInt (String c rest)
  = Js.to_number (inject_Z (Js.digits_value 10 Js.digit_val 0
                              (Js.take_while Js.is_digit (String c rest)))).
Proof.
  intros Hc Hx.
  destruct c as [[|] [|] [|] [|] [|] [|] [|] [|]]; try discriminate Hc.
  all: try (clear Hx; reflexivity).
  specialize (Hx eq_refl). destruct rest as [| a rest]; [reflexivity|].
  destruct Hx as [Hx1 Hx2].
  destruct a as [[|] [|] [|] [|] [|] [|] [|] [|]]; try reflexivity;
    exfalso; first [apply Hx1; reflexivity | apply Hx2; reflexivity].
Qed.

Lemma parseInt_negative_run (c : ascii) (rest : string) :
  Js.is_digit c = true ->
  (c = "0"%char ->
   match rest with
   | String x _ => x <> "x"%char /\ x <> "X"%char
   | EmptyString => True
   end) ->
  Js.parseInt (String "-" (String c rest))
  = Js.to_number (inject_Z (- Js.digits_value 10 Js.digit_val 0
                                (Js.take_while Js.is_digit (String c rest)))).
Proof.
  intros Hc Hx.
  destruct c as [[|] [|] [|] [|] [|] [|] [|] [|]]; try discriminate Hc.
  all: try (clear Hx; reflexivity).
  specialize (Hx eq_refl). destruct rest as [| a rest]; [reflexivity|].
  destruct Hx as [Hx1 Hx2].
  destruct a as [[|] [|] [|] [|] [|] [|] [|] [|]]; try reflexivity;
    exfalso; first [apply Hx1; reflexivity | apply Hx2; reflexivity].
Qed.

(** The rendering of a numeral: a digit first, and no [x] after it. *)
Lemma uint_string_shape (d : Decimal.uint) :
  d <> Decimal.Nil ->
  exists c rest,
    NilEmpty.string_of_uint d = String c rest /\
    Js.is_digit c = true /\
    (c = "0"%char ->
     match rest with
     | String x _ => x <> "x"%char /\ x <> "X"%char
     | EmptyString => True
     end).
Proof.
  intros Hd.
  destruct d as [| d | d | d | d | d | d | d | d | d | d];
    [contradiction Hd; reflexivity | ..];
    eexists; eexists; (split; [reflexivity|]); (split; [reflexivity|]);
    try (intros H; discriminate H).
  intros _. destruct d; simpl; try exact I; split; discriminate.
Qed.

Lemma parseInt_unsigned (d : Decimal.uint) :
  d <> Decimal.Nil ->
  Js.parseInt (NilEmpty.string_of_uint d)
  = Js.to_number (inject_Z (Z.of_N (Pos.of_uint d))).
Proof.
  intros Hd. rewrite <- digits_value_of_uint.
  destruct (uint_string_shape d Hd) as (c & rest & Hs & Hc & Hx).
  rewrite Hs, (parseInt_decimal_run c rest Hc Hx), <- Hs.
  rewrite take_while_all_digits by apply all_digits_uint. reflexivity.
Qed.

Lemma parseInt_negative (d : Decimal.uint) :
  d <> Decimal.Nil ->
  Js.parseInt (String "-" (NilEmpty.string_of_uint d))
  = Js.to_number (inject_Z (- Z.of_N (Pos.of_uint d))).
Proof.
  intros Hd. rewrite <- digits_value_of_uint.
  destruct (uint_string_shape d Hd) as (c & rest & Hs & Hc & Hx).
  rewrite Hs, (parseInt_negative_run c rest Hc Hx), <- Hs.
  rewrite take_while_all_digits by apply all_digits_uint. reflexivity.
Qed.

(** An integer of at most 53 bits is stored as it is. *)
Lemma to_number_Z (z : Z) :
  (Z.abs z <= 2 ^ 53)%Z -> Js.to_number (inject_Z z) = Js.Fin (inject_Z z).
Proof.
  intro Hz. unfold Js.to_number. cbv zeta. rewrite (to_double_Z z Hz).
  assert (Hhi : Qle_bool (2 ^ 1024) (inject_Z z) = false).
  { destruct (Qle_bool (2 ^ 1024) (inject_Z z)) eqn:E; [| reflexivity].
    apply Qle_bool_iff in E.
    assert (H : (inject_Z (2 ^ 1024) <= inject_Z z)%Q).
    { rewrite <- (pow2_Z 1024) by lia. exact E. }
    rewrite <- Zle_Qle in H.
    assert (2 ^ 53 < 2 ^ 1024)%Z by (apply Z.pow_lt_mono_r; lia). lia. }
  assert (Hlo : Qle_bool (inject_Z z) (- 2 ^ 1024) = false).
  { destruct (Qle_bool (inject_Z z) (- 2 ^ 1024)) eqn:E; [| reflexivity].
    apply Qle_bool_iff in E.
    assert (H : (inject_Z z <= inject_Z (- 2 ^ 1024))%Q).
    { rewrite inject_Z_opp, <- (pow2_Z 1024) by lia. exact E. }
    rewrite <- Zle_Qle in H.
    assert (2 ^ 53 < 2 ^ 1024)%Z by (apply Z.pow_lt_mono_r; lia). lia. }
  rewrite Hhi, Hlo. reflexivity.
Qed.

(** [parseInt(String(z))] is the number nearest to [z], for every integer
    [z]. *)
Lemma parseInt_show_Z (z : Z) : Js.parseInt (Js.show_Z z) = Js.to_number (inject_Z z).
Proof.
  destruct z as [| p | p].
  - reflexivity.
  - unfold Js.show_Z. cbn [Z.to_int NilZero.string_of_int].
    pose proof (DecimalPos.Unsigned.to_uint_nonnil p) as Hp.
    replace (NilZero.string_of_uint (Pos.to_uint p))
      with (NilEmpty.string_of_uint (Pos.to_uint p))
      by (destruct (Pos.to_uint p); [contradiction Hp|..]; reflexivity).
    rewrite (parseInt_unsigned _ Hp), DecimalPos.Unsigned.of_to. reflexivity.
  - unfold Js.show_Z. cbn [Z.to_int NilZero.string_of_int].
    pose proof (DecimalPos.Unsigned.to_uint_nonnil p) as Hp.
    replace (NilZero.string_of_uint (Pos.to_uint p))
      with (NilEmpty.string_of_uint (Pos.to_uint p))
      by (destruct (Pos.to_uint p); [contradiction Hp|..]; reflexivity).
    rewrite (parseInt_negative _ Hp), DecimalPos.Unsigned.of_to. reflexivity.
Qed.

(** ** Further properties: the generators of dummyData.js *)

Lemma generateUsers_from_batch (env : Env) (num : nat) :
  draws_in_unit_interval env ->
  forall i w,
  exists users w',
    generateUsers_from env i num w = (Return users, w') /\
    length users = num /\
    (forall k user,
        nth_error users k = Some user ->
        name user = ("User " ++ Js.show_Z (i + Z.of_nat k + 1))%string /\
        email user = ("user" ++ Js.show_Z (i + Z.of_nat k + 1) ++ "@example.com")%string /\
        (18 <= user_age user <= 60)%Z) /\
    trace w' = trace w /\
    pool_query w' = pool_query w /\
    rnd_seq w' = (rnd_seq w + N.of_nat num)%N.
Proof.
  intros Hdraws. induction num as [| num IH]; intros i w; cbn [generateUsers_from].
  - exists [], w. split; [reflexivity|]. split; [reflexivity|].
    split; [intros [|k] user H; discriminate H|].
    repeat split. rewrite N.add_0_r. reflexivity.
  - erewrite bind_return by reflexivity. cbv beta zeta.
    match goal with
    | |- context [bind (generateUsers_from env ?j num) _ ?W] =>
        destruct (IH j W) as (users & w' & Hgen & Hlen & Hnth & Htrace & Hslot & Hrnd)
    end.
    erewrite bind_return by exact Hgen.
    eexists. exists w'. split; [reflexivity|].
    split; [simpl; rewrite Hlen; reflexivity|].
    split.
    { intros [| k] user Hk; simpl in Hk.
      - injection Hk as <-. cbn [name email user_age].
        replace (i + Z.of_nat 0 + 1)%Z with (i + 1)%Z by lia.
        split; [reflexivity|]. split; [reflexivity|].
        destruct (Hdraws (rnd_seq w)) as (m & Hm & Hr).
        destruct (draw_bounds _ m Hm Hr) as [H0 H1].
        pose proof (rounded_product_below_43 _ H0 H1) as Hfloor.
        change (18 <= Qfloor (Js.to_double (random env (rnd_seq w) * 43)) + 18 <= 60)%Z.
        lia.
      - destruct (Hnth k user Hk) as (Hn & He & Ha).
        replace (i + Z.of_nat (S k) + 1)%Z with (i + 1 + Z.of_nat k + 1)%Z by lia.
        auto. }
    split; [rewrite Htrace; reflexivity|].
    split; [rewrite Hslot; reflexivity|].
    rewrite Hrnd. cbn [rnd_seq]. lia.
Qed.

(** X1.  [generateUsers(num)] returns [num] users, numbered from 1 in
    their names and e-mail addresses, with ages between 18 and 60 when
    the draws are those of [Math.random()].  The addresses are pairwise distinct, the
    batch costs one draw per user, and nothing else happens. *)
Theorem X1_generateUsers_batch (env : Env) (num : nat) (w : World) :
  draws_in_unit_interval env ->
  exists users w',
    generateUsers env num w = (Return users, w') /\
    length users = num /\
    (forall k user,
        nth_error users k = Some user ->
        name user = ("User " ++ Js.show_Z (Z.of_nat k + 1))%string /\
        email user = ("user" ++ Js.show_Z (Z.of_nat k + 1) ++ "@example.com")%string /\
        (18 <= user_age user <= 60)%Z) /\
    NoDup (map email users) /\
    trace w' = trace w /\
    rnd_seq w' = (rnd_seq w + N.of_nat num)%N.
Proof.
  intros Hdraws. unfold generateUsers.
  destruct (generateUsers_from_batch env num Hdraws 0%Z w)
    as (users & w' & Hgen & Hlen & Hnth & Htrace & _ & Hrnd).
  exists users, w'. split; [exact Hgen|]. split; [exact Hlen|].
  split; [exact Hnth|]. split; [| split; assumption].
  apply NoDup_nth_error. intros a b Ha Hab.
  rewrite length_map in Ha. rewrite !nth_error_map in Hab.
  destruct (nth_error users a) as [ua|] eqn:Hua;
    [| apply nth_error_None in Hua; lia].
  destruct (nth_error users b) as [ub|] eqn:Hub; [| discriminate Hab].
  destruct (Hnth a ua Hua) as (_ & Hea & _).
  destruct (Hnth b ub Hub) as (_ & Heb & _).
  simpl in Hab. injection Hab as Hab. rewrite Hea, Heb in Hab.
  simpl in Hab. injection Hab as Hab.
  apply string_append_cancel_r in Hab. apply show_Z_inj in Hab. lia.
Qed.

(** X1 with every draw 1/2: fifty users, all aged 39. *)
Lemma X1_witness :
  exists users w',
    generateUsers (sample_env db_up (1 # 2)) 50 initial_world = (Return users, w') /\
    length users = 50%nat /\
    NoDup (map email users) /\
    rnd_seq w' = 50%N.
Proof.
  destruct (X1_generateUsers_batch (sample_env db_up (1 # 2)) 50 initial_world)
    as (users & w' & Hgen & Hlen & _ & Hdup & _ & Hrnd).
  - intros k. exists (2 ^ 52)%Z.
    split; [split; [discriminate | reflexivity] | reflexivity].
  - exists users, w'. repeat split; assumption.
Defined.

Lemma generateOrders_batch (env : Env) (count : nat) :
  faker_in_range env ->
  forall w,
  exists orders w',
    generateOrders env count w = (Return orders, w') /\
    length orders = count /\
    Forall (fun order => (1 <= userId order <= 50)%Z /\ (10 <= price order <= 1000)%Z)
           orders /\
    trace w' = trace w /\
    pool_query w' = pool_query w /\
    db_seq w' = db_seq w /\
    faker_seq w' = (faker_seq w + 3 * N.of_nat count)%N.
Proof.
  intros Hrange. induction count as [| count IH]; intros w; cbn [generateOrders].
  - exists [], w. repeat split; auto. simpl. rewrite N.add_0_r. reflexivity.
  - do 3 (erewrite bind_return by reflexivity).
    match goal with
    | |- context [bind (generateOrders env count) _ ?W] =>
        destruct (IH W)
          as (orders & w' & Hgen & Hlen & Hall & Htrace & Hslot & Hdb & Hfaker)
    end.
    erewrite bind_return by exact Hgen.
    eexists. exists w'. split; [reflexivity|].
    split; [simpl; rewrite Hlen; reflexivity|].
    split.
    { constructor; [| exact Hall]. cbn [userId price].
      split; apply Hrange; lia. }
    split; [exact Htrace|]. split; [exact Hslot|]. split; [exact Hdb|].
    rewrite Hfaker. cbn [faker_seq]. lia.
Qed.

(** X2.  [generateOrders(count)] returns [count] orders whose [userId]
    lies in [1, 50] and whose [price] lies in [10, 1000] whenever faker
    keeps to the bounds it is given; it calls faker three times per order
    and touches neither the log, the database nor the query slot. *)
Theorem X2_generateOrders_batch (env : Env) (count : nat) (w : World) :
  faker_in_range env ->
  exists orders w',
    generateOrders env count w = (Return orders, w') /\
    length orders = count /\
    Forall (fun order => (1 <= userId order <= 50)%Z /\ (10 <= price order <= 1000)%Z)
           orders /\
    trace w' = trace w /\
    pool_query w' = pool_query w /\
    db_seq w' = db_seq w /\
    faker_seq w' = (faker_seq w + 3 * N.of_nat count)%N.
Proof.
  intros Hrange. apply generateOrders_batch. exact Hrange.
Qed.

(** X2 for the ten orders of [/api/orders/generate], faker answering with
    the lower bound. *)
Lemma X2_witness :
  exists orders w',
    generateOrders (sample_env db_up (1 # 2)) 10 initial_world = (Return orders, w') /\
    length orders = 10%nat /\
    Forall (fun order => (1 <= userId order <= 50)%Z /\ (10 <= price order <= 1000)%Z)
           orders /\
    faker_seq w' = 30%N.
Proof.
  destruct (X2_generateOrders_batch (sample_env db_up (1 # 2)) 10 initial_world)
    as (orders & w' & Hgen & Hlen & Hall & _ & _ & _ & Hfaker).
  - intros k min max Hle. cbn [faker_number sample_env]. lia.
  - exists orders, w'. repeat split; assumption.
Defined.

(** ** Further properties: the route handlers *)

(** [serve] around the handler: what the two middlewares do before it and
    what the [finish] listener does after it. *)
Lemma serve_dispatch (env : Env) (rq : Request) (w w5 : World) (response : Response) :
  dispatch env rq (entering env rq w) = (Return response, w5) ->
  serve env rq w = (Return response, leaving env rq w response w5).
Proof.
  intros Hdispatch. unfold serve.
  do 4 (erewrite bind_return by (cbn; reflexivity)).
  erewrite bind_return by exact Hdispatch.
  do 3 (erewrite bind_return by (cbn; reflexivity)).
  cbn. reflexivity.
Qed.

Lemma serve_total (env : Env) (rq : Request) (w : World) :
  exists response w5,
    dispatch env rq (entering env rq w) = (Return response, w5) /\
    serve env rq w = (Return response, leaving env rq w response w5).
Proof.
  destruct (dispatch_always_responds env rq (entering env rq w)) as (resp & w5 & H).
  exists resp, w5. split; [exact H | apply serve_dispatch; exact H].
Qed.

(** X3.  [/api/users/filter?age=z] for an integer [z] in decimal
    notation: [parseInt] gives the number nearest to [z], which is [z]
    itself when [z] has at most 53 bits; the handler invokes the query
    capability with that number as the comparison parameter, and the
    first statement the database then receives carries it. *)
Theorem X3_numeric_age_is_the_query_parameter
    (env : Env) (rq : Request) (w : World) (z : Z) :
  route rq = ApiUsersFilter ->
  age rq = Some (Js.show_Z z) ->
  let n := Js.to_number (inject_Z z) in
  Js.parseInt (Js.show_Z z) = n /\
  ((Z.abs z <= 2 ^ 53)%Z -> n = Js.Fin (inject_Z z)) /\
  exists response w' text' rest,
    serve env rq w = (Return response, w') /\
    new_events w w'
      = EvTimeout (networkLatency (random env (rnd_seq w)))
        :: EvInvoke (Wrapper (req_id rq) (Bound (pool_query w)))
             select_filter (Some [ Js.VNum n ])
        :: EvDb text' (Some [ Js.VNum n ])
        :: rest.
Proof.
  intros Hroute Hage n. split; [apply parseInt_show_Z|].
  split; [apply to_number_Z|].
  destruct (api_users_filter_queries env rq (entering env rq w) (Js.show_Z z) Hage
              (show_Z_not_empty z))
    as (resp & w5 & text' & rest & Hhandler & Htrace).
  rewrite parseInt_show_Z in Htrace. fold n in Htrace.
  exists resp. eexists. exists text'. eexists.
  split.
  { apply serve_dispatch. unfold dispatch. rewrite Hroute. exact Hhandler. }
  apply new_events_app. unfold leaving. cbn [trace]. rewrite Htrace.
  unfold entering. cbn [trace pool_query].
  rewrite <- !app_assoc. cbn [app]. reflexivity.
Qed.

(** X3 for [GET /api/users/filter?age=30] on a fresh process. *)
Lemma X3_witness :
  let env := sample_env db_up (1 # 2) in
  let rq := get ApiUsersFilter "/api/users/filter?age=30" (Some "30"%string) 1 in
  Js.parseInt "30" = Js.Fin 30 /\
  ((Z.abs 30 <= 2 ^ 53)%Z -> Js.Fin 30 = Js.Fin 30) /\
  exists response w' text' rest,
    serve env rq initial_world = (Return response, w') /\
    new_events initial_world w'
      = EvTimeout 55
        :: EvInvoke (Wrapper 1 (Bound Native)) select_filter (Some [ Js.of_Z 30 ])
        :: EvDb text' (Some [ Js.of_Z 30 ])
        :: rest.
Proof.
  intros env rq.
  apply (X3_numeric_age_is_the_query_parameter env rq initial_world 30).
  - reflexivity.
  - reflexivity.
Defined.




(** ** Further properties: the wrapper *)

Lemma query_plan_pure (explainResult : DbResult) (w : World) :
  snd (query_plan explainResult w) = w.
Proof. unfold query_plan. destruct (rows explainResult); reflexivity. Qed.

Lemma plan_match_pure (plan : Js.Val) (w : World) :
  snd (plan_match plan w) = w.
Proof. destruct plan; reflexivity. Qed.

(** One call of a wrapper whose captured capability is not instrumented,
    by the replies of the database. *)
Lemma wrapper_call_clean (env : Env) (req : nat) (o : Cap)
    (text : string) (params : Params) (w : World) :
  instrumented o = false ->
  exists r w',
    call env (Wrapper req o) text params w = (r, w') /\
    pool_query w' = o /\
    errors_total w' = errors_total w /\
    rnd_seq w' = rnd_seq w /\
    wrapped_outcome env req text params w [] r w'.
Proof.
  intros Hclean. unfold wrapped_outcome. set (explain := ("EXPLAIN " ++ text)%string).
  cbn [call]. erewrite bind_return by reflexivity.
  rewrite !(call_not_instrumented env o _ _ Hclean).
  unfold try_finally, try_catch.
  unfold bind at 1. unfold query_db at 1.
  cbn [db_seq trace pool_query errors_total rnd_seq clk_seq faker_seq].
  fold explain.
  destruct (db env (db_seq w) explain params) as [er | e]; cbn [plan_unreadable].
  2:{ eexists. eexists. split; [cbn; reflexivity|]. cbn.
      repeat split. exists e. repeat split. rewrite <- app_assoc. reflexivity. }
  unfold bind at 1. unfold query_plan.
  destruct (rows er) as [| row rest].
  { eexists. eexists. split; [cbn; reflexivity|]. cbn.
    repeat split. eexists. repeat split. rewrite <- app_assoc. reflexivity. }
  unfold ret at 1. unfold bind at 1.
  assert (Hfail : forall (v : Js.Val) W,
             (forall s, v <> Js.VStr s) ->
             plan_match v W
             = (Throw (Js.mkExn Js.TypeError "plan.match is not a function"), W)).
  { intros v W Hv. destruct v; try reflexivity. exfalso. apply (Hv s). reflexivity. }
  destruct (Winston.assoc "QUERY PLAN" row) as [v |] eqn:Hassoc.
  - destruct v as [| | b | n | s].
    + cbn [Js.truthy plan_match]. unfold ret at 1. unfold bind at 1. unfold query_db at 1.
      cbn [db_seq trace pool_query errors_total rnd_seq clk_seq faker_seq].
      destruct (db env (N.succ (db_seq w)) text params) as [res | e].
      * eexists. eexists. split; [cbn; reflexivity|]. cbn.
        repeat split. eexists. rewrite <- !app_assoc. cbn. reflexivity.
      * eexists. eexists. split; [cbn; reflexivity|]. cbn.
        repeat split. rewrite <- !app_assoc. reflexivity.
    + cbn [Js.truthy plan_match]. unfold ret at 1. unfold bind at 1. unfold query_db at 1.
      cbn [db_seq trace pool_query errors_total rnd_seq clk_seq faker_seq].
      destruct (db env (N.succ (db_seq w)) text params) as [res | e].
      * eexists. eexists. split; [cbn; reflexivity|]. cbn.
        repeat split. eexists. rewrite <- !app_assoc. cbn. reflexivity.
      * eexists. eexists. split; [cbn; reflexivity|]. cbn.
        repeat split. rewrite <- !app_assoc. reflexivity.
    + cbn [Js.truthy]. destruct b.
      * eexists. eexists. split; [cbn; reflexivity|]. cbn.
        repeat split. eexists. repeat split. rewrite <- app_assoc. reflexivity.
      * cbn [plan_match]. unfold ret at 1. unfold bind at 1. unfold query_db at 1.
        cbn [db_seq trace pool_query errors_total rnd_seq clk_seq faker_seq].
        destruct (db env (N.succ (db_seq w)) text params) as [res | e].
        -- eexists. eexists. split; [cbn; reflexivity|]. cbn.
           repeat split. eexists. rewrite <- !app_assoc. cbn. reflexivity.
        -- eexists. eexists. split; [cbn; reflexivity|]. cbn.
           repeat split. rewrite <- !app_assoc. reflexivity.
    + destruct (Js.truthy (Js.VNum n)) eqn:Htruthy.
      * eexists. eexists. split; [cbn; reflexivity|]. cbn.
        repeat split. eexists. repeat split. rewrite <- app_assoc. reflexivity.
      * cbn [plan_match]. unfold ret at 1. unfold bind at 1. unfold query_db at 1.
        cbn [db_seq trace pool_query errors_total rnd_seq clk_seq faker_seq].
        destruct (db env (N.succ (db_seq w)) text params) as [res | e].
        -- eexists. eexists. split; [cbn; reflexivity|]. cbn.
           repeat split. eexists. rewrite <- !app_assoc. cbn. reflexivity.
        -- eexists. eexists. split; [cbn; reflexivity|]. cbn.
           repeat split. rewrite <- !app_assoc. reflexivity.
    + assert (Hplan : exists s', (if Js.truthy (Js.VStr s) then Js.VStr s else Js.VStr "N/A")
                                 = Js.VStr s')
        by (destruct (Js.truthy (Js.VStr s)); eauto).
      destruct Hplan as [s' Hplan]. rewrite Hplan.
      cbn [plan_match]. unfold ret at 1. unfold bind at 1. unfold query_db at 1.
      cbn [db_seq trace pool_query errors_total rnd_seq clk_seq faker_seq].
      destruct (db env (N.succ (db_seq w)) text params) as [res | e].
      * eexists. eexists. split; [cbn; reflexivity|]. cbn.
        repeat split. eexists. rewrite <- !app_assoc. cbn. reflexivity.
      * eexists. eexists. split; [cbn; reflexivity|]. cbn.
        repeat split. rewrite <- !app_assoc. reflexivity.
  - cbn [Js.truthy plan_match]. unfold ret at 1. unfold bind at 1. unfold query_db at 1.
    cbn [db_seq trace pool_query errors_total rnd_seq clk_seq faker_seq].
    destruct (db env (N.succ (db_seq w)) text params) as [res | e].
    + eexists. eexists. split; [cbn; reflexivity|]. cbn.
      repeat split. eexists. rewrite <- !app_assoc. cbn. reflexivity.
    + eexists. eexists. split; [cbn; reflexivity|]. cbn.
      repeat split. rewrite <- !app_assoc. reflexivity.
Qed.


Lemma statements_app (a b : list Event) :
  statements (a ++ b) = statements a ++ statements b.
Proof.
  induction a as [| ev a IH]; [reflexivity|].
  destruct ev; simpl; rewrite IH; reflexivity.
Qed.

Lemma statements_writes (e : Winston.Entry) : statements (writes e) = [].
Proof.
  unfold writes. induction (Winston.destinations e) as [| s l IH]; [reflexivity|].
  simpl. exact IH.
Qed.

(** X5.  A call through a wrapper over a capability that is not
    instrumented, when it returns: the caller gets the reply of the
    database to the statement itself, which was sent second, after its
    [EXPLAIN]; the db entry and the [queryComplexity] record carry the
    same cost and the same duration, which is not negative when the clock
    does not run backwards; the captured capability is back in the slot
    and the error counter is untouched. *)
Theorem X5_wrapped_call_returns_the_reply_to_the_statement
    (env : Env) (req : nat) (o : Cap) (text : string) (params : Params)
    (w w' : World) (result : DbResult) :
  clock_monotone env ->
  instrumented o = false ->
  call env (Wrapper req o) text params w = (Return result, w') ->
  db env (N.succ (db_seq w)) text params = Rows result /\
  plan_unreadable (db env (db_seq w) ("EXPLAIN " ++ text)%string params) = false /\
  (exists cost duration,
     new_events w w'
       = EvDb ("EXPLAIN " ++ text)%string params
         :: EvDb text params
         :: writes (executed_query_entry text params duration cost result)
         ++ [ EvRecord req text cost duration ] /\
     (0 <= duration)%Z) /\
  db_seq w' = (db_seq w + 2)%N /\
  pool_query w' = o /\
  errors_total w' = errors_total w.
Proof.
  intros Hclock Hclean Hcall.
  destruct (wrapper_call_clean env req o text params w Hclean)
    as (r & w1 & Hrun & Hslot & Herr & _ & Hout).
  rewrite Hcall in Hrun. inversion Hrun; subst r w1; clear Hrun.
  unfold wrapped_outcome in Hout.
  destruct (plan_unreadable (db env (db_seq w) ("EXPLAIN " ++ text)%string params)).
  { destruct Hout as (err & Hr & _). discriminate Hr. }
  destruct (db env (N.succ (db_seq w)) text params) as [res | err].
  2:{ destruct Hout as (Hr & _). discriminate Hr. }
  destruct Hout as (Hr & (cost & Htrace) & Hdb & _).
  injection Hr as <-.
  split; [reflexivity|]. split; [reflexivity|].
  split.
  { exists cost. eexists. split.
    - apply new_events_app. exact Htrace.
    - assert (now env (clk_seq w) <= now env (N.succ (clk_seq w)))%Z; [|lia].
      apply Hclock. lia. }
  split; [lia|]. split; assumption.
Qed.

(** X5 for [SELECT * FROM users] on a fresh process. *)
Lemma X5_witness :
  let env := sample_env db_up (1 # 2) in
  let text := "SELECT * FROM users"%string in
  exists result,
    db env 1%N text None = Rows result /\
    rowCount result = Some 2%Z.
Proof.
  intros env text.
  pose (run := call env (Wrapper 1 (Bound Native)) text None initial_world).
  pose (result := mkResult
                    [ [ ("id", Js.of_Z 1); ("name", Js.VStr "User 1") ];
                      [ ("id", Js.of_Z 2); ("name", Js.VStr "User 2") ] ]
                    (Some 2%Z)).
  assert (Hclock : clock_monotone env).
  { intros i j Hij. unfold env, sample_env, now. lia. }
  assert (Hrun : run = (Return result, snd run)) by (vm_compute; reflexivity).
  destruct (X5_wrapped_call_returns_the_reply_to_the_statement
              env 1 (Bound Native) text None initial_world (snd run) result
              Hclock eq_refl Hrun) as (Hreply & _).
  exists result. split; [exact Hreply | reflexivity].
Defined.

(** X6.  A call through a wrapper over a capability that is not
    instrumented sends the database the [EXPLAIN] of the statement and
    then, only if a plan text could be read from the reply, the statement
    itself.  Without a plan text the call fails, the error is logged as a
    query error and the statement is never sent. *)
Theorem X6_statement_is_sent_only_after_a_readable_plan
    (env : Env) (req : nat) (o : Cap) (text : string) (params : Params)
    (w w' : World) (r : Outcome DbResult) :
  instrumented o = false ->
  call env (Wrapper req o) text params w = (r, w') ->
  let explain := ("EXPLAIN " ++ text)%string in
  statements (new_events w w')
    = (if plan_unreadable (db env (db_seq w) explain params)
       then [ explain ] else [ explain; text ]) /\
  (plan_unreadable (db env (db_seq w) explain params) = true ->
   exists err,
     r = Throw err /\
     new_events w w' = EvDb explain params :: writes (query_error_entry text err) /\
     db_seq w' = N.succ (db_seq w)).
Proof.
  intros Hclean Hcall explain.
  destruct (wrapper_call_clean env req o text params w Hclean)
    as (r1 & w1 & Hrun & _ & _ & _ & Hout).
  rewrite Hcall in Hrun. inversion Hrun; subst r1 w1; clear Hrun.
  unfold wrapped_outcome in Hout. fold explain in Hout.
  destruct (plan_unreadable (db env (db_seq w) explain params)).
  - destruct Hout as (err & Hr & Htrace & Hdb).
    apply new_events_app in Htrace. cbn [app] in Htrace.
    split.
    + rewrite Htrace. cbn [statements]. rewrite statements_writes. reflexivity.
    + intros _. exists err. auto.
  - split; [| discriminate].
    destruct (db env (N.succ (db_seq w)) text params) as [res | err].
    + destruct Hout as (_ & (cost & Htrace) & _).
      apply new_events_app in Htrace. cbn [app] in Htrace.
      rewrite Htrace. cbn [statements]. rewrite statements_app, statements_writes.
      reflexivity.
    + destruct Hout as (_ & Htrace & _).
      apply new_events_app in Htrace. cbn [app] in Htrace.
      rewrite Htrace. cbn [statements]. rewrite statements_writes. reflexivity.
Qed.

(** X6 with the database down. *)
Lemma X6_witness :
  let env := sample_env db_down (1 # 2) in
  let run := call env (Wrapper 1 (Bound Native)) "SELECT * FROM users" None initial_world in
  statements (new_events initial_world (snd run)) = [ "EXPLAIN SELECT * FROM users"%string ].
Proof.
  intros env run.
  destruct (X6_statement_is_sent_only_after_a_readable_plan
              env 1 (Bound Native) "SELECT * FROM users" None
              initial_world (snd run) (fst run))
    as (Hsent & _).
  - reflexivity.
  - apply surjective_pairing.
  - exact Hsent.
Defined.


Lemma written_to_app (s : Winston.Sink) (a b : list Event) :
  written_to s (a ++ b) = written_to s a ++ written_to s b.
Proof.
  induction a as [| ev a IH]; [reflexivity|].
  destruct ev; simpl; try exact IH.
  destruct (Winston.sink_eqb s s0); simpl; rewrite IH; reflexivity.
Qed.

(** A call site that finds in the slot a wrapper over a capability that is
    not instrumented. *)
Lemma pool_query_call_wrapped (env : Env) (req : nat) (o : Cap)
    (text : string) (params : Params) (w : World) :
  pool_query w = Wrapper req o ->
  instrumented o = false ->
  exists r w',
    pool_query_call env text params w = (r, w') /\
    pool_query w' = o /\
    errors_total w' = errors_total w /\
    rnd_seq w' = rnd_seq w /\
    wrapped_outcome env req text params w [ EvInvoke (Wrapper req o) text params ] r w'.
Proof.
  intros Hslot Hclean. unfold pool_query_call.
  do 2 (erewrite bind_return by reflexivity). rewrite Hslot.
  match goal with |- context [call env _ text params ?W] => set (w0 := W) end.
  destruct (wrapper_call_clean env req o text params w0 Hclean)
    as (r & w' & Hrun & Hs & He & Hr & Hout).
  exists r, w'. split; [exact Hrun|]. split; [exact Hs|].
  split; [exact He|]. split; [exact Hr|].
  unfold wrapped_outcome in *. subst w0.
  cbn [db_seq clk_seq trace] in Hout.
  destruct (plan_unreadable _).
  - destruct Hout as (err & H1 & H2 & H3). exists err.
    split; [exact H1|]. split; [|exact H3].
    rewrite H2. rewrite <- !app_assoc. reflexivity.
  - destruct (db env (N.succ (db_seq w)) text params).
    + destruct Hout as (H1 & (cost & H2) & H3 & H4).
      split; [exact H1|]. split; [|split; assumption].
      exists cost. rewrite H2. rewrite <- !app_assoc. reflexivity.
    + destruct Hout as (H1 & H2 & H3).
      split; [exact H1|]. split; [|exact H3].
      rewrite H2. rewrite <- !app_assoc. reflexivity.
Qed.

(** X7.  [GET /api/users] on a slot that is not instrumented.  The
    database receives the [EXPLAIN] and, if a plan text was read, the
    statement.  When the statement is answered, the response is 200 with
    the rows of that answer and nothing is counted or written to the
    error log; otherwise the response is 500 with the fixed body
    [{ error: 'Internal server error' }], the error is counted once, and
    the error log receives two entries for it: the wrapper's, then the
    handler's. *)
Theorem X7_api_users_answers_by_the_database_replies
    (env : Env) (rq : Request) (w : World) :
  route rq = ApiUsers ->
  instrumented (pool_query w) = false ->
  exists response w',
    serve env rq w = (Return response, w') /\
    statements (new_events w w') = wrapped_statements env users_query None w /\
    pool_query w' = Bound (pool_query w) /\
    match wrapped_reply env users_query None w with
    | Some result =>
        response = mkResponse 200 (JsonRows (rows result)) /\
        errors_total w' = errors_total w /\
        written_to Winston.ErrorLog (new_events w w') = []
    | None =>
        response = mkResponse 500 (Json [ ("error", Js.VStr "Internal server error") ]) /\
        errors_total w' = S (errors_total w) /\
        exists err,
          written_to Winston.ErrorLog (new_events w w')
            = [ query_error_entry users_query err; users_error_entry err ]
    end.
Proof.
  intros Hroute Hclean.
  set (w4 := entering env rq w).
  set (wa := snd (Date_now env w4)).
  destruct (pool_query_call_wrapped env (req_id rq) (Bound (pool_query w))
              users_query None wa eq_refl Hclean)
    as (r1 & w1 & Hq & Hs1 & He1 & _ & Hout).
  unfold wrapped_outcome in Hout. cbn [db_seq wa w4 entering Date_now snd] in Hout.
  unfold wrapped_reply, wrapped_statements.
  destruct (plan_unreadable (db env (db_seq w) ("EXPLAIN " ++ users_query)%string None)).
  - destruct Hout as (err & Hr & Htrace & Hdb). subst r1.
    eexists. eexists. split.
    { apply serve_dispatch. unfold dispatch. rewrite Hroute. unfold api_users.
      erewrite try_catch_throw.
      2:{ erewrite bind_return by reflexivity.
          erewrite bind_throw by exact Hq. reflexivity. }
      do 2 (erewrite bind_return by reflexivity). reflexivity. }
    unfold leaving. cbn [trace pool_query errors_total status].
    erewrite new_events_app.
    2:{ rewrite Htrace. cbn [trace wa w4 entering Date_now snd].
        rewrite <- !app_assoc. cbn [app]. reflexivity. }
    split.
    { cbn [statements]. rewrite !statements_app, !statements_writes. reflexivity. }
    split; [exact Hs1|].
    split; [reflexivity|].
    split; [rewrite He1; reflexivity|].
    exists err. reflexivity.
  - destruct (db env (N.succ (db_seq w)) users_query None) as [result | err].
    + destruct Hout as (Hr & (cost & Htrace) & Hdb & Hclk). subst r1.
      eexists. eexists. split.
      { apply serve_dispatch. unfold dispatch. rewrite Hroute. unfold api_users.
        erewrite try_catch_return; [reflexivity|].
        erewrite bind_return by reflexivity.
        erewrite bind_return by exact Hq.
        do 2 (erewrite bind_return by reflexivity). reflexivity. }
      unfold leaving. cbn [trace pool_query errors_total status].
      erewrite new_events_app.
      2:{ rewrite Htrace. cbn [trace wa w4 entering Date_now snd].
          rewrite <- !app_assoc. cbn [app]. rewrite <- !app_assoc. reflexivity. }
      split.
      { cbn [statements]. rewrite !statements_app, !statements_writes. reflexivity. }
      split; [exact Hs1|].
      split; [reflexivity|].
      split; [exact He1|].
      reflexivity.
    + destruct Hout as (Hr & Htrace & Hdb). subst r1.
      eexists. eexists. split.
      { apply serve_dispatch. unfold dispatch. rewrite Hroute. unfold api_users.
        erewrite try_catch_throw.
        2:{ erewrite bind_return by reflexivity.
            erewrite bind_throw by exact Hq. reflexivity. }
        do 2 (erewrite bind_return by reflexivity). reflexivity. }
      unfold leaving. cbn [trace pool_query errors_total status].
      erewrite new_events_app.
      2:{ rewrite Htrace. cbn [trace wa w4 entering Date_now snd].
          rewrite <- !app_assoc. cbn [app]. reflexivity. }
      split.
      { cbn [statements]. rewrite !statements_app, !statements_writes. reflexivity. }
      split; [exact Hs1|].
      split; [reflexivity|].
      split; [rewrite He1; reflexivity|].
      exists err. reflexivity.
Qed.


(** X7 on a fresh process with the sample database. *)
Lemma X7_witness :
  let env := sample_env db_up (1 # 2) in
  let rq := get ApiUsers "/api/users" None 1 in
  exists response w',
    serve env rq initial_world = (Return response, w') /\
    statements (new_events initial_world w')
      = [ "EXPLAIN SELECT * FROM users"%string; "SELECT * FROM users"%string ] /\
    status response = 200%Z /\
    errors_total w' = 0%nat.
Proof.
  intros env rq.
  destruct (X7_api_users_answers_by_the_database_replies env rq initial_world)
    as (response & w' & Hserve & Hsent & _ & Hcase).
  - reflexivity.
  - reflexivity.
  - change (wrapped_reply env users_query None initial_world)
      with (Some (mkResult
                    [ [ ("id", Js.of_Z 1); ("name", Js.VStr "User 1") ];
                      [ ("id", Js.of_Z 2); ("name", Js.VStr "User 2") ] ]
                    (Some 2%Z))) in Hcase.
    destruct Hcase as (Hresp & Herr & _).
    exists response, w'. split; [exact Hserve|]. split; [exact Hsent|].
    split; [rewrite Hresp; reflexivity | exact Herr].
Defined.

(** X8.  [GET /api/users/filter] with a non-empty [age] on a slot that
    is not instrumented.  When the statement is answered, a draw below
    0.3 still turns the request into a 500 with
    [{ error: 'Random server failure' }], counted and logged as a filter
    error, although the database has executed the statement; otherwise
    the response is 200 with the rows.  When the query fails, the body of
    the 500 carries the message of the error that was caught. *)
Theorem X8_filter_can_fail_after_a_successful_query
    (env : Env) (rq : Request) (w : World) (s : string) :
  route rq = ApiUsersFilter ->
  age rq = Some s ->
  s <> EmptyString ->
  instrumented (pool_query w) = false ->
  let params := Some [ Js.VNum (Js.parseInt s) ] in
  exists response w',
    serve env rq w = (Return response, w') /\
    statements (new_events w w') = wrapped_statements env select_filter params w /\
    match wrapped_reply env select_filter params w with
    | Some result =>
        if Qltb (random env (N.succ (rnd_seq w))) (3 # 10)
        then response
               = mkResponse 500 (Json [ ("error", Js.VStr "Random server failure") ]) /\
             errors_total w' = S (errors_total w) /\
             written_to Winston.ErrorLog (new_events w w')
               = [ filter_error_entry (Js.mkExn Js.Error "Random server failure") ]
        else response = mkResponse 200 (JsonRows (rows result)) /\
             errors_total w' = errors_total w /\
             written_to Winston.ErrorLog (new_events w w') = []
    | None =>
        exists err,
          response = mkResponse 500 (Json [ ("error", Js.VStr (Js.message err)) ]) /\
          errors_total w' = S (errors_total w) /\
          written_to Winston.ErrorLog (new_events w w')
            = [ query_error_entry select_filter err; filter_error_entry err ]
    end.
Proof.
  intros Hroute Hage Hne Hclean params.
  assert (Hpresent : age_missing (Some s) = false).
  { simpl. apply String.eqb_neq in Hne. rewrite Hne. reflexivity. }
  set (w4 := entering env rq w).
  set (wa := snd (Date_now env w4)).
  destruct (pool_query_call_wrapped env (req_id rq) (Bound (pool_query w))
              select_filter params wa eq_refl Hclean)
    as (r1 & w1 & Hq & Hs1 & He1 & Hrnd & Hout).
  unfold wrapped_outcome in Hout. cbn [db_seq wa w4 entering Date_now snd] in Hout.
  cbn [rnd_seq wa w4 entering Date_now snd] in Hrnd.
  unfold wrapped_reply, wrapped_statements.
  destruct (plan_unreadable (db env (db_seq w) ("EXPLAIN " ++ select_filter)%string params)).
  - destruct Hout as (err & Hr & Htrace & Hdb). subst r1.
    eexists. eexists. split.
    { apply serve_dispatch. unfold dispatch. rewrite Hroute. unfold api_users_filter.
      rewrite Hage. cbv zeta. rewrite Hpresent. cbn [parseInt_age].
      erewrite try_catch_throw.
      2:{ erewrite bind_return by reflexivity.
          erewrite bind_throw by exact Hq. reflexivity. }
      do 2 (erewrite bind_return by reflexivity). reflexivity. }
    unfold leaving. cbn [trace pool_query errors_total status].
    erewrite new_events_app.
    2:{ rewrite Htrace. cbn [trace wa w4 entering Date_now snd].
        rewrite <- !app_assoc. cbn [app]. reflexivity. }
    split.
    { cbn [statements]. rewrite !statements_app, !statements_writes. reflexivity. }
    exists err. split; [reflexivity|].
    split; [rewrite He1; reflexivity|]. reflexivity.
  - destruct (db env (N.succ (db_seq w)) select_filter params) as [result | err].
    + destruct Hout as (Hr & (cost & Htrace) & Hdb & Hclk). subst r1.
      destruct (Qltb (random env (N.succ (rnd_seq w))) (3 # 10)) eqn:Hdraw.
      * eexists. eexists. split.
        { apply serve_dispatch. unfold dispatch. rewrite Hroute. unfold api_users_filter.
          rewrite Hage. cbv zeta. rewrite Hpresent. cbn [parseInt_age].
          erewrite try_catch_throw.
          2:{ erewrite bind_return by reflexivity.
              erewrite bind_return by exact Hq.
              do 2 (erewrite bind_return by reflexivity).
              cbn [rnd_seq]. rewrite Hrnd, Hdraw. reflexivity. }
          do 2 (erewrite bind_return by reflexivity). reflexivity. }
        unfold leaving. cbn [trace pool_query errors_total status].
        erewrite new_events_app.
        2:{ rewrite Htrace. cbn [trace wa w4 entering Date_now snd].
            rewrite <- !app_assoc. cbn [app]. rewrite <- !app_assoc. reflexivity. }
        split.
        { cbn [statements]. rewrite !statements_app, !statements_writes. reflexivity. }
        split; [reflexivity|].
        split; [rewrite He1; reflexivity|].
        cbn [written_to]. rewrite !written_to_app. reflexivity.
      * eexists. eexists. split.
        { apply serve_dispatch. unfold dispatch. rewrite Hroute. unfold api_users_filter.
          rewrite Hage. cbv zeta. rewrite Hpresent. cbn [parseInt_age].
          erewrite try_catch_return; [reflexivity|].
          erewrite bind_return by reflexivity.
          erewrite bind_return by exact Hq.
          do 2 (erewrite bind_return by reflexivity).
          cbn [rnd_seq]. rewrite Hrnd, Hdraw.
          erewrite bind_return by reflexivity. reflexivity. }
        unfold leaving. cbn [trace pool_query errors_total status].
        erewrite new_events_app.
        2:{ rewrite Htrace. cbn [trace wa w4 entering Date_now snd].
            rewrite <- !app_assoc. cbn [app]. rewrite <- !app_assoc. reflexivity. }
        split.
        { cbn [statements]. rewrite !statements_app, !statements_writes. reflexivity. }
        split; [reflexivity|].
        split; [exact He1|].
        cbn [written_to]. rewrite !written_to_app. reflexivity.
    + destruct Hout as (Hr & Htrace & Hdb). subst r1.
      eexists. eexists. split.
      { apply serve_dispatch. unfold dispatch. rewrite Hroute. unfold api_users_filter.
        rewrite Hage. cbv zeta. rewrite Hpresent. cbn [parseInt_age].
        erewrite try_catch_throw.
        2:{ erewrite bind_return by reflexivity.
            erewrite bind_throw by exact Hq. reflexivity. }
        do 2 (erewrite bind_return by reflexivity). reflexivity. }
      unfold leaving. cbn [trace pool_query errors_total status].
      erewrite new_events_app.
      2:{ rewrite Htrace. cbn [trace wa w4 entering Date_now snd].
          rewrite <- !app_assoc. cbn [app]. reflexivity. }
      split.
      { cbn [statements]. rewrite !statements_app, !statements_writes. reflexivity. }
      exists err. split; [reflexivity|].
      split; [rewrite He1; reflexivity|]. reflexivity.
Qed.

(** X8 for [GET /api/users/filter?age=30] on a fresh process, every draw
    being 1/10: the query runs and the request fails. *)
Lemma X8_witness :
  let env := sample_env db_up (1 # 10) in
  let rq := get ApiUsersFilter "/api/users/filter?age=30" (Some "30"%string) 1 in
  exists response w',
    serve env rq initial_world = (Return response, w') /\
    statements (new_events initial_world w')
      = [ ("EXPLAIN " ++ select_filter)%string; select_filter ] /\
    response = mkResponse 500 (Json [ ("error", Js.VStr "Random server failure") ]) /\
    errors_total w' = 1%nat.
Proof.
  intros env rq.
  destruct (X8_filter_can_fail_after_a_successful_query env rq initial_world "30")
    as (response & w' & Hserve & Hsent & Hcase).
  - reflexivity.
  - reflexivity.
  - discriminate.
  - reflexivity.
  - change (wrapped_reply env select_filter (Some [ Js.VNum (Js.parseInt "30") ])
              initial_world)
      with (Some (mkResult
                    [ [ ("id", Js.of_Z 1); ("name", Js.VStr "User 1") ];
                      [ ("id", Js.of_Z 2); ("name", Js.VStr "User 2") ] ]
                    (Some 2%Z))) in Hcase.
    change (Qltb (random env (N.succ (rnd_seq initial_world))) (3 # 10))
      with true in Hcase.
    destruct Hcase as (Hresp & Herr & _).
    exists response, w'. repeat split; assumption.
Defined.


(** When the database fails the next statement it receives, whatever the
    statement, a call through any capability fails with that very error:
    every wrapper on the way rethrows what it caught. *)
Lemma call_first_statement_fails (env : Env) (err : Js.Exn) (c : Cap) :
  forall text params w,
    next_statement_fails env w err ->
    exists w',
      call env c text params w = (Throw err, w') /\
      db_seq w' = N.succ (db_seq w) /\
      errors_total w' = errors_total w /\
      rnd_seq w' = rnd_seq w /\
      exists evs, trace w' = trace w ++ evs /\ Forall call_event evs /\
                  statements evs <> [].
Proof.
  induction c as [| target IH | req o IH]; intros text params w Hfail.
  - cbn [call]. unfold query_db. rewrite (Hfail text params).
    eexists. split; [reflexivity|]. cbn [db_seq errors_total rnd_seq trace].
    repeat split. eexists. split; [reflexivity|].
    split; [repeat constructor | discriminate].
  - cbn [call]. apply IH. exact Hfail.
  - cbn [call]. erewrite bind_return by reflexivity.
    match goal with |- context [try_finally _ _ ?W] => set (w0 := W) end.
    destruct (IH ("EXPLAIN " ++ text)%string params w0)
      as (w1 & Hinner & Hdb & Herr & Hrnd & evs & Htrace & Hevs & Hsent).
    { intros t p. apply Hfail. }
    unfold try_finally. erewrite try_catch_throw.
    2:{ erewrite bind_throw by exact Hinner. reflexivity. }
    eexists. split; [cbn; reflexivity|].
    cbn [db_seq errors_total rnd_seq trace].
    split; [exact Hdb|]. split; [exact Herr|]. split; [exact Hrnd|].
    exists (evs ++ writes (query_error_entry text err)).
    split; [rewrite Htrace; subst w0; cbn [trace]; rewrite <- app_assoc; reflexivity|].
    split.
    + apply Forall_app. split; [exact Hevs|].
      unfold writes. apply Forall_forall. intros ev Hin.
      apply in_map_iff in Hin. destruct Hin as (s & <- & _). reflexivity.
    + rewrite statements_app. destruct (statements evs); [congruence | discriminate].
Qed.

Lemma generateOrders_frame (env : Env) (count : nat) :
  forall w,
  exists orders w',
    generateOrders env count w = (Return orders, w') /\
    length orders = count /\
    trace w' = trace w /\
    pool_query w' = pool_query w /\
    db_seq w' = db_seq w /\
    errors_total w' = errors_total w /\
    rnd_seq w' = rnd_seq w /\
    clk_seq w' = clk_seq w.
Proof.
  induction count as [| count IH]; intros w; cbn [generateOrders].
  - exists [], w. repeat split.
  - do 3 (erewrite bind_return by reflexivity).
    match goal with
    | |- context [bind (generateOrders env count) _ ?W] =>
        destruct (IH W) as (orders & w' & Hgen & Hlen & H)
    end.
    erewrite bind_return by exact Hgen.
    eexists. exists w'. split; [reflexivity|].
    split; [simpl; rewrite Hlen; reflexivity | exact H].
Qed.

(** A call site when the database fails the next statement. *)
Lemma pool_query_call_fails (env : Env) (err : Js.Exn)
    (text : string) (params : Params) (w : World) :
  next_statement_fails env w err ->
  exists w',
    pool_query_call env text params w = (Throw err, w') /\
    db_seq w' = N.succ (db_seq w) /\
    errors_total w' = errors_total w /\
    exists evs, trace w' = trace w ++ evs.
Proof.
  intros Hfail. unfold pool_query_call.
  do 2 (erewrite bind_return by reflexivity).
  match goal with |- context [call env ?c text params ?W] =>
    destruct (call_first_statement_fails env err c text params W)
      as (w' & Hcall & Hdb & Herr & _ & evs & Htrace & _)
  end.
  { intros t p. apply Hfail. }
  exists w'. split; [exact Hcall|]. split; [exact Hdb|]. split; [exact Herr|].
  eexists. rewrite Htrace. cbn [trace]. rewrite <- app_assoc. reflexivity.
Qed.

(** X9.  When the database fails the first statement of a request with
    [err], whatever the slot holds: [/api/users] and
    [/api/orders/generate] answer 500 with their fixed bodies and keep
    the message of [err] for the log, whereas [/api/users/filter] puts
    that message in the body of its response.  Each time the error is
    counted once, the handler's entry reaches the error log and the
    database has received one statement. *)
Theorem X9_only_filter_discloses_the_database_error
    (env : Env) (rq : Request) (w : World) (err : Js.Exn) :
  next_statement_fails env w err ->
  route rq = ApiUsers \/ route rq = ApiOrdersGenerate \/
  (route rq = ApiUsersFilter /\ age_missing (age rq) = false) ->
  exists w',
    serve env rq w
      = (Return (mkResponse 500
                   (Json [ ("error", Js.VStr (catch_body (route rq) err)) ])), w') /\
    errors_total w' = S (errors_total w) /\
    In (EvWrite Winston.ErrorLog (catch_entry (route rq) err)) (new_events w w') /\
    db_seq w' = N.succ (db_seq w).
Proof.
  intros Hfail Hroute.
  set (w4 := entering env rq w).
  set (wa := snd (Date_now env w4)).
  destruct Hroute as [Hroute | [Hroute | [Hroute Hpresent]]]; rewrite Hroute.
  - destruct (pool_query_call_fails env err users_query None wa)
      as (w1 & Hq & Hdb & Herr & evs & Htrace).
    { intros t p. apply Hfail. }
    eexists. split.
    { apply serve_dispatch. unfold dispatch. rewrite Hroute. unfold api_users.
      erewrite try_catch_throw.
      2:{ erewrite bind_return by reflexivity.
          erewrite bind_throw by exact Hq. reflexivity. }
      do 2 (erewrite bind_return by reflexivity). reflexivity. }
    unfold leaving. cbn [trace errors_total db_seq].
    split; [rewrite Herr; reflexivity|]. split; [| exact Hdb].
    erewrite new_events_app.
    2:{ rewrite Htrace. cbn [trace wa w4 entering Date_now snd].
        rewrite <- !app_assoc. reflexivity. }
    apply in_or_app. right. apply in_or_app. right.
    apply in_or_app. left. cbn. auto.
  - destruct (generateOrders_frame env 10 wa)
      as (orders & wb & Hgen & Hlen & Htb & _ & Hdbb & Herrb & _).
    destruct orders as [| order orders]; [discriminate Hlen|].
    destruct (pool_query_call_fails env err insert_order (order_params order) wb)
      as (w1 & Hq & Hdb & Herr & evs & Htrace).
    { intros t p. rewrite Hdbb. apply Hfail. }
    eexists. split.
    { apply serve_dispatch. unfold dispatch. rewrite Hroute. unfold api_orders_generate.
      erewrite try_catch_throw.
      2:{ erewrite bind_return by reflexivity.
          erewrite bind_return by exact Hgen.
          erewrite bind_throw; [reflexivity|].
          cbn [insert_orders]. erewrite bind_throw by exact Hq. reflexivity. }
      do 2 (erewrite bind_return by reflexivity). reflexivity. }
    unfold leaving. cbn [trace errors_total db_seq].
    split; [rewrite Herr, Herrb; reflexivity|].
    split; [| rewrite Hdb, Hdbb; reflexivity].
    erewrite new_events_app.
    2:{ rewrite Htrace, Htb. cbn [trace wa w4 entering Date_now snd].
        rewrite <- !app_assoc. reflexivity. }
    apply in_or_app. right. apply in_or_app. right.
    apply in_or_app. left. cbn. auto.
  - destruct (pool_query_call_fails env err select_filter
                (Some [ Js.VNum (parseInt_age (age rq)) ]) wa)
      as (w1 & Hq & Hdb & Herr & evs & Htrace).
    { intros t p. apply Hfail. }
    eexists. split.
    { apply serve_dispatch. unfold dispatch. rewrite Hroute. unfold api_users_filter.
      cbv zeta. rewrite Hpresent.
      erewrite try_catch_throw.
      2:{ erewrite bind_return by reflexivity.
          erewrite bind_throw by exact Hq. reflexivity. }
      do 2 (erewrite bind_return by reflexivity). reflexivity. }
    unfold leaving. cbn [trace errors_total db_seq].
    split; [rewrite Herr; reflexivity|]. split; [| exact Hdb].
    erewrite new_events_app.
    2:{ rewrite Htrace. cbn [trace wa w4 entering Date_now snd].
        rewrite <- !app_assoc. reflexivity. }
    apply in_or_app. right. apply in_or_app. right.
    apply in_or_app. left. cbn. auto.
Qed.

(** X9 for [GET /api/users/filter?age=30] with the database down. *)
Lemma X9_witness :
  let env := sample_env db_down (1 # 2) in
  let rq := get ApiUsersFilter "/api/users/filter?age=30" (Some "30"%string) 1 in
  exists w',
    serve env rq initial_world
      = (Return (mkResponse 500 (Json [ ("error", Js.VStr "connect ECONNREFUSED") ])),
         w') /\
    errors_total w' = 1%nat /\
    db_seq w' = 1%N.
Proof.
  intros env rq.
  destruct (X9_only_filter_discloses_the_database_error env rq initial_world
              (Js.mkExn Js.Error "connect ECONNREFUSED"))
    as (w' & Hserve & Herr & _ & Hdb).
  - intros text params. reflexivity.
  - right. right. split; reflexivity.
  - exists w'. repeat split; assumption.
Defined.


(** ** Further properties: the slot and the counter across requests *)

(** The success path of [/api/compute]. *)
Lemma api_compute_passes (env : Env) (rq : Request) (w : World) :
  Qltb (random env (rnd_seq w + 1000000)) (8 # 10) = false ->
  exists result duration w',
    api_compute env rq w
      = (Return (mkResponse 200 (Json [ ("result", Js.VNum (Js.Fin result)) ])), w') /\
    trace w' = trace w ++ writes start_computation_entry
                       ++ writes (computation_completed_entry env result duration) /\
    errors_total w' = errors_total w /\
    pool_query w' = pool_query w /\
    db_seq w' = db_seq w.
Proof.
  intros Hpass. unfold api_compute.
  set (w2 := mkWorld (pool_query w) (errors_total w)
               (trace w ++ writes start_computation_entry)
               (db_seq w) (rnd_seq w) (N.succ (clk_seq w)) (faker_seq w)).
  destruct (heavy_computation_spec env 1000000 w2) as (result & Hloop).
  exists result. eexists. eexists.
  split.
  { erewrite try_catch_return; [reflexivity|].
    erewrite bind_return by reflexivity.
    erewrite bind_return by reflexivity.
    erewrite bind_return by exact Hloop.
    erewrite bind_return by reflexivity.
    erewrite bind_return by reflexivity.
    cbn [rnd_seq w2]. rewrite Hpass.
    erewrite bind_return by reflexivity. reflexivity. }
  cbn [trace errors_total pool_query db_seq w2].
  split; [rewrite <- !app_assoc; reflexivity|]. repeat split.
Qed.

(** The handler of a request, started behind the wrapper of the request:
    either no call site is reached and the wrapper stays in the slot, or
    one is and the captured capability is in the slot afterwards. *)
Lemma dispatch_slot (env : Env) (rq : Request) (w : World) (req : nat) (o : Cap) :
  pool_query w = Wrapper req o ->
  instrumented o = false \/ rejects_nested_explain env ->
  exists response w' evs,
    dispatch env rq w = (Return response, w') /\
    trace w' = trace w ++ evs /\
    ((invocations evs = [] /\ pool_query w' = Wrapper req o) \/
     (invocations evs <> [] /\ pool_query w' = o)).
Proof.
  intros Hslot Hcase. unfold dispatch.
  destruct (route rq) eqn:Hroute.
  - set (wa := snd (Date_now env w)).
    destruct (pool_query_call_events env users_query None wa)
      as (r1 & w1 & evs1 & Hq & Ht1 & _).
    assert (Hs1 : pool_query w1 = o).
    { unfold pool_query_call in Hq.
      do 2 (erewrite bind_return in Hq by reflexivity).
      cbn [pool_query wa Date_now snd] in Hq. rewrite Hslot in Hq.
      exact (call_wrapper_restores _ _ _ _ _ _ _ _ Hq). }
    cbn [trace pool_query wa Date_now snd] in Ht1.
    unfold api_users. destruct r1 as [res | e].
    + eexists. eexists. eexists. split.
      { erewrite try_catch_return; [reflexivity|].
        erewrite bind_return by reflexivity.
        erewrite bind_return by exact Hq.
        do 2 (erewrite bind_return by reflexivity). reflexivity. }
      cbn [trace pool_query]. rewrite Ht1. rewrite <- !app_assoc.
      split; [reflexivity|]. right. split; [discriminate | exact Hs1].
    + eexists. eexists. eexists. split.
      { erewrite try_catch_throw.
        2:{ erewrite bind_return by reflexivity.
            erewrite bind_throw by exact Hq. reflexivity. }
        do 2 (erewrite bind_return by reflexivity). reflexivity. }
      cbn [trace pool_query]. rewrite Ht1. rewrite <- !app_assoc.
      split; [reflexivity|]. right. split; [discriminate | exact Hs1].
  - destruct (api_orders_generate_spec env rq w req o Hslot Hcase)
      as (resp & w' & order & orders & first_call & k & tail & Hrun & Htrace & _ & _
          & _ & _ & _ & Hs).
    exists resp, w'. eexists. split; [exact Hrun|]. split; [exact Htrace|].
    right. split; [discriminate | exact Hs].
  - unfold api_users_filter. cbv zeta.
    destruct (age_missing (age rq)) eqn:Hmissing.
    + eexists. eexists. eexists. split.
      { erewrite try_catch_throw by reflexivity.
        do 2 (erewrite bind_return by reflexivity). reflexivity. }
      cbn [trace pool_query]. split; [reflexivity|].
      left. split; [apply invocations_writes | exact Hslot].
    + set (wa := snd (Date_now env w)).
      destruct (pool_query_call_events env select_filter
                  (Some [ Js.VNum (parseInt_age (age rq)) ]) wa)
        as (r1 & w1 & evs1 & Hq & Ht1 & _).
      assert (Hs1 : pool_query w1 = o).
      { unfold pool_query_call in Hq.
        do 2 (erewrite bind_return in Hq by reflexivity).
        cbn [pool_query wa Date_now snd] in Hq. rewrite Hslot in Hq.
        exact (call_wrapper_restores _ _ _ _ _ _ _ _ Hq). }
      cbn [trace pool_query wa Date_now snd] in Ht1.
      destruct r1 as [res | e].
      * destruct (Qltb (random env (rnd_seq w1)) (3 # 10)) eqn:Hdraw.
        -- eexists. eexists. eexists. split.
           { erewrite try_catch_throw.
             2:{ erewrite bind_return by reflexivity.
                 erewrite bind_return by exact Hq.
                 do 2 (erewrite bind_return by reflexivity).
                 cbn [rnd_seq]. rewrite Hdraw. reflexivity. }
             do 2 (erewrite bind_return by reflexivity). reflexivity. }
           cbn [trace pool_query]. rewrite Ht1. rewrite <- !app_assoc.
           split; [reflexivity|]. right. split; [discriminate | exact Hs1].
        -- eexists. eexists. eexists. split.
           { erewrite try_catch_return; [reflexivity|].
             erewrite bind_return by reflexivity.
             erewrite bind_return by exact Hq.
             do 2 (erewrite bind_return by reflexivity).
             cbn [rnd_seq]. rewrite Hdraw.
             erewrite bind_return by reflexivity. reflexivity. }
           cbn [trace pool_query]. rewrite Ht1. rewrite <- !app_assoc.
           split; [reflexivity|]. right. split; [discriminate | exact Hs1].
      * eexists. eexists. eexists. split.
        { erewrite try_catch_throw.
          2:{ erewrite bind_return by reflexivity.
              erewrite bind_throw by exact Hq. reflexivity. }
          do 2 (erewrite bind_return by reflexivity). reflexivity. }
        cbn [trace pool_query]. rewrite Ht1. rewrite <- !app_assoc.
        split; [reflexivity|]. right. split; [discriminate | exact Hs1].
  - destruct (Qltb (random env (rnd_seq w + 1000000)) (8 # 10)) eqn:Hdraw.
    + eexists. eexists. eexists. split.
      { erewrite try_catch_throw by (apply api_compute_failure; exact Hdraw).
        reflexivity. }
      cbn [trace pool_query]. split; [reflexivity|].
      left. split; [apply invocations_writes | exact Hslot].
    + destruct (api_compute_passes env rq w Hdraw)
        as (result & duration & w' & Hrun & Htrace & _ & Hs & _).
      eexists. exists w'. eexists. split.
      { erewrite try_catch_return by exact Hrun. reflexivity. }
      split; [exact Htrace|].
      left. split; [| rewrite Hs; exact Hslot].
      rewrite invocations_app, !invocations_writes. reflexivity.
  - eexists. exists w, []. split; [reflexivity|].
    split; [rewrite app_nil_r; reflexivity|]. left. split; [reflexivity | exact Hslot].
  - eexists. exists w, []. split; [reflexivity|].
    split; [rewrite app_nil_r; reflexivity|]. left. split; [reflexivity | exact Hslot].
Qed.

Lemma serve_slot (env : Env) (rq : Request) (w : World) :
  instrumented (pool_query w) = false \/ rejects_nested_explain env ->
  exists response w',
    serve env rq w = (Return response, w') /\
    ((invocations (new_events w w') = [] /\
      pool_query w' = Wrapper (req_id rq) (Bound (pool_query w))) \/
     (invocations (new_events w w') <> [] /\
      pool_query w' = Bound (pool_query w))).
Proof.
  intros Hcase.
  destruct (dispatch_slot env rq (entering env rq w) (req_id rq) (Bound (pool_query w))
              eq_refl Hcase)
    as (resp & w5 & evs & Hdispatch & Htrace & Hslot).
  exists resp. eexists. split; [apply serve_dispatch; exact Hdispatch|].
  unfold leaving. cbn [pool_query trace].
  erewrite new_events_app.
  2:{ rewrite Htrace. cbn [trace entering]. rewrite <- !app_assoc. reflexivity. }
  cbn [app invocations]. rewrite invocations_app. cbn [invocations].
  rewrite invocations_writes, app_nil_r.
  exact Hslot.
Qed.




Lemma rejects_nested_explain_db_up (draw : Q) :
  rejects_nested_explain (sample_env db_up draw).
Proof.
  intros k text params Hpre. cbn [db sample_env]. unfold db_up.
  rewrite Hpre. eexists. reflexivity.
Qed.

(** X11.  Requests served one after the other, on a database that
    rejects the [EXPLAIN] of an [EXPLAIN]: every request is answered, and
    each one adds one or two layers ([bind] or wrapper over [bind]) to
    what the slot holds.  The chain behind [pool.query] therefore grows
    with the number of requests served and the slot never holds the pg
    method again. *)
Theorem X11_slot_grows_with_every_request (env : Env) (rqs : list Request) (w : World) :
  rejects_nested_explain env ->
  exists responses w',
    serve_all env rqs w = (Return responses, w') /\
    length responses = length rqs /\
    (layers (pool_query w) + length rqs <= layers (pool_query w'))%nat /\
    (layers (pool_query w') <= layers (pool_query w) + 2 * length rqs)%nat /\
    (rqs <> [] -> pool_query w' <> Native).
Proof.
  intros Hpg.
  assert (Hall : forall rqs w,
             exists responses w',
               serve_all env rqs w = (Return responses, w') /\
               length responses = length rqs /\
               (layers (pool_query w) + length rqs <= layers (pool_query w'))%nat /\
               (layers (pool_query w') <= layers (pool_query w) + 2 * length rqs)%nat).
  { clear rqs w. induction rqs as [| rq rqs IH]; intros w; cbn [serve_all].
    - exists [], w. split; [reflexivity|]. simpl. repeat split; lia.
    - destruct (serve_slot env rq w (or_intror Hpg)) as (resp & w1 & Hserve & Hslot).
      destruct (IH w1) as (resps & w' & Hrest & Hlen & Hlo & Hhi).
      exists (resp :: resps), w'. split.
      { erewrite bind_return by exact Hserve.
        erewrite bind_return by exact Hrest. reflexivity. }
      split; [simpl; rewrite Hlen; reflexivity|].
      assert (Hstep : (layers (pool_query w) + 1 <= layers (pool_query w1)
                       <= layers (pool_query w) + 2)%nat).
      { destruct Hslot as [[_ ->] | [_ ->]]; cbn [layers]; lia. }
      cbn [length]. split; lia. }
  destruct (Hall rqs w) as (responses & w' & Hrun & Hlen & Hlo & Hhi).
  exists responses, w'. repeat split; try assumption.
  intros Hne Hnative. rewrite Hnative in Hlo. cbn [layers] in Hlo.
  destruct rqs; [congruence | simpl in Hlo; lia].
Qed.

(** X11 for a scrape followed by [GET /api/users] on a fresh process. *)
Lemma X11_witness :
  let env := sample_env db_up (1 # 2) in
  let rqs := [ get MetricsEndpoint "/metrics" None 1; get ApiUsers "/api/users" None 2 ] in
  exists responses w',
    serve_all env rqs initial_world = (Return responses, w') /\
    length responses = 2%nat /\
    (2 <= layers (pool_query w'))%nat /\
    (layers (pool_query w') <= 4)%nat /\
    pool_query w' <> Native.
Proof.
  intros env rqs.
  destruct (X11_slot_grows_with_every_request env rqs initial_world
              (rejects_nested_explain_db_up (1 # 2)))
    as (responses & w' & Hrun & Hlen & Hlo & Hhi & Hnever).
  exists responses, w'. split; [exact Hrun|]. split; [exact Hlen|].
  split; [exact Hlo|]. split; [exact Hhi|]. apply Hnever. discriminate.
Defined.

(** The handler of a request counts an error exactly when the response
    it leads to has status 500. *)
Lemma dispatch_counts (env : Env) (rq : Request) (w : World) :
  exists response w',
    dispatch env rq w = (Return response, w') /\
    errors_total w'
      = (errors_total w + if Z.eqb (status response) 500 then 1 else 0)%nat /\
    (status response = 200 \/ status response = 404 \/ status response = 500)%Z.
Proof.
  destruct (route rq) eqn:Hroute.
  1-3: destruct (async_handlers_catch_failures env rq w)
         as (resp & w' & Hrun & [[[Hst _] Herr] | [[Hst _] Herr]]);
       [ auto
       | exists resp, w'; rewrite Hst; cbn [Z.eqb Pos.eqb]; split; [exact Hrun|];
         split; [lia | auto]
       | exists resp, w'; rewrite Hst; cbn [Z.eqb Pos.eqb]; split; [exact Hrun|];
         split; [lia | auto] ].
  - unfold dispatch. rewrite Hroute.
    destruct (Qltb (random env (rnd_seq w + 1000000)) (8 # 10)) eqn:Hdraw.
    + eexists. eexists. split.
      { erewrite try_catch_throw by (apply api_compute_failure; exact Hdraw).
        reflexivity. }
      cbn [errors_total status express_error_page Z.eqb Pos.eqb].
      split; [lia | auto].
    + destruct (api_compute_passes env rq w Hdraw)
        as (result & duration & w' & Hrun & _ & Herr & _).
      eexists. exists w'. split.
      { erewrite try_catch_return by exact Hrun. reflexivity. }
      cbn [status Z.eqb Pos.eqb]. split; [lia | auto].
  - unfold dispatch. rewrite Hroute. eexists. exists w.
    split; [reflexivity|]. cbn [status Z.eqb Pos.eqb]. split; [lia | auto].
  - unfold dispatch. rewrite Hroute. eexists. exists w.
    split; [reflexivity|]. cbn [status Z.eqb Pos.eqb]. split; [lia | auto].
Qed.

(** X12.  Over any sequence of requests, [app_errors_total] grows by the
    number of responses with status 500, and every response has status
    200, 404 or 500: each failure is counted once, whichever handler it
    occurs in and whether the handler or Express answers it. *)
Theorem X12_error_counter_counts_the_500_responses
    (env : Env) (rqs : list Request) :
  forall w,
  exists responses w',
    serve_all env rqs w = (Return responses, w') /\
    errors_total w' = (errors_total w + server_errors responses)%nat /\
    Forall (fun r => status r = 200 \/ status r = 404 \/ status r = 500)%Z responses.
Proof.
  induction rqs as [| rq rqs IH]; intros w; cbn [serve_all].
  - exists [], w. split; [reflexivity|]. split; [unfold server_errors; simpl; lia | constructor].
  - destruct (dispatch_counts env rq (entering env rq w))
      as (resp & w5 & Hdispatch & Herr & Hst).
    destruct (IH (leaving env rq w resp w5)) as (resps & w' & Hrest & Herrs & Hall).
    exists (resp :: resps), w'. split.
    { erewrite bind_return by (apply serve_dispatch; exact Hdispatch).
      erewrite bind_return by exact Hrest. reflexivity. }
    split; [| constructor; assumption].
    rewrite Herrs. unfold leaving. cbn [errors_total]. rewrite Herr.
    unfold entering. cbn [errors_total]. unfold server_errors. cbn [filter].
    destruct (Z.eqb (status resp) 500); cbn [length]; lia.
Qed.


(** ** Further properties: start-up *)

(** A call site that finds in the slot a capability that is not
    instrumented: the statement goes straight to the database. *)
Lemma pool_query_call_clean (env : Env) (text : string) (params : Params) (w : World) :
  instrumented (pool_query w) = false ->
  pool_query_call env text params w
    = match db env (db_seq w) text params with
      | Rows r => (Return r, after_plain_query text params w)
      | Failed e => (Throw e, after_plain_query text params w)
      end.
Proof.
  intros Hclean. unfold pool_query_call.
  do 2 (erewrite bind_return by reflexivity).
  rewrite (call_not_instrumented env _ _ _ Hclean).
  unfold query_db. cbn [db_seq trace pool_query errors_total rnd_seq clk_seq faker_seq].
  destruct (db env (db_seq w) text params); reflexivity.
Qed.

(** The readiness loop on a slot that is not instrumented: [j] attempts
    fail, and the next one, if any is left, succeeds. *)
Lemma waitForPostgres_loop_clean (env : Env) (retries : nat) :
  forall w,
    instrumented (pool_query w) = false ->
    exists j w',
      waitForPostgres_loop env retries w = (Return tt, w') /\
      (j <= retries)%nat /\
      (forall i, (i < j)%nat ->
                 exists e, db env (db_seq w + N.of_nat i) liveness_query None = Failed e) /\
      ((j < retries)%nat ->
       exists r, db env (db_seq w + N.of_nat j) liveness_query None = Rows r) /\
      trace w'
        = trace w
          ++ concat (repeat (failed_attempt (pool_query w)) j)
          ++ (if (j <? retries)%nat then successful_attempt (pool_query w) else []) /\
      db_seq w' = (db_seq w + N.of_nat j + if (j <? retries)%nat then 1 else 0)%N /\
      pool_query w' = pool_query w /\
      errors_total w' = errors_total w /\
      rnd_seq w' = rnd_seq w.
Proof.
  induction retries as [| retries IH]; intros w Hclean.
  - exists 0%nat, w. split; [reflexivity|]. split; [lia|].
    split; [intros i Hi; lia|]. split; [intros Hj; lia|].
    cbn. rewrite app_nil_r, N.add_0_r, N.add_0_r. repeat split.
  - cbn [waitForPostgres_loop]. fold liveness_query.
    pose proof (pool_query_call_clean env liveness_query None w Hclean) as Hq.
    destruct (db env (db_seq w) liveness_query None) as [res | err] eqn:Hreply.
    + exists 0%nat. eexists. split.
      { erewrite bind_return.
        2:{ apply try_catch_return. erewrite bind_return by exact Hq.
            erewrite bind_return by reflexivity. reflexivity. }
        reflexivity. }
      split; [lia|]. split; [intros i Hi; lia|].
      split; [intros _; exists res; rewrite N.add_0_r; exact Hreply|].
      cbn [trace db_seq pool_query errors_total rnd_seq after_plain_query
           repeat concat app Nat.ltb Nat.leb successful_attempt].
      split; [rewrite <- !app_assoc; reflexivity|].
      split; [lia|]. repeat split.
    + erewrite bind_return.
      2:{ erewrite try_catch_throw.
          2:{ erewrite bind_throw by exact Hq. reflexivity. }
          erewrite bind_return by reflexivity.
          erewrite bind_return by reflexivity. reflexivity. }
      cbv iota.
      match goal with
      | |- context [waitForPostgres_loop env retries ?W] => set (w2 := W)
      end.
      destruct (IH w2 Hclean)
        as (j & w' & Hloop & Hle & Hfails & Hsucc & Htrace & Hdb & Hslot & Herr & Hrnd).
      exists (S j), w'. split; [exact Hloop|]. split; [lia|].
      split.
      { intros [| i] Hi.
        - exists err. rewrite N.add_0_r. exact Hreply.
        - destruct (Hfails i) as [e He]; [lia|]. exists e.
          rewrite <- He. subst w2. cbn [db_seq after_plain_query]. f_equal. lia. }
      split.
      { intros Hj. destruct Hsucc as [r Hr]; [lia|]. exists r.
        rewrite <- Hr. subst w2. cbn [db_seq after_plain_query]. f_equal. lia. }
      split.
      { rewrite Htrace. subst w2.
        cbn [trace pool_query after_plain_query repeat concat failed_attempt].
        change (S j <? S retries)%nat with (j <? retries)%nat.
        rewrite <- !app_assoc. cbn [app]. reflexivity. }
      split.
      { rewrite Hdb. subst w2. cbn [db_seq after_plain_query].
        change (S j <? S retries)%nat with (j <? retries)%nat. lia. }
      split; [exact Hslot|]. split; [exact Herr | exact Hrnd].
Qed.

(** X14.  [waitForPostgres] on a slot that is not instrumented: the
    number [j] of failed attempts is the rank of the first liveness
    statement the database answers, or 10 when it answers none.  The
    trace is [j] times the failed attempt - invocation, statement,
    waiting notice, 5000 ms wait - followed, when [j < 10], by the
    successful one, which ends with the connection notice; the loop waits
    [5000 j] ms in all, returns normally and leaves the slot and the
    error counter as they were. *)
Theorem X14_readiness_loop_stops_at_the_first_answer (env : Env) (w : World) :
  instrumented (pool_query w) = false ->
  exists j w',
    waitForPostgres env w = (Return tt, w') /\
    (j <= 10)%nat /\
    (forall i, (i < j)%nat ->
               exists e, db env (db_seq w + N.of_nat i) liveness_query None = Failed e) /\
    ((j < 10)%nat ->
     exists r, db env (db_seq w + N.of_nat j) liveness_query None = Rows r) /\
    new_events w w'
      = concat (repeat (failed_attempt (pool_query w)) j)
        ++ (if (j <? 10)%nat then successful_attempt (pool_query w) else []) /\
    timeouts (new_events w w') = repeat 5000%Z j /\
    pool_query w' = pool_query w /\
    errors_total w' = errors_total w.
Proof.
  intros Hclean.
  destruct (waitForPostgres_loop_clean env 10 w Hclean)
    as (j & w' & Hloop & Hle & Hfails & Hsucc & Htrace & _ & Hslot & Herr & _).
  exists j, w'. split; [exact Hloop|]. split; [exact Hle|].
  split; [exact Hfails|]. split; [exact Hsucc|].
  rewrite (new_events_app w w' _ Htrace).
  split; [reflexivity|].
  split; [| split; assumption].
  rewrite timeouts_app.
  assert (Hlast : timeouts (if (j <? 10)%nat then successful_attempt (pool_query w) else [])
                  = []) by (destruct (j <? 10)%nat; reflexivity).
  rewrite Hlast, app_nil_r.
  clear. induction j as [| j IH]; [reflexivity|].
  cbn [repeat concat]. rewrite timeouts_app, IH. reflexivity.
Qed.

(** X14 with the database down: ten failed attempts and nothing else. *)
Lemma X14_witness :
  exists j w',
    waitForPostgres (sample_env db_down (1 # 2)) initial_world = (Return tt, w') /\
    (j <= 10)%nat /\
    new_events initial_world w'
      = concat (repeat (failed_attempt Native) j)
        ++ (if (j <? 10)%nat then successful_attempt Native else []) /\
    timeouts (new_events initial_world w') = repeat 5000%Z j.
Proof.
  destruct (X14_readiness_loop_stops_at_the_first_answer
              (sample_env db_down (1 # 2)) initial_world)
    as (j & w' & Hloop & Hle & _ & _ & Htrace & Hwait & _).
  - reflexivity.
  - exists j, w'. repeat split; assumption.
Defined.


Lemma accepted_bound (env : Env) (users : list User) :
  forall k, (accepted env k users <= length users)%nat.
Proof.
  induction users as [| user users IH]; intros k; cbn [accepted length]; [lia|].
  specialize (IH (N.succ k)).
  destruct (db env k insert_user (user_params user)); lia.
Qed.

(** The insert loop of the start-up on a slot that is not instrumented. *)
Lemma insert_users_clean (env : Env) (users : list User) :
  forall insertedRows w,
    instrumented (pool_query w) = false ->
    exists w' evs,
      insert_users env users insertedRows w
        = (Return (insertedRows + Z.of_nat (accepted env (db_seq w) users))%Z, w') /\
      trace w' = trace w ++ evs /\
      statements evs = repeat insert_user (length users) /\
      console_lines evs = [] /\
      length (written_to Winston.AccessLog evs) = length users /\
      (length (written_to Winston.ErrorLog evs) + accepted env (db_seq w) users
       = length users)%nat /\
      errors_total w' = errors_total w /\
      db_seq w' = (db_seq w + N.of_nat (length users))%N /\
      pool_query w' = pool_query w.
Proof.
  induction users as [| user users IH]; intros insertedRows w Hclean;
    cbn [insert_users accepted].
  - exists w, []. rewrite app_nil_r, Z.add_0_r, N.add_0_r. repeat split.
  - pose proof (pool_query_call_clean env insert_user (user_params user) w Hclean) as Hq.
    unfold user_params in Hq at 1.
    destruct (db env (db_seq w) insert_user (user_params user)) as [res | err].
    + erewrite bind_return.
      2:{ apply try_catch_return. erewrite bind_return by exact Hq.
          erewrite bind_return by reflexivity. reflexivity. }
      match goal with
      | |- context [insert_users env users ?k ?W] =>
          destruct (IH k W Hclean)
            as (w' & evs & Hloop & Htrace & Hsent & Hcon & Hacc & Hfail & Herr & Hdb & Hslot)
      end.
      cbn [db_seq after_plain_query] in Hfail, Hdb.
      exists w'. eexists. split.
      { rewrite Hloop. cbn [db_seq after_plain_query]. f_equal. f_equal. lia. }
      split.
      { rewrite Htrace. cbn [trace after_plain_query]. rewrite <- !app_assoc.
        reflexivity. }
      cbn [app statements console_lines written_to Winston.sink_eqb length repeat].
      rewrite !statements_app, !console_lines_app, !written_to_app, !length_app.
      rewrite Hsent, Hcon, Hacc.
      split; [reflexivity|]. split; [reflexivity|]. split; [reflexivity|].
      split; [cbn; lia|]. split; [exact Herr|]. split; [lia | exact Hslot].
    + erewrite bind_return.
      2:{ erewrite try_catch_throw.
          2:{ erewrite bind_throw by exact Hq. reflexivity. }
          erewrite bind_return by reflexivity. reflexivity. }
      match goal with
      | |- context [insert_users env users ?k ?W] =>
          destruct (IH k W Hclean)
            as (w' & evs & Hloop & Htrace & Hsent & Hcon & Hacc & Hfail & Herr & Hdb & Hslot)
      end.
      cbn [db_seq after_plain_query] in Hfail, Hdb.
      exists w'. eexists. split.
      { rewrite Hloop. cbn [db_seq after_plain_query]. reflexivity. }
      split.
      { rewrite Htrace. cbn [trace after_plain_query]. rewrite <- !app_assoc.
        reflexivity. }
      cbn [app statements console_lines written_to Winston.sink_eqb length repeat].
      rewrite !statements_app, !console_lines_app, !written_to_app, !length_app.
      rewrite Hsent, Hcon, Hacc.
      split; [reflexivity|]. split; [reflexivity|]. split; [reflexivity|].
      split; [cbn; lia|]. split; [exact Herr|]. split; [lia | exact Hslot].
Qed.


(** X15.  The insert loop of the start-up, on a slot that is not
    instrumented: every user is sent to the database, one statement each;
    the count that is returned is the number of inserts the database
    accepted; each of the others leaves one entry in the error log and
    does not interrupt the loop; [app_errors_total] is not incremented. *)
Theorem X15_startup_inserts_count_the_accepted_users
    (env : Env) (users : list User) (w : World) :
  instrumented (pool_query w) = false ->
  exists w',
    insert_users env users 0 w
      = (Return (Z.of_nat (accepted env (db_seq w) users)), w') /\
    (accepted env (db_seq w) users <= length users)%nat /\
    statements (new_events w w') = repeat insert_user (length users) /\
    (length (written_to Winston.ErrorLog (new_events w w'))
     + accepted env (db_seq w) users = length users)%nat /\
    errors_total w' = errors_total w /\
    pool_query w' = pool_query w.
Proof.
  intros Hclean.
  destruct (insert_users_clean env users 0%Z w Hclean)
    as (w' & evs & Hloop & Htrace & Hsent & _ & _ & Hfail & Herr & _ & Hslot).
  exists w'. rewrite (new_events_app w w' evs Htrace).
  split; [exact Hloop|]. split; [apply accepted_bound|].
  repeat split; assumption.
Qed.

(** X15 for two users and a database that is down. *)
Lemma X15_witness :
  let users := [ mkUser "User 1" "user1@example.com" 30;
                 mkUser "User 2" "user2@example.com" 40 ] in
  exists w',
    insert_users (sample_env db_down (1 # 2)) users 0 initial_world = (Return 0%Z, w') /\
    length (written_to Winston.ErrorLog (new_events initial_world w')) = 2%nat /\
    errors_total w' = 0%nat.
Proof.
  intros users.
  destruct (X15_startup_inserts_count_the_accepted_users
              (sample_env db_down (1 # 2)) users initial_world)
    as (w' & Hloop & _ & _ & Hfail & Herr & _).
  - reflexivity.
  - exists w'. split; [exact Hloop|]. split; [| exact Herr].
    change (accepted (sample_env db_down (1 # 2)) (db_seq initial_world) users)
      with 0%nat in Hfail.
    rewrite Nat.add_0_r in Hfail. exact Hfail.
Defined.

Lemma generateUsers_from_frame (env : Env) (num : nat) :
  forall i w,
  exists users w',
    generateUsers_from env i num w = (Return users, w') /\
    length users = num /\
    trace w' = trace w /\
    pool_query w' = pool_query w /\
    db_seq w' = db_seq w /\
    errors_total w' = errors_total w /\
    rnd_seq w' = (rnd_seq w + N.of_nat num)%N.
Proof.
  induction num as [| num IH]; intros i w; cbn [generateUsers_from].
  - exists [], w. rewrite N.add_0_r. repeat split.
  - erewrite bind_return by reflexivity. cbv beta zeta.
    match goal with
    | |- context [bind (generateUsers_from env ?j num) _ ?W] =>
        destruct (IH j W) as (users & w' & Hgen & Hlen & Ht & Hs & Hd & He & Hr)
    end.
    erewrite bind_return by exact Hgen.
    eexists. exists w'. split; [reflexivity|].
    split; [simpl; rewrite Hlen; reflexivity|].
    split; [exact Ht|]. split; [exact Hs|]. split; [exact Hd|]. split; [exact He|].
    rewrite Hr. cbn [rnd_seq]. lia.
Qed.

Lemma failed_attempts_project (c : Cap) (j : nat) :
  statements (concat (repeat (failed_attempt c) j)) = repeat liveness_query j /\
  console_lines (concat (repeat (failed_attempt c) j)) = repeat waiting_line j /\
  written_to Winston.ErrorLog (concat (repeat (failed_attempt c) j)) = [].
Proof.
  induction j as [| j (IH1 & IH2 & IH3)]; [repeat split|].
  cbn [repeat concat].
  rewrite statements_app, console_lines_app, written_to_app, IH1, IH2, IH3.
  repeat split.
Qed.

(** The users [generateUsers] returns depend on the draws only. *)
Lemma generateUsers_from_draws (env : Env) (num : nat) :
  forall i w w',
    rnd_seq w = rnd_seq w' ->
    fst (generateUsers_from env i num w) = fst (generateUsers_from env i num w').
Proof.
  induction num as [| num IH]; intros i w w' Hrnd; cbn [generateUsers_from];
    [reflexivity|].
  erewrite (bind_return (Math_random env) _ w) by reflexivity.
  erewrite (bind_return (Math_random env) _ w') by reflexivity.
  cbv beta zeta. rewrite Hrnd.
  match goal with
  | |- fst (bind _ _ ?W1) = fst (bind _ _ ?W2) =>
      specialize (IH (i + 1)%Z W1 W2 eq_refl);
      destruct (generateUsers_from_frame env num (i + 1)%Z W1)
        as (users1 & w1 & Hgen1 & _);
      destruct (generateUsers_from_frame env num (i + 1)%Z W2)
        as (users2 & w2 & Hgen2 & _)
  end.
  rewrite Hgen1, Hgen2 in IH. cbn [fst] in IH. injection IH as IH. subst users2.
  erewrite bind_return by exact Hgen1.
  erewrite bind_return by exact Hgen2.
  reflexivity.
Qed.

(** X16.  The callback of [app.listen] on a slot that is not
    instrumented.  It returns normally whatever the database does.  The
    database receives the liveness statements of the readiness loop -
    [j] that it fails and, if [j < 10], the one it answers - and then
    the inserts of the fifty generated users, also when the loop gave up.
    The console shows the [j] waiting notices, the connection notice if
    there was one, and last [Inserted n users.], where [n] counts the
    inserts the database answered; the other [50 - n] are in the error
    log; [app_errors_total] is untouched. *)
Theorem X16_startup_reports_the_accepted_inserts (env : Env) (w : World) :
  instrumented (pool_query w) = false ->
  exists (j : nat) (users : list User) (w' : World),
    startup env w = (Return tt, w') /\
    (j <= 10)%nat /\
    (forall i, (i < j)%nat ->
               exists e, db env (db_seq w + N.of_nat i) liveness_query None = Failed e) /\
    ((j < 10)%nat ->
     exists r, db env (db_seq w + N.of_nat j) liveness_query None = Rows r) /\
    fst (generateUsers env 50 w) = Return users /\
    length users = 50%nat /\
    statements (new_events w w')
      = repeat liveness_query (j + if (j <? 10)%nat then 1 else 0)
        ++ repeat insert_user 50 /\
    console_lines (new_events w w')
      = repeat waiting_line j
        ++ (if (j <? 10)%nat then [ connected_line ] else [])
        ++ [ ("Inserted "
              ++ Js.show_Z
                   (Z.of_nat
                      (accepted env
                         (db_seq w + N.of_nat j + if (j <? 10)%nat then 1 else 0)
                         users))
              ++ " users.")%string ] /\
    (length (written_to Winston.ErrorLog (new_events w w'))
     + accepted env (db_seq w + N.of_nat j + if (j <? 10)%nat then 1 else 0) users
     = 50)%nat /\
    errors_total w' = errors_total w /\
    pool_query w' = pool_query w.
Proof.
  intros Hclean.
  destruct (waitForPostgres_loop_clean env 10 w Hclean)
    as (j & w1 & Hloop & Hle & Hfails & Hsucc & Ht1 & Hd1 & Hs1 & He1 & Hr1).
  destruct (generateUsers_from_frame env 50 0%Z w1)
    as (users & w2 & Hgen & Hlen & Ht2 & Hs2 & Hd2 & He2 & _).
  destruct (insert_users_clean env users 0%Z w2)
    as (w3 & evs & Hins & Ht3 & Hsent & Hcon & _ & Hfail & He3 & _ & Hs3).
  { rewrite Hs2, Hs1. exact Hclean. }
  rewrite Hd2, Hd1 in Hins, Hfail.
  exists j, users. eexists.
  split.
  { unfold startup.
    erewrite bind_return by exact Hloop.
    erewrite bind_return by exact Hgen.
    erewrite bind_return by exact Hins.
    reflexivity. }
  split; [exact Hle|].
  split; [exact Hfails|]. split; [exact Hsucc|].
  split.
  { unfold generateUsers.
    rewrite (generateUsers_from_draws env 50 0%Z w w1 (eq_sym Hr1)), Hgen.
    reflexivity. }
  split; [exact Hlen|].
  erewrite new_events_app.
  2:{ cbn [trace]. rewrite Ht3, Ht2, Ht1. rewrite <- !app_assoc. reflexivity. }
  destruct (failed_attempts_project (pool_query w) j) as (Hp1 & Hp2 & Hp3).
  rewrite !statements_app, !console_lines_app, !written_to_app.
  rewrite Hp1, Hp2, Hp3, Hsent, Hcon, Hlen.
  cbn [errors_total pool_query].
  split.
  { destruct (j <? 10)%nat; cbn [statements successful_attempt app];
      [| rewrite Nat.add_0_r, !app_nil_r; reflexivity].
    rewrite app_nil_r, repeat_app, <- app_assoc. reflexivity. }
  split.
  { destruct (j <? 10)%nat; cbn [console_lines successful_attempt app]; reflexivity. }
  split.
  { rewrite Hlen in Hfail.
    destruct (j <? 10)%nat; cbn [written_to successful_attempt app length];
      rewrite !length_app; cbn [length]; lia. }
  split; [rewrite He3, He2, He1; reflexivity|].
  rewrite Hs3, Hs2, Hs1. reflexivity.
Qed.

(** X16 on a fresh process with the database down: ten notices, no user
    inserted, fifty entries in the error log. *)
Lemma X16_witness :
  exists (w' : World),
    startup (sample_env db_down (1 # 2)) initial_world = (Return tt, w') /\
    console_lines (new_events initial_world w')
      = repeat waiting_line 10 ++ [ "Inserted 0 users."%string ] /\
    length (written_to Winston.ErrorLog (new_events initial_world w')) = 50%nat /\
    errors_total w' = 0%nat.
Proof.
  destruct (X16_startup_reports_the_accepted_inserts
              (sample_env db_down (1 # 2)) initial_world)
    as (j & users & w' & Hrun & Hj & _ & Hsucc & Husers & _ & _ & Hcon & Hfail & Herr & _).
  - reflexivity.
  - assert (Hten : j = 10%nat).
    { destruct (Nat.eq_dec j 10) as [E | E]; [exact E |].
      destruct Hsucc as [r Hr]; [lia | discriminate Hr]. }
    subst j.
    assert (Hnone : forall k l, accepted (sample_env db_down (1 # 2)) k l = 0%nat).
    { intros k l. revert k. induction l as [| u l IH]; intro k; [reflexivity |].
      cbn [accepted]. rewrite IH. reflexivity. }
    rewrite Hnone in Hcon, Hfail. rewrite Nat.add_0_r in Hfail.
    exists w'. split; [exact Hrun |]. split; [exact Hcon |].
    split; [exact Hfail | exact Herr].
Defined.


(** The readiness loop, attempt by attempt: [j] attempts fail, each
    followed by the notice and the wait, and the loop ends with the first
    attempt that succeeds or when the budget is spent. *)
Lemma waitForPostgres_loop_attempts (env : Env) (retries : nat) :
  forall w,
  exists j evs,
    (j <= retries)%nat /\
    (forall i, (i < j)%nat -> attempt_fails env (after_failed_attempts env i w)) /\
    ((j < retries)%nat -> attempt_succeeds env (after_failed_attempts env j w)) /\
    waitForPostgres_loop env retries w
      = (Return tt,
         if (j <? retries)%nat
         then after_successful_attempt env (after_failed_attempts env j w)
         else after_failed_attempts env j w) /\
    trace (if (j <? retries)%nat
           then after_successful_attempt env (after_failed_attempts env j w)
           else after_failed_attempts env j w)
      = trace w ++ evs /\
    invocations evs
      = repeat liveness_query (j + if (j <? retries)%nat then 1 else 0) /\
    console_lines evs
      = repeat waiting_line j ++ (if (j <? retries)%nat then [connected_line] else []) /\
    timeouts evs = repeat 5000%Z j /\
    ((j < retries)%nat -> exists pre, evs = pre ++ [EvConsole connected_line]).
Proof.
  induction retries as [| retries IH]; intros w.
  - exists 0%nat, []. cbn. rewrite app_nil_r.
    repeat split; auto; intros; lia.
  - destruct (pool_query_call_events env liveness_query None w)
      as (r & w1 & evs1 & Hq & Ht1 & Hc1).
    destruct (call_events_project evs1 Hc1) as (Hcl & Hto & Hin).
    cbn [waitForPostgres_loop]. fold liveness_query.
    destruct r as [res | err].
    + exists 0%nat, (EvInvoke (pool_query w) liveness_query None
                       :: evs1 ++ [EvConsole connected_line]).
      cbn [Nat.ltb Nat.leb after_failed_attempts].
      assert (Hw : after_successful_attempt env w
                   = mkWorld (pool_query w1) (errors_total w1)
                             (trace w1 ++ [EvConsole connected_line])
                             (db_seq w1) (rnd_seq w1) (clk_seq w1) (faker_seq w1)).
      { unfold after_successful_attempt, liveness_attempt. rewrite Hq. reflexivity. }
      split; [lia|]. split; [intros i Hi; lia|].
      split; [intros _; exists res; unfold liveness_attempt; rewrite Hq; reflexivity|].
      split.
      { erewrite bind_return.
        2:{ apply try_catch_return. erewrite bind_return by exact Hq.
            erewrite bind_return by reflexivity. reflexivity. }
        rewrite Hw. reflexivity. }
      split; [rewrite Hw; cbn [trace]; rewrite Ht1, <- app_assoc; reflexivity|].
      cbn [invocations console_lines timeouts].
      rewrite invocations_app, console_lines_app, timeouts_app, Hcl, Hto, Hin.
      repeat split.
      intros _. exists (EvInvoke (pool_query w) liveness_query None :: evs1).
      reflexivity.
    + assert (Hw : after_failed_attempt env w
                   = mkWorld (pool_query w1) (errors_total w1)
                             ((trace w1 ++ [EvConsole waiting_line]) ++ [EvTimeout 5000])
                             (db_seq w1) (rnd_seq w1) (clk_seq w1) (faker_seq w1)).
      { unfold after_failed_attempt, liveness_attempt. rewrite Hq. reflexivity. }
      erewrite bind_return.
      2:{ erewrite try_catch_throw.
          2:{ erewrite bind_throw by exact Hq. reflexivity. }
          erewrite bind_return by reflexivity.
          erewrite bind_return by reflexivity. reflexivity. }
      cbv iota.
      match goal with
      | |- context [waitForPostgres_loop env retries ?W] =>
          replace W with (after_failed_attempt env w) by (rewrite Hw; reflexivity)
      end.
      destruct (IH (after_failed_attempt env w))
        as (j & evs2 & Hle & Hfails & Hsucc & Hloop & Ht2 & Hi & Hc & Ht & Hlast).
      exists (S j), (EvInvoke (pool_query w) liveness_query None
                       :: evs1 ++ [EvConsole waiting_line; EvTimeout 5000] ++ evs2).
      change (S j <? S retries)%nat with (j <? retries)%nat.
      cbn [after_failed_attempts].
      split; [lia|].
      split.
      { intros [| i] Hlt; cbn [after_failed_attempts].
        - exists err. unfold liveness_attempt. rewrite Hq. reflexivity.
        - apply Hfails. lia. }
      split; [intros Hlt; apply Hsucc; lia|].
      split; [exact Hloop|].
      split.
      { rewrite Ht2, Hw. cbn [trace]. rewrite Ht1.
        rewrite <- !app_assoc. reflexivity. }
      cbn [invocations console_lines timeouts].
      rewrite !invocations_app, !console_lines_app, !timeouts_app, Hcl, Hto, Hin.
      cbn [invocations console_lines timeouts app].
      rewrite Hi, Hc, Ht.
      repeat split.
      intros Hlt. destruct Hlast as [pre Hpre]; [lia|].
      exists (EvInvoke (pool_query w) liveness_query None
                :: evs1 ++ [EvConsole waiting_line; EvTimeout 5000] ++ pre).
      rewrite Hpre. cbn [app]. rewrite <- !app_assoc. reflexivity.
Qed.

(** On a slot that is not instrumented every attempt is one statement,
    and the attempt fails or succeeds as the database replies. *)
Lemma liveness_attempts_clean (env : Env) (i : nat) :
  forall w,
    instrumented (pool_query w) = false ->
    instrumented (pool_query (after_failed_attempts env i w)) = false /\
    db_seq (after_failed_attempts env i w) = (db_seq w + N.of_nat i)%N /\
    fst (liveness_attempt env (after_failed_attempts env i w))
      = match db env (db_seq w + N.of_nat i) liveness_query None with
        | Rows r => Return r
        | Failed e => Throw e
        end.
Proof.
  induction i as [| i IH]; intros w Hclean; cbn [after_failed_attempts].
  - rewrite N.add_0_r. split; [exact Hclean|]. split; [reflexivity|].
    unfold liveness_attempt. rewrite (pool_query_call_clean env _ _ w Hclean).
    destruct (db env (db_seq w) liveness_query None); reflexivity.
  - assert (Hnext : instrumented (pool_query (after_failed_attempt env w)) = false /\
                    db_seq (after_failed_attempt env w) = N.succ (db_seq w)).
    { unfold after_failed_attempt, liveness_attempt.
      rewrite (pool_query_call_clean env _ _ w Hclean).
      destruct (db env (db_seq w) liveness_query None); cbn; auto. }
    destruct Hnext as [Hc Hd].
    destruct (IH _ Hc) as (IH1 & IH2 & IH3).
    rewrite Hd in IH2, IH3.
    replace (db_seq w + N.of_nat (S i))%N with (N.succ (db_seq w) + N.of_nat i)%N by lia.
    auto.
Qed.

(** C9, as the code has it.  The loop always returns normally.  It makes
    [j <= 10] attempts that fail - each is one liveness query, then the
    waiting notice and a wait of 5000 ms - and, if [j < 10], one more that
    succeeds: the loop then prints the connection notice and returns at
    once, that notice being its last event.  When all ten attempts fail
    the loop returns after the tenth wait, and the console has received
    the ten waiting notices only.  On a slot that is not instrumented an
    attempt fails or succeeds as the database answers its statement.
    Start-up then proceeds: the fifty inserts are attempted whatever the
    loop found. *)
Theorem C9_readiness_loop_is_bounded_and_never_raises (env : Env) (w : World) :
  exists (j : nat) (w' : World),
    waitForPostgres env w = (Return tt, w') /\
    (j <= 10)%nat /\
    (forall i, (i < j)%nat -> attempt_fails env (after_failed_attempts env i w)) /\
    ((j < 10)%nat -> attempt_succeeds env (after_failed_attempts env j w)) /\
    w' = (if (j <? 10)%nat
          then after_successful_attempt env (after_failed_attempts env j w)
          else after_failed_attempts env j w) /\
    invocations (new_events w w')
      = repeat liveness_query (j + if (j <? 10)%nat then 1 else 0) /\
    console_lines (new_events w w')
      = repeat waiting_line j ++ (if (j <? 10)%nat then [connected_line] else []) /\
    timeouts (new_events w w') = repeat 5000%Z j /\
    ((j < 10)%nat ->
     exists pre, new_events w w' = pre ++ [EvConsole connected_line]) /\
    (instrumented (pool_query w) = false ->
     (forall i, (i < j)%nat ->
        exists e, db env (db_seq w + N.of_nat i) liveness_query None = Failed e) /\
     ((j < 10)%nat ->
        exists r, db env (db_seq w + N.of_nat j) liveness_query None = Rows r)) /\
    exists w'',
      startup env w = (Return tt, w'') /\
      invocations (new_events w' w'') = repeat insert_user 50.
Proof.
  destruct (waitForPostgres_loop_attempts env 10 w)
    as (j & evs & Hle & Hfails & Hsucc & Hloop & Htrace & Hi & Hc & Ht & Hlast).
  exists j. eexists.
  split; [exact Hloop|].
  rewrite (new_events_app w _ evs Htrace).
  split; [exact Hle|]. split; [exact Hfails|]. split; [exact Hsucc|].
  split; [reflexivity|].
  split; [exact Hi|]. split; [exact Hc|]. split; [exact Ht|].
  split; [exact Hlast|].
  split.
  { intros Hclean. split.
    - intros i Hlt. destruct (Hfails i Hlt) as [err Herr].
      destruct (liveness_attempts_clean env i w Hclean) as (_ & _ & Hreply).
      rewrite Hreply in Herr.
      destruct (db env (db_seq w + N.of_nat i) liveness_query None) as [r | e];
        [discriminate Herr | exists e; reflexivity].
    - intros Hlt. destruct (Hsucc Hlt) as [res Hres].
      destruct (liveness_attempts_clean env j w Hclean) as (_ & _ & Hreply).
      rewrite Hreply in Hres.
      destruct (db env (db_seq w + N.of_nat j) liveness_query None) as [r | e];
        [exists r; reflexivity | discriminate Hres]. }
  match goal with
  | |- exists w'', _ /\ invocations (new_events ?W w'') = _ => set (w' := W) in *
  end.
  destruct (generateUsers_from_spec env 50 0%Z w') as (users & w1 & Hgen & Ht1 & Hlen).
  destruct (insert_users_spec env users 0%Z w1) as (n & w2 & evs2 & Hins & Ht2 & Hi2).
  eexists. split.
  - unfold startup.
    erewrite bind_return by exact Hloop.
    erewrite bind_return by exact Hgen.
    erewrite bind_return by exact Hins.
    reflexivity.
  - erewrite new_events_app.
    2:{ cbn [trace]. rewrite Ht2, Ht1, <- app_assoc. reflexivity. }
    rewrite invocations_app, Hi2, Hlen. simpl invocations.
    rewrite app_nil_r. reflexivity.
Qed.


(** ** Further properties: what the log files receive *)

Section Appends.

Variable Q : list Event -> Prop.
Hypothesis Q_additive : additive Q.

Lemma appends_silent {A : Type} (m : M A) :
  (forall w r w', m w = (r, w') -> trace w' = trace w) -> appends Q m.
Proof.
  intros Hm w r w' E. exists []. rewrite app_nil_r.
  split; [exact (Hm _ _ _ E) | apply Q_additive].
Qed.

Lemma appends_ret {A : Type} (a : A) : appends Q (ret a).
Proof. apply appends_silent. intros w r w' E. inversion E. reflexivity. Qed.

Lemma appends_throw {A : Type} (e : Js.Exn) : appends Q (@throw A e).
Proof. apply appends_silent. intros w r w' E. inversion E. reflexivity. Qed.

Lemma appends_bind {A B : Type} (m : M A) (k : A -> M B) :
  appends Q m -> (forall a, appends Q (k a)) -> appends Q (bind m k).
Proof.
  intros Hm Hk w r w' E. unfold bind in E.
  destruct (m w) as [[a | e] w1] eqn:Em.
  - destruct (Hm _ _ _ Em) as (evs1 & Ht1 & Hq1).
    destruct (Hk a _ _ _ E) as (evs2 & Ht2 & Hq2).
    exists (evs1 ++ evs2). split; [rewrite Ht2, Ht1, app_assoc; reflexivity|].
    apply Q_additive; assumption.
  - inversion E; subst. exact (Hm _ _ _ Em).
Qed.

Lemma appends_try_catch {A : Type} (body : M A) (handler : Js.Exn -> M A) :
  appends Q body -> (forall e, appends Q (handler e)) -> appends Q (try_catch body handler).
Proof.
  intros Hm Hk w r w' E. unfold try_catch in E.
  destruct (body w) as [[a | e] w1] eqn:Em.
  - inversion E; subst. exact (Hm _ _ _ Em).
  - destruct (Hm _ _ _ Em) as (evs1 & Ht1 & Hq1).
    destruct (Hk e _ _ _ E) as (evs2 & Ht2 & Hq2).
    exists (evs1 ++ evs2). split; [rewrite Ht2, Ht1, app_assoc; reflexivity|].
    apply Q_additive; assumption.
Qed.

Lemma appends_try_finally {A : Type} (body : M A) (cleanup : M unit) :
  appends Q body -> appends Q cleanup -> appends Q (try_finally body cleanup).
Proof.
  intros Hm Hc w r w' E. unfold try_finally in E.
  destruct (body w) as [r1 w1] eqn:Em.
  destruct (cleanup w1) as [[u | e] w2] eqn:Ec; inversion E; subst;
    destruct (Hm _ _ _ Em) as (evs1 & Ht1 & Hq1);
    destruct (Hc _ _ _ Ec) as (evs2 & Ht2 & Hq2);
    exists (evs1 ++ evs2);
    (split; [rewrite Ht2, Ht1, app_assoc; reflexivity | apply Q_additive; assumption]).
Qed.

Lemma appends_emit_all (evs : list Event) : Q evs -> appends Q (emit_all evs).
Proof.
  intros Hq w r w' E. inversion E; subst. exists evs. split; [reflexivity | exact Hq].
Qed.

Lemma appends_emit (ev : Event) : Q [ev] -> appends Q (emit ev).
Proof.
  intros Hq w r w' E. inversion E; subst. exists [ev]. split; [reflexivity | exact Hq].
Qed.

Lemma appends_query_db (env : Env) (text : string) (params : Params) :
  Q [EvDb text params] -> appends Q (query_db env text params).
Proof.
  intros Hq w r w' E. unfold query_db in E.
  exists [EvDb text params]. split; [| exact Hq].
  destruct (db env (db_seq w) text params); inversion E; reflexivity.
Qed.

End Appends.

Lemma written_to_writes (s : Winston.Sink) (e : Winston.Entry) :
  written_to s (writes e)
  = if existsb (Winston.sink_eqb s) (Winston.destinations e) then [e] else [].
Proof.
  destruct e as [l m mt]. destruct l; destruct s; reflexivity.
Qed.

Lemma mirrored_additive : additive mirrored.
Proof.
  split.
  - repeat split.
  - intros a b (Ha1 & Ha2 & Ha3 & Ha4) (Hb1 & Hb2 & Hb3 & Hb4).
    unfold mirrored. rewrite !written_to_app, filter_app.
    rewrite Ha1, Ha2, Ha3, Ha4, Hb1, Hb2, Hb3, Hb4. repeat split.
Qed.

Lemma mirrored_writes (e : Winston.Entry) : mirrored (writes e).
Proof.
  destruct e as [l m mt]. destruct l; repeat split.
Qed.

Lemma mirrored_db (text : string) (params : Params) : mirrored [EvDb text params].
Proof. repeat split. Qed.

Lemma mirrored_console (line : string) : mirrored [EvConsole line].
Proof. repeat split. Qed.

Lemma mirrored_timeout (ms : Z) : mirrored [EvTimeout ms].
Proof. repeat split. Qed.

Lemma mirrored_invoke (c : Cap) (text : string) (params : Params) :
  mirrored [EvInvoke c text params].
Proof. repeat split. Qed.

Lemma mirrored_record (req : nat) (text : string) (cost : Js.Num) (time : Z) :
  mirrored [EvRecord req text cost time].
Proof. repeat split. Qed.

Lemma mirrored_observe : mirrored [EvObserve].
Proof. repeat split. Qed.

Ltac silent :=
  apply (appends_silent mirrored mirrored_additive);
  let w := fresh "w" in let r := fresh "r" in let w' := fresh "w'" in
  let E := fresh "E" in
  intros w r w' E; inversion E; reflexivity.

Ltac mirrored_step :=
  lazymatch goal with
  | |- appends _ (bind _ _) => apply (appends_bind _ mirrored_additive); [| intro]
  | |- appends _ (try_catch _ _) => apply (appends_try_catch _ mirrored_additive); [| intro]
  | |- appends _ (try_finally _ _) => apply (appends_try_finally _ mirrored_additive)
  | |- appends _ (ret _) => apply (appends_ret _ mirrored_additive)
  | |- appends _ (throw _) => apply (appends_throw _ mirrored_additive)
  | |- appends _ get_query => silent
  | |- appends _ (set_query _) => silent
  | |- appends _ errorCounter_inc => silent
  | |- appends _ (Date_now _) => silent
  | |- appends _ (Math_random _) => silent
  | |- appends _ (faker_datatype_number _ _ _) => silent
  | |- appends _ (faker_commerce_productName _) => silent
  | |- appends _ (emit (EvRecord _ _ _ _)) => apply appends_emit; apply mirrored_record
  | |- appends _ (emit (EvInvoke _ _ _)) => apply appends_emit; apply mirrored_invoke
  | |- appends _ (emit EvObserve) => apply appends_emit; apply mirrored_observe
  | |- appends _ (sleep _) => apply appends_emit; apply mirrored_timeout
  | |- appends _ (console_log _) => apply appends_emit; apply mirrored_console
  | |- appends _ (logger_log _) => apply appends_emit_all; apply mirrored_writes
  | |- appends _ (logger_info _ _) => apply appends_emit_all; apply mirrored_writes
  | |- appends _ (logger_error _ _) => apply appends_emit_all; apply mirrored_writes
  | |- appends _ (if ?b then _ else _) => destruct b
  end.

Lemma mirrored_query_plan (r : DbResult) : appends mirrored (query_plan r).
Proof.
  apply (appends_silent _ mirrored_additive). intros w o w' E.
  unfold query_plan in E. destruct (rows r); inversion E; reflexivity.
Qed.

Lemma mirrored_plan_match (plan : Js.Val) : appends mirrored (plan_match plan).
Proof.
  apply (appends_silent _ mirrored_additive). intros w o w' E.
  destruct plan; inversion E; reflexivity.
Qed.

Lemma mirrored_call (env : Env) (c : Cap) :
  forall text params, appends mirrored (call env c text params).
Proof.
  induction c as [| target IH | req o IH]; intros text params; cbn [call].
  - apply appends_query_db. apply mirrored_db.
  - apply IH.
  - mirrored_step; [mirrored_step |].
    mirrored_step; [| mirrored_step].
    mirrored_step; [| repeat mirrored_step].
    mirrored_step; [apply IH |].
    mirrored_step; [apply mirrored_query_plan |].
    mirrored_step; [apply mirrored_plan_match |].
    mirrored_step; [apply IH |].
    repeat (cbv zeta; mirrored_step).
Qed.

Lemma mirrored_pool_query_call (env : Env) (text : string) (params : Params) :
  appends mirrored (pool_query_call env text params).
Proof.
  unfold pool_query_call. repeat mirrored_step. apply mirrored_call.
Qed.

Lemma mirrored_insert_orders (env : Env) (orders : list Order) :
  forall insertedRows, appends mirrored (insert_orders env orders insertedRows).
Proof.
  induction orders as [| order orders IH]; intros n; cbn [insert_orders].
  - mirrored_step.
  - mirrored_step; [apply mirrored_pool_query_call | apply IH].
Qed.

Lemma mirrored_dispatch (env : Env) (rq : Request) : appends mirrored (dispatch env rq).
Proof.
  unfold dispatch. destruct (route rq).
  - unfold api_users. mirrored_step; [| repeat mirrored_step].
    mirrored_step; [mirrored_step |].
    mirrored_step; [apply mirrored_pool_query_call |].
    repeat (cbv zeta; mirrored_step).
  - unfold api_orders_generate. mirrored_step; [| repeat mirrored_step].
    mirrored_step; [mirrored_step |].
    mirrored_step.
    { apply (appends_silent _ mirrored_additive). intros w r w' E.
      destruct (generateOrders_spec env 10 w) as (orders & w1 & Hgen & Ht & _).
      rewrite Hgen in E. inversion E; subst. exact Ht. }
    mirrored_step; [apply mirrored_insert_orders |].
    repeat (cbv zeta; mirrored_step).
  - unfold api_users_filter. cbv zeta. mirrored_step; [| repeat mirrored_step].
    mirrored_step; [mirrored_step |].
    mirrored_step; [mirrored_step |].
    mirrored_step; [apply mirrored_pool_query_call |].
    repeat (cbv zeta; mirrored_step).
  - mirrored_step; [| mirrored_step].
    unfold api_compute. mirrored_step.
    + mirrored_step; [mirrored_step |].
      mirrored_step; [mirrored_step |].
      mirrored_step.
      { apply (appends_silent _ mirrored_additive). intros w r w' E.
        destruct (heavy_computation_spec env 1000000 w) as (q & Hq).
        rewrite Hq in E. inversion E; subst. reflexivity. }
      repeat (cbv zeta; mirrored_step).
    + mirrored_step; [mirrored_step |].
      mirrored_step; [mirrored_step |].
      mirrored_step.
      { apply (appends_silent _ mirrored_additive). intros w r w' E.
        unfold minus_identifier in E.
        destruct (existsb _ _); inversion E; reflexivity. }
      repeat (cbv zeta; mirrored_step).
  - silent.
  - mirrored_step.
Qed.

Lemma mirrored_serve (env : Env) (rq : Request) : appends mirrored (serve env rq).
Proof.
  unfold serve.
  mirrored_step; [mirrored_step |].
  mirrored_step; [mirrored_step |].
  cbv zeta.
  mirrored_step; [mirrored_step |].
  mirrored_step; [unfold logQueryComplexity; repeat mirrored_step |].
  mirrored_step; [apply mirrored_dispatch |].
  repeat (cbv zeta; mirrored_step).
Qed.

Lemma mirrored_serve_all (env : Env) (rqs : list Request) :
  appends mirrored (serve_all env rqs).
Proof.
  induction rqs as [| rq rqs IH]; cbn [serve_all].
  - mirrored_step.
  - mirrored_step; [apply mirrored_serve |].
    mirrored_step; [apply IH | mirrored_step].
Qed.

Lemma mirrored_waitForPostgres_loop (env : Env) (retries : nat) :
  appends mirrored (waitForPostgres_loop env retries).
Proof.
  induction retries as [| n IH]; cbn [waitForPostgres_loop].
  - mirrored_step.
  - mirrored_step.
    + mirrored_step.
      * mirrored_step; [apply mirrored_pool_query_call |]. repeat mirrored_step.
      * repeat mirrored_step.
    + destruct a; [mirrored_step | exact IH].
Qed.

Lemma mirrored_insert_users (env : Env) (users : list User) :
  forall insertedRows, appends mirrored (insert_users env users insertedRows).
Proof.
  induction users as [| user users IH]; intros n; cbn [insert_users].
  - mirrored_step.
  - mirrored_step; [| apply IH].
    mirrored_step.
    + mirrored_step; [apply mirrored_pool_query_call |]. repeat mirrored_step.
    + repeat mirrored_step.
Qed.

Lemma mirrored_generateUsers (env : Env) (num : nat) :
  appends mirrored (generateUsers env num).
Proof.
  apply (appends_silent _ mirrored_additive). intros w r w' E.
  destruct (generateUsers_from_spec env num 0%Z w) as (users & w1 & Hgen & Ht & _).
  unfold generateUsers in E. rewrite Hgen in E. inversion E; subst. exact Ht.
Qed.

Lemma mirrored_startup (env : Env) : appends mirrored (startup env).
Proof.
  unfold startup.
  apply (appends_bind _ mirrored_additive).
  { exact (mirrored_waitForPostgres_loop env 10). }
  intros _.
  apply (appends_bind _ mirrored_additive); [apply mirrored_generateUsers |].
  intros users.
  apply (appends_bind _ mirrored_additive); [apply mirrored_insert_users |].
  intros n. apply appends_emit. apply mirrored_console.
Qed.

(** X13.  Whatever the requests and whatever the database does, the
    four info-level destinations - [access.log], [db.log], [app.log] and
    the console - receive the same entries in the same order, and
    [error.log] receives exactly those of them that have level [error]:
    no entry reaches one file only.  The same holds for the start-up. *)
Theorem X13_log_files_mirror_one_another (env : Env) (rqs : list Request) (w : World) :
  mirrored (new_events w (snd (serve_all env rqs w))) /\
  mirrored (new_events w (snd (startup env w))).
Proof.
  split.
  - destruct (serve_all env rqs w) as [r w'] eqn:Hrun.
    destruct (mirrored_serve_all env rqs _ _ _ Hrun) as (evs & Htrace & Hq).
    cbn [snd]. rewrite (new_events_app _ _ _ Htrace). exact Hq.
  - destruct (startup env w) as [r w'] eqn:Hrun.
    destruct (mirrored_startup env _ _ _ Hrun) as (evs & Htrace & Hq).
    cbn [snd]. rewrite (new_events_app _ _ _ Htrace). exact Hq.
Qed.


(** ** Further properties: the cost estimate *)

Lemma cost_char_not_terminator (c : ascii) :
  Js.is_cost_char c = true -> Js.is_line_terminator c = false.
Proof.
  destruct c as [[] [] [] [] [] [] [] []]; intros H;
    first [reflexivity | discriminate H].
Qed.

Lemma take_while_cost_app (q r : string) :
  all_cost_chars q = true ->
  Js.take_while Js.is_cost_char (q ++ r)%string
  = (q ++ Js.take_while Js.is_cost_char r)%string.
Proof.
  induction q as [| c q IH]; simpl; [reflexivity|].
  intros H. apply andb_prop in H. destruct H as [Hc Hq].
  rewrite Hc, (IH Hq). reflexivity.
Qed.

Lemma drop_app_length (q r : string) (k : nat) :
  Js.drop (String.length q + k) (q ++ r)%string = Js.drop k r.
Proof.
  induction q as [| c q IH]; simpl; [reflexivity | exact IH].
Qed.

Lemma take_while_cost_ahead (rest : string) :
  no_cost_char_ahead rest = true ->
  Js.take_while Js.is_cost_char rest = EmptyString.
Proof.
  destruct rest as [| r0 [| r1 [| r2 tail]]]; simpl; intros H; try reflexivity.
  - apply negb_true_iff in H. rewrite H. reflexivity.
  - apply negb_true_iff in H. apply orb_false_iff in H. destruct H as [H _].
    rewrite H. reflexivity.
  - apply negb_true_iff in H. apply orb_false_iff in H. destruct H as [H _].
    apply orb_false_iff in H. destruct H as [H _]. rewrite H. reflexivity.
Qed.

Lemma match_tail_ahead (rest : string) :
  no_cost_char_ahead rest = true -> Js.match_tail rest = None.
Proof.
  destruct rest as [| r0 [| r1 [| r2 tail]]]; simpl; intros H; try reflexivity.
  - destruct (Js.is_line_terminator _ || Js.is_line_terminator _); reflexivity.
  - apply negb_true_iff in H. apply orb_false_iff in H. destruct H as [_ H].
    rewrite H. destruct (Js.is_line_terminator _ || Js.is_line_terminator _); reflexivity.
Qed.

Lemma match_tail_one_ahead (c : ascii) (rest : string) :
  no_cost_char_ahead rest = true -> Js.match_tail (String c rest) = None.
Proof.
  destruct rest as [| r0 [| r1 [| r2 tail]]]; simpl; intros H; try reflexivity.
  - destruct (Js.is_line_terminator _ || Js.is_line_terminator _); reflexivity.
  - apply negb_true_iff in H. apply orb_false_iff in H. destruct H as [_ H].
    rewrite H. destruct (Js.is_line_terminator _ || Js.is_line_terminator _); reflexivity.
  - apply negb_true_iff in H. apply orb_false_iff in H. destruct H as [H _].
    apply orb_false_iff in H. destruct H as [_ H].
    rewrite H. destruct (Js.is_line_terminator _ || Js.is_line_terminator _); reflexivity.
Qed.

Lemma match_cost_here (s group : string) :
  Js.match_here s = Some group -> Js.match_cost s = Some group.
Proof. intros H. destruct s; cbn [Js.match_cost]; rewrite H; reflexivity. Qed.

Lemma match_here_cost (s : string) :
  Js.match_here ("cost=" ++ s)%string
  = Js.backtrack (String.length (Js.take_while Js.is_cost_char s)) s.
Proof. unfold Js.match_here. rewrite prefix_app_self. reflexivity. Qed.

(** X18.  The pattern [/cost=[\d.]+..([\d.]+)/] on a text that starts
    with [cost=] followed by a run of at least four characters of the
    class [[\d.]] - in a PostgreSQL plan, the two cost figures and the
    dots between them - and then by characters outside that class: the
    first [[\d.]+] takes the run but for its last three characters, the
    two unescaped dots take the next two, and the group captures the
    last character of the run only.  The cost that is logged is the
    digit that character denotes, or [NaN] if it is a dot. *)
Theorem X18_cost_capture_is_the_last_character_of_the_run
    (q : string) (x y c : ascii) (rest : string) :
  q <> EmptyString ->
  all_cost_chars q = true ->
  Js.is_cost_char x = true ->
  Js.is_cost_char y = true ->
  Js.is_cost_char c = true ->
  no_cost_char_ahead rest = true ->
  Js.match_cost ("cost=" ++ q ++ String x (String y (String c rest)))%string
    = Some (String c EmptyString) /\
  query_cost (Some (String c EmptyString))
    = (if Js.is_digit c then Js.Fin (inject_Z (Js.digit_val c)) else Js.NaN).
Proof.
  intros Hq Hall Hx Hy Hc Hrest.
  pose proof (take_while_cost_ahead rest Hrest) as Hnone.
  split.
  - apply match_cost_here. rewrite match_here_cost.
    rewrite take_while_cost_app by exact Hall.
    cbn [Js.take_while]. rewrite Hx, Hy, Hc, Hnone.
    rewrite string_length_append. cbn [String.length].
    destruct q as [| c0 q0]; [congruence|].
    set (q := String c0 q0) in *.
    replace (String.length q + 3)%nat with (S (S (S (String.length q)))) by lia.
    cbn [Js.backtrack].
    replace (S (S (S (String.length q)))) with (String.length q + 3)%nat by lia.
    replace (S (S (String.length q))) with (String.length q + 2)%nat by lia.
    replace (S (String.length q)) with (String.length q + 1)%nat by lia.
    rewrite !drop_app_length. cbn [Js.drop].
    rewrite (match_tail_ahead rest Hrest).
    rewrite (match_tail_one_ahead c rest Hrest).
    assert (Htwo : Js.match_tail (String y (String c rest)) = None).
    { cbn [Js.match_tail]. rewrite Hnone.
      destruct (Js.is_line_terminator _ || Js.is_line_terminator _); reflexivity. }
    rewrite Htwo.
    assert (Hlen : String.length q = S (String.length q0)) by reflexivity.
    rewrite Hlen. cbn [Js.backtrack]. rewrite <- Hlen.
    replace (String.length q) with (String.length q + 0)%nat at 1 by lia.
    rewrite drop_app_length. cbn [Js.drop Js.match_tail].
    rewrite (cost_char_not_terminator x Hx), (cost_char_not_terminator y Hy).
    cbn [orb Js.take_while]. rewrite Hc, Hnone. reflexivity.
  - clear - Hc.
    destruct c as [[] [] [] [] [] [] [] []];
      first [discriminate Hc | vm_compute; reflexivity].
Qed.

(** X18 for the plan of a sequential scan, [cost=0.00..35.50]. *)
Lemma X18_witness :
  Js.match_cost "cost=0.00..35.50 rows=2550 width=244)" = Some "0"%string /\
  query_cost (Some "0"%string) = Js.Fin 0.
Proof.
  apply (X18_cost_capture_is_the_last_character_of_the_run
           "0.00..35" "." "5" "0" " rows=2550 width=244)");
    first [discriminate | reflexivity].
Defined.


Lemma digits_value_nonneg (s : string) :
  forall acc, (0 <= acc)%Z -> (0 <= Js.digits_value 10 Js.digit_val acc s)%Z.
Proof.
  induction s as [| c s IH]; intros acc Hacc; simpl; [exact Hacc|].
  apply IH. unfold Js.digit_val. lia.
Qed.

(** What a real number that is not negative is stored as is not
    negative. *)
Lemma to_number_in_range (q : Q) : (0 <= q)%Q -> cost_in_range (Js.to_number q).
Proof.
  intro Hq. unfold Js.to_number. cbv zeta.
  pose proof (to_double_nonneg q Hq) as Hd.
  destruct (Qle_bool (2 ^ 1024) (Js.to_double q)); [reflexivity |].
  destruct (Qle_bool (Js.to_double q) (- 2 ^ 1024)) eqn:E; [| exact Hd].
  exfalso. apply Qle_bool_iff in E.
  pose proof (pow2_pos 1024) as Hpos. lra.
Qed.

(** [parseFloat] of a run of digits and dots is [NaN] or not negative. *)
Lemma parseFloat_in_range (s : string) : cost_in_range (Js.parseFloat s).
Proof.
  unfold Js.parseFloat.
  set (int_part := Js.take_while Js.is_digit s).
  set (frac_part := match Js.drop (String.length int_part) s with
                    | String "."%char rest' => Js.take_while Js.is_digit rest'
                    | _ => EmptyString
                    end).
  assert (Hnum : forall i f : string,
             cost_in_range
               (Js.to_number (Js.digits_value 10 Js.digit_val 0 i
                              * 10 ^ Z.of_nat (String.length f)
                              + Js.digits_value 10 Js.digit_val 0 f
                              # Z.to_pos (10 ^ Z.of_nat (String.length f))))).
  { intros i f. apply to_number_in_range.
    unfold Qle. cbn [Qnum Qden]. rewrite Z.mul_1_r, Z.mul_0_l.
    pose proof (digits_value_nonneg i 0%Z (Z.le_refl 0)).
    pose proof (digits_value_nonneg f 0%Z (Z.le_refl 0)).
    assert (0 <= 10 ^ Z.of_nat (String.length f))%Z by (apply Z.pow_nonneg; lia).
    nia. }
  destruct int_part, frac_part; first [exact I | apply Hnum].
Qed.

Lemma query_cost_in_range (costMatch : option string) :
  cost_in_range (query_cost costMatch).
Proof.
  destruct costMatch as [group |]; cbn [query_cost].
  - apply parseFloat_in_range.
  - discriminate.
Qed.

Lemma emits_call_cost (env : Env) (c : Cap) :
  forall text params, emits cost_event_in_range (call env c text params).
Proof.
  induction c as [| target IH | req originalQuery IH]; intros text params; cbn [call].
  - apply emits_query_db. exact I.
  - apply IH.
  - emits_step; [emits_step |].
    emits_step; [| emits_step].
    emits_step.
    + cbv zeta.
      emits_step; [apply IH |].
      emits_step; [emits_step |].
      emits_step; [emits_step |].
      emits_step; [apply IH |].
      emits_step; [emits_step |].
      emits_step.
      { apply emits_logger_log. intros s. apply query_cost_in_range. }
      emits_step; [| emits_step].
      apply emits_emit. apply query_cost_in_range.
    + repeat emits_step.
Qed.

Lemma emits_pool_query_call_cost (env : Env) (text : string) (params : Params) :
  emits cost_event_in_range (pool_query_call env text params).
Proof.
  unfold pool_query_call. repeat emits_step. apply emits_call_cost.
Qed.

Lemma emits_insert_orders_cost (env : Env) (orders : list Order) :
  forall insertedRows,
    emits cost_event_in_range (insert_orders env orders insertedRows).
Proof.
  induction orders as [| order orders IH]; intros n; cbn [insert_orders].
  - emits_step.
  - emits_step; [apply emits_pool_query_call_cost | apply IH].
Qed.

Lemma emits_dispatch_cost (env : Env) (rq : Request) :
  emits cost_event_in_range (dispatch env rq).
Proof.
  unfold dispatch. destruct (route rq).
  - unfold api_users. repeat (cbv zeta; emits_step).
    apply emits_pool_query_call_cost.
  - unfold api_orders_generate.
    emits_step; [| repeat emits_step].
    emits_step; [emits_step |].
    emits_step; [apply emits_generateOrders |].
    emits_step; [apply emits_insert_orders_cost |].
    repeat (cbv zeta; emits_step).
  - unfold api_users_filter. cbv zeta.
    emits_step; [| repeat emits_step].
    emits_step; [emits_step |].
    emits_step; [emits_step |].
    emits_step; [apply emits_pool_query_call_cost |].
    repeat (cbv zeta; emits_step).
  - emits_step; [| emits_step].
    unfold api_compute.
    emits_step.
    + emits_step; [emits_step |].
      emits_step; [emits_step |].
      emits_step; [apply emits_heavy_computation |].
      repeat (cbv zeta; emits_step).
    + emits_step; [emits_step |].
      emits_step; [emits_step |].
      emits_step; [apply emits_minus_identifier |].
      repeat (cbv zeta; emits_step).
  - intros w r w' E. inversion E; subst. split; [lia|].
    exists []. rewrite app_nil_r. auto.
  - emits_step.
Qed.

Lemma emits_serve_all_cost (env : Env) (rqs : list Request) :
  emits cost_event_in_range (serve_all env rqs).
Proof.
  induction rqs as [| rq rqs IH]; cbn [serve_all].
  - emits_step.
  - emits_step; [| emits_step; [apply IH | emits_step]].
    unfold serve.
    emits_step; [emits_step |].
    emits_step; [emits_step |].
    cbv zeta.
    emits_step; [emits_step |].
    emits_step; [unfold logQueryComplexity; repeat emits_step |].
    emits_step; [apply emits_dispatch_cost |].
    repeat (cbv zeta; emits_step).
Qed.

(** X17.  The cost the wrapper computes from a plan text is [NaN] or a
    number that is not negative, whatever the text; and so is every
    [query_cost] the server logs and every cost it records in
    [req.queryComplexity], over any sequence of requests. *)
Theorem X17_logged_costs_are_never_negative
    (env : Env) (rqs : list Request) (w : World) :
  (forall plan, cost_in_range (query_cost (Js.match_cost plan))) /\
  Forall cost_event_in_range (new_events w (snd (serve_all env rqs w))).
Proof.
  split; [intros plan; apply query_cost_in_range|].
  destruct (serve_all env rqs w) as [r w'] eqn:Hrun.
  destruct (emits_serve_all_cost env rqs _ _ _ Hrun) as (_ & evs & Htrace & Hall).
  cbn [snd]. rewrite (new_events_app _ _ _ Htrace). exact Hall.
Qed.


(** A call site behind a wrapper that captured an instrumented
    capability: the call fails, on a database that rejects the [EXPLAIN]
    of an [EXPLAIN]. *)
Lemma pool_query_call_poisoned (env : Env) (req : nat) (o : Cap)
    (text : string) (params : Params) (w : World) :
  rejects_nested_explain env ->
  pool_query w = Wrapper req o ->
  instrumented o = true ->
  exists e w',
    pool_query_call env text params w = (Throw e, w') /\
    pool_query w' = o /\
    errors_total w' = errors_total w.
Proof.
  intros Hpg Hslot Hins. unfold pool_query_call.
  do 2 (erewrite bind_return by reflexivity). rewrite Hslot.
  match goal with |- context [call env _ text params ?W] => set (w0 := W) end.
  destruct (wrapper_over_wrapper_fails env req o Hpg Hins text params w0)
    as (e & w' & Hcall).
  exists e, w'. split; [exact Hcall|].
  split; [exact (call_wrapper_restores _ _ _ _ _ _ _ _ Hcall)|].
  rewrite (keeps_call env _ _ _ _ _ _ Hcall). reflexivity.
Qed.

(** One request on an instrumented slot. *)
Lemma serve_poisoned (env : Env) (rq : Request) (w : World) :
  rejects_nested_explain env ->
  instrumented (pool_query w) = true ->
  exists response w',
    serve env rq w = (Return response, w') /\
    instrumented (pool_query w') = true /\
    (issues_query rq = true -> status response = 500%Z).
Proof.
  intros Hpg Hins.
  destruct (issues_query rq) eqn:Hq.
  2:{ destruct (serve_slot env rq w (or_intror Hpg)) as (resp & w' & Hserve & Hslot).
      exists resp, w'. split; [exact Hserve|].
      split; [| discriminate].
      destruct Hslot as [[_ ->] | [_ ->]]; [reflexivity | exact Hins]. }
  set (w4 := entering env rq w).
  set (wa := snd (Date_now env w4)).
  unfold issues_query in Hq.
  destruct (route rq) eqn:Hroute; try discriminate Hq.
  - destruct (pool_query_call_poisoned env (req_id rq) (Bound (pool_query w))
                users_query None wa Hpg eq_refl Hins) as (e & w1 & Hcall & Hs1 & _).
    eexists. eexists. split.
    { apply serve_dispatch. unfold dispatch. rewrite Hroute. unfold api_users.
      erewrite try_catch_throw.
      2:{ erewrite bind_return by reflexivity.
          erewrite bind_throw by exact Hcall. reflexivity. }
      do 2 (erewrite bind_return by reflexivity). reflexivity. }
    unfold leaving. cbn [pool_query status]. rewrite Hs1.
    split; [exact Hins | reflexivity].
  - destruct (generateOrders_frame env 10 wa)
      as (orders & wb & Hgen & Hlen & _ & Hsb & _).
    destruct orders as [| order orders]; [discriminate Hlen|].
    destruct (pool_query_call_poisoned env (req_id rq) (Bound (pool_query w))
                insert_order (order_params order) wb Hpg Hsb Hins)
      as (e & w1 & Hcall & Hs1 & _).
    eexists. eexists. split.
    { apply serve_dispatch. unfold dispatch. rewrite Hroute. unfold api_orders_generate.
      erewrite try_catch_throw.
      2:{ erewrite bind_return by reflexivity.
          erewrite bind_return by exact Hgen.
          erewrite bind_throw; [reflexivity|].
          cbn [insert_orders]. erewrite bind_throw by exact Hcall. reflexivity. }
      do 2 (erewrite bind_return by reflexivity). reflexivity. }
    unfold leaving. cbn [pool_query status]. rewrite Hs1.
    split; [exact Hins | reflexivity].
  - apply negb_true_iff in Hq.
    destruct (pool_query_call_poisoned env (req_id rq) (Bound (pool_query w))
                select_filter (Some [ Js.VNum (parseInt_age (age rq)) ]) wa
                Hpg eq_refl Hins) as (e & w1 & Hcall & Hs1 & _).
    eexists. eexists. split.
    { apply serve_dispatch. unfold dispatch. rewrite Hroute. unfold api_users_filter.
      cbv zeta. rewrite Hq.
      erewrite try_catch_throw.
      2:{ erewrite bind_return by reflexivity.
          erewrite bind_throw by exact Hcall. reflexivity. }
      do 2 (erewrite bind_return by reflexivity). reflexivity. }
    unfold leaving. cbn [pool_query status]. rewrite Hs1.
    split; [exact Hins | reflexivity].
Qed.




(** ** Further properties: what the server never does *)

Ltac emits_steps := repeat (cbv zeta; emits_step; try (intro; discriminate)).

Lemma emits_call_no_compute_error (env : Env) (c : Cap) :
  forall text params, emits no_compute_error_entry (call env c text params).
Proof.
  induction c as [| target IH | req originalQuery IH]; intros text params; cbn [call].
  - apply emits_query_db. exact I.
  - apply IH.
  - emits_step; [emits_step |].
    emits_step; [| emits_step].
    emits_step.
    + cbv zeta.
      emits_step; [apply IH |].
      emits_step; [emits_step |].
      emits_step; [emits_step |].
      emits_step; [apply IH |].
      emits_steps.
    + emits_steps.
Qed.

Lemma emits_pool_query_call_no_compute_error
    (env : Env) (text : string) (params : Params) :
  emits no_compute_error_entry (pool_query_call env text params).
Proof.
  unfold pool_query_call. emits_steps. apply emits_call_no_compute_error.
Qed.

Lemma emits_insert_orders_no_compute_error (env : Env) (orders : list Order) :
  forall insertedRows,
    emits no_compute_error_entry (insert_orders env orders insertedRows).
Proof.
  induction orders as [| order orders IH]; intros n; cbn [insert_orders].
  - emits_step.
  - emits_step; [apply emits_pool_query_call_no_compute_error | apply IH].
Qed.

(** [/api/compute] has two outcomes: it throws the [ReferenceError] of
    its own [catch] block, or it answers 200. *)
Lemma api_compute_outcomes (env : Env) (rq : Request) (w : World) :
  exists r w' evs,
    api_compute env rq w = (r, w') /\
    trace w' = trace w ++ evs /\
    (clk_seq w <= clk_seq w')%N /\
    Forall no_compute_error_entry evs /\
    (r = Throw start_is_not_defined \/
     exists result, r = Return (mkResponse 200 (Json [ ("result", Js.VNum (Js.Fin result)) ]))).
Proof.
  destruct (Qltb (random env (rnd_seq w + 1000000)) (8 # 10)) eqn:Hdraw.
  - eexists. eexists. eexists. split; [apply api_compute_failure; exact Hdraw|].
    cbn [trace clk_seq]. split; [reflexivity|]. split; [lia|].
    split; [| left; reflexivity].
    repeat constructor; intro; discriminate.
  - destruct (api_compute_passes env rq w Hdraw)
      as (result & duration & w' & Hrun & Htrace & _).
    exists (Return (mkResponse 200 (Json [ ("result", Js.VNum (Js.Fin result)) ]))), w'.
    eexists. split; [exact Hrun|]. split; [exact Htrace|].
    split.
    { assert (Hm : emits no_access_entry (api_compute env rq)).
      { unfold api_compute. emits_step.
        - emits_step; [emits_step |].
          emits_step; [emits_step |].
          emits_step; [apply emits_heavy_computation |].
          repeat (cbv zeta; emits_step).
        - emits_step; [emits_step |].
          emits_step; [emits_step |].
          emits_step; [apply emits_minus_identifier |].
          repeat (cbv zeta; emits_step). }
      exact (proj1 (Hm _ _ _ Hrun)). }
    split; [| right; exists result; reflexivity].
    apply Forall_app. split; repeat constructor; intro; discriminate.
Qed.

Lemma emits_dispatch_no_compute_error (env : Env) (rq : Request) :
  emits no_compute_error_entry (dispatch env rq).
Proof.
  unfold dispatch. destruct (route rq).
  - unfold api_users. emits_steps. apply emits_pool_query_call_no_compute_error.
  - unfold api_orders_generate.
    emits_step; [| emits_steps].
    emits_step; [emits_step |].
    emits_step; [apply emits_generateOrders |].
    emits_step; [apply emits_insert_orders_no_compute_error |].
    emits_steps.
  - unfold api_users_filter. cbv zeta.
    emits_step; [| emits_steps].
    emits_step; [emits_step |].
    emits_step; [emits_step |].
    emits_step; [apply emits_pool_query_call_no_compute_error |].
    emits_steps.
  - emits_step; [| emits_step].
    intros w r w' E.
    destruct (api_compute_outcomes env rq w)
      as (r0 & w0 & evs & Hrun & Htrace & Hclk & Hevs & _).
    rewrite Hrun in E. inversion E; subst. split; [exact Hclk|].
    exists evs. split; assumption.
  - intros w r w' E. inversion E; subst. split; [lia|].
    exists []. rewrite app_nil_r. auto.
  - emits_step.
Qed.

Lemma emits_serve_all_no_compute_error (env : Env) (rqs : list Request) :
  emits no_compute_error_entry (serve_all env rqs).
Proof.
  induction rqs as [| rq rqs IH]; cbn [serve_all].
  - emits_step.
  - emits_step; [| emits_step; [apply IH | emits_step]].
    unfold serve.
    emits_step; [emits_step |].
    emits_step; [emits_step |].
    cbv zeta.
    emits_step; [emits_step |].
    emits_step; [unfold logQueryComplexity; repeat emits_step |].
    emits_step; [apply emits_dispatch_no_compute_error |].
    emits_steps.
Qed.

(** X20.  The [catch] block of [/api/compute] never completes: the
    handler either answers 200 or throws [ReferenceError: start is not
    defined], so the record tagged [COMPUTE_ERROR] (lines 244-253) is
    never logged and the response of line 255 is never sent, whatever the
    requests and the draws. *)
Theorem X20_compute_error_is_never_logged
    (env : Env) (rqs : list Request) (rq : Request) (w : World) :
  (fst (api_compute env rq w) = Throw start_is_not_defined \/
   exists result,
     fst (api_compute env rq w)
       = Return (mkResponse 200 (Json [ ("result", Js.VNum (Js.Fin result)) ]))) /\
  Forall no_compute_error_entry (new_events w (snd (serve_all env rqs w))).
Proof.
  split.
  - destruct (api_compute_outcomes env rq w) as (r & w' & evs & Hrun & _ & _ & _ & Hcase).
    rewrite Hrun. exact Hcase.
  - destruct (serve_all env rqs w) as [r w'] eqn:Hrun.
    destruct (emits_serve_all_no_compute_error env rqs _ _ _ Hrun)
      as (_ & evs & Htrace & Hall).
    cbn [snd]. rewrite (new_events_app _ _ _ Htrace). exact Hall.
Qed.


Lemma emits_call_known (env : Env) (c : Cap) :
  forall text params,
    (exists k base, In base source_statements /\ text = explained k base) ->
    emits known_statement (call env c text params).
Proof.
  induction c as [| target IH | req originalQuery IH]; intros text params Hknown;
    cbn [call].
  - apply emits_query_db. exact Hknown.
  - apply IH. exact Hknown.
  - assert (Hexplain : exists k base,
               In base source_statements /\
               ("EXPLAIN " ++ text)%string = explained k base).
    { destruct Hknown as (k & base & Hin & ->). exists (S k), base.
      split; [exact Hin | reflexivity]. }
    emits_step; [emits_step |].
    emits_step; [| emits_step].
    emits_step.
    + cbv zeta.
      emits_step; [apply IH; exact Hexplain |].
      emits_step; [emits_step |].
      emits_step; [emits_step |].
      emits_step; [apply IH; exact Hknown |].
      repeat (cbv zeta; emits_step).
    + repeat emits_step.
Qed.

Lemma emits_pool_query_call_known (env : Env) (text : string) (params : Params) :
  In text source_statements ->
  emits known_statement (pool_query_call env text params).
Proof.
  intros Hin. unfold pool_query_call. repeat emits_step.
  apply emits_call_known. exists 0%nat, text. split; [exact Hin | reflexivity].
Qed.

Lemma emits_insert_orders_known (env : Env) (orders : list Order) :
  forall insertedRows, emits known_statement (insert_orders env orders insertedRows).
Proof.
  induction orders as [| order orders IH]; intros n; cbn [insert_orders].
  - emits_step.
  - emits_step; [| apply IH].
    apply emits_pool_query_call_known. simpl. auto.
Qed.

Lemma emits_dispatch_known (env : Env) (rq : Request) :
  emits known_statement (dispatch env rq).
Proof.
  unfold dispatch. destruct (route rq).
  - unfold api_users. repeat (cbv zeta; emits_step).
    apply emits_pool_query_call_known. simpl. auto.
  - unfold api_orders_generate.
    emits_step; [| repeat emits_step].
    emits_step; [emits_step |].
    emits_step; [apply emits_generateOrders |].
    emits_step; [apply emits_insert_orders_known |].
    repeat (cbv zeta; emits_step).
  - unfold api_users_filter. cbv zeta.
    emits_step; [| repeat emits_step].
    emits_step; [emits_step |].
    emits_step; [emits_step |].
    emits_step; [apply emits_pool_query_call_known; simpl; auto |].
    repeat (cbv zeta; emits_step).
  - emits_step; [| emits_step].
    unfold api_compute.
    emits_step.
    + emits_step; [emits_step |].
      emits_step; [emits_step |].
      emits_step; [apply emits_heavy_computation |].
      repeat (cbv zeta; emits_step).
    + emits_step; [emits_step |].
      emits_step; [emits_step |].
      emits_step; [apply emits_minus_identifier |].
      repeat (cbv zeta; emits_step).
  - intros w r w' E. inversion E; subst. split; [lia|].
    exists []. rewrite app_nil_r. auto.
  - emits_step.
Qed.

Lemma emits_serve_all_known (env : Env) (rqs : list Request) :
  emits known_statement (serve_all env rqs).
Proof.
  induction rqs as [| rq rqs IH]; cbn [serve_all].
  - emits_step.
  - emits_step; [| emits_step; [apply IH | emits_step]].
    unfold serve.
    emits_step; [emits_step |].
    emits_step; [emits_step |].
    cbv zeta.
    emits_step; [emits_step |].
    emits_step; [unfold logQueryComplexity; repeat emits_step |].
    emits_step; [apply emits_dispatch_known |].
    repeat (cbv zeta; emits_step).
Qed.

Lemma emits_waitForPostgres_loop_known (env : Env) (retries : nat) :
  emits known_statement (waitForPostgres_loop env retries).
Proof.
  induction retries as [| n IH]; cbn [waitForPostgres_loop].
  - emits_step.
  - emits_step.
    + emits_step.
      * emits_step; [apply emits_pool_query_call_known; simpl; auto |].
        repeat emits_step.
      * repeat emits_step.
    + destruct a; [emits_step | exact IH].
Qed.

Lemma emits_insert_users_known (env : Env) (users : list User) :
  forall insertedRows, emits known_statement (insert_users env users insertedRows).
Proof.
  induction users as [| user users IH]; intros n; cbn [insert_users].
  - emits_step.
  - emits_step; [| apply IH].
    emits_step.
    + emits_step; [apply emits_pool_query_call_known; simpl; auto 10 |].
      repeat emits_step.
    + repeat emits_step.
Qed.

Lemma emits_generateUsers (P : Event -> Prop) (env : Env) (num : nat) :
  emits P (generateUsers env num).
Proof.
  unfold generateUsers. generalize 0%Z.
  induction num as [| num IH]; intros i; cbn [generateUsers_from].
  - emits_step.
  - emits_step; [emits_step |]. cbv zeta.
    emits_step; [apply IH | emits_step].
Qed.

Lemma emits_startup_known (env : Env) : emits known_statement (startup env).
Proof.
  unfold startup.
  emits_step; [exact (emits_waitForPostgres_loop_known env 10) |].
  emits_step; [apply emits_generateUsers |].
  emits_step; [apply emits_insert_users_known |].
  emits_step.
Qed.

(** X21.  The database only ever receives the five statements of the
    source - the two [SELECT]s on [users], the two [INSERT]s and
    [SELECT NOW()] - each behind zero or more [EXPLAIN] prefixes: the
    server sends no transaction control, so the inserts of a request
    that fails half-way are neither grouped nor undone.  This holds over
    any sequence of requests and over the start-up. *)
Theorem X21_only_the_statements_of_the_source_are_sent
    (env : Env) (rqs : list Request) (w : World) :
  Forall known_statement (new_events w (snd (serve_all env rqs w))) /\
  Forall known_statement (new_events w (snd (startup env w))).
Proof.
  split.
  - destruct (serve_all env rqs w) as [r w'] eqn:Hrun.
    destruct (emits_serve_all_known env rqs _ _ _ Hrun) as (_ & evs & Htrace & Hall).
    cbn [snd]. rewrite (new_events_app _ _ _ Htrace). exact Hall.
  - destruct (startup env w) as [r w'] eqn:Hrun.
    destruct (emits_startup_known env _ _ _ Hrun) as (_ & evs & Htrace & Hall).
    cbn [snd]. rewrite (new_events_app _ _ _ Htrace). exact Hall.
Qed.









(** ** Further properties: one wait, one observation, one access entry *)

Lemma observations_app (a b : list Event) :
  observations (a ++ b) = (observations a + observations b)%nat.
Proof.
  induction a as [| ev a IH]; [reflexivity|].
  destruct ev; simpl; rewrite IH; reflexivity.
Qed.

Lemma handler_events_project (evs : list Event) :
  Forall handler_event evs ->
  timeouts evs = [] /\ observations evs = 0%nat /\ filter access_write evs = [].
Proof.
  induction 1 as [| ev evs Hev _ (IH1 & IH2 & IH3)]; [repeat split|].
  destruct ev; simpl in *; try contradiction; try (repeat split; assumption).
  destruct s; try (repeat split; assumption).
  rewrite Hev. repeat split; assumption.
Qed.

Lemma writes_project (e : Winston.Entry) :
  timeouts (writes e) = [] /\ observations (writes e) = 0%nat.
Proof.
  unfold writes. induction (Winston.destinations e) as [| s l (IH1 & IH2)];
    [repeat split|].
  simpl. split; assumption.
Qed.

Lemma emits_pool_query_call_handler (env : Env) (text : string) (params : Params) :
  emits handler_event (pool_query_call env text params).
Proof.
  unfold pool_query_call. repeat emits_step.
  eapply emits_weaken; [| apply emits_call].
  intros ev Hev. destruct ev; simpl in *; auto.
Qed.

Lemma emits_insert_orders_handler (env : Env) (orders : list Order) :
  forall insertedRows, emits handler_event (insert_orders env orders insertedRows).
Proof.
  induction orders as [| order orders IH]; intros n; cbn [insert_orders].
  - emits_step.
  - emits_step; [apply emits_pool_query_call_handler | apply IH].
Qed.

Lemma emits_dispatch_handler (env : Env) (rq : Request) :
  emits handler_event (dispatch env rq).
Proof.
  unfold dispatch. destruct (route rq).
  - unfold api_users. repeat (cbv zeta; emits_step).
    apply emits_pool_query_call_handler.
  - unfold api_orders_generate.
    emits_step; [| repeat emits_step].
    emits_step; [emits_step |].
    emits_step; [apply emits_generateOrders |].
    emits_step; [apply emits_insert_orders_handler |].
    repeat (cbv zeta; emits_step).
  - unfold api_users_filter. cbv zeta.
    emits_step; [| repeat emits_step].
    emits_step; [emits_step |].
    emits_step; [emits_step |].
    emits_step; [apply emits_pool_query_call_handler |].
    repeat (cbv zeta; emits_step).
  - emits_step; [| emits_step].
    unfold api_compute.
    emits_step.
    + emits_step; [emits_step |].
      emits_step; [emits_step |].
      emits_step; [apply emits_heavy_computation |].
      repeat (cbv zeta; emits_step).
    + emits_step; [emits_step |].
      emits_step; [emits_step |].
      emits_step; [apply emits_minus_identifier |].
      repeat (cbv zeta; emits_step).
  - intros w r w' E. inversion E; subst. split; [lia|].
    exists []. rewrite app_nil_r. auto.
  - emits_step.
Qed.

(** X24.  Over any sequence of requests, each request waits once - its
    simulated latency, between 10 and 100 ms for the draws of [Math.random()] - ends
    the [http_request_duration_ms] timer once and leaves one access
    entry: the handlers themselves never wait, never touch the timer and
    never write an access entry. *)
Theorem X24_one_wait_one_observation_one_access_entry_per_request
    (env : Env) (rqs : list Request) :
  draws_in_unit_interval env ->
  forall w,
  exists responses w',
    serve_all env rqs w = (Return responses, w') /\
    length responses = length rqs /\
    length (timeouts (new_events w w')) = length rqs /\
    Forall (fun ms => 10 <= ms <= 100)%Z (timeouts (new_events w w')) /\
    observations (new_events w w') = length rqs /\
    length (filter access_write (new_events w w')) = length rqs.
Proof.
  intros Hdraws.
  assert (Hall : forall rqs w,
             exists responses w' evs,
               serve_all env rqs w = (Return responses, w') /\
               trace w' = trace w ++ evs /\
               length responses = length rqs /\
               length (timeouts evs) = length rqs /\
               Forall (fun ms => 10 <= ms <= 100)%Z (timeouts evs) /\
               observations evs = length rqs /\
               length (filter access_write evs) = length rqs).
  { clear rqs. induction rqs as [| rq rqs IH]; intros w; cbn [serve_all].
    - exists [], w, []. rewrite app_nil_r. repeat split. constructor.
    - destruct (serve_total env rq w) as (resp & w5 & Hdispatch & Hserve).
      destruct (emits_dispatch_handler env rq _ _ _ Hdispatch)
        as (_ & evs1 & Ht1 & Hevs1).
      destruct (handler_events_project evs1 Hevs1) as (Hto & Hob & Hac).
      destruct (IH (leaving env rq w resp w5))
        as (resps & w' & evs2 & Hrest & Ht2 & Hlen & Hn1 & Hrange & Hn2 & Hn3).
      destruct (Hdraws (rnd_seq w)) as (m & Hm & Hr).
      destruct (networkLatency_range _ m Hm Hr) as [Hlat _].
      unfold leaving in Ht2. cbn [trace] in Ht2.
      remember (access_entry env rq (status resp)
                  (now env (clk_seq w5) - now env (clk_seq w))
                  (networkLatency (random env (rnd_seq w)))) as e eqn:He.
      destruct (writes_project e) as (Hwt & Hwo).
      assert (Hwa : filter access_write (writes e) = [EvWrite Winston.AccessLog e])
        by (rewrite He; reflexivity).
      exists (resp :: resps), w'.
      exists (EvTimeout (networkLatency (random env (rnd_seq w)))
                :: evs1 ++ EvObserve :: writes e ++ evs2).
      split.
      { erewrite bind_return by exact Hserve.
        erewrite bind_return by exact Hrest. reflexivity. }
      split.
      { rewrite Ht2, Ht1. unfold entering. cbn [trace].
        rewrite <- !app_assoc. reflexivity. }
      split; [simpl; rewrite Hlen; reflexivity|].
      cbn [app timeouts observations filter access_write].
      rewrite timeouts_app, observations_app, filter_app.
      cbn [app timeouts observations filter access_write].
      rewrite timeouts_app, observations_app, filter_app.
      rewrite Hto, Hob, Hac, Hwt, Hwo, Hwa.
      cbn [app length Nat.add].
      split; [rewrite Hn1; reflexivity|].
      split; [constructor; assumption|].
      split; [rewrite Hn2; reflexivity | rewrite Hn3; reflexivity]. }
  intros w. destruct (Hall rqs w)
    as (responses & w' & evs & Hrun & Htrace & Hlen & H1 & H2 & H3 & H4).
  exists responses, w'. rewrite (new_events_app _ _ _ Htrace).
  repeat split; assumption.
Qed.

(** X24 for three requests on a fresh process. *)
Lemma X24_witness :
  let env := sample_env db_up (1 # 2) in
  let rqs := [ get ApiUsers "/api/users" None 1;
               get MetricsEndpoint "/metrics" None 2;
               get NoRoute "/nowhere" None 3 ] in
  exists responses w',
    serve_all env rqs initial_world = (Return responses, w') /\
    length responses = 3%nat /\
    length (timeouts (new_events initial_world w')) = 3%nat /\
    Forall (fun ms => 10 <= ms <= 100)%Z (timeouts (new_events initial_world w')) /\
    observations (new_events initial_world w') = 3%nat /\
    length (filter access_write (new_events initial_world w')) = 3%nat.
Proof.
  intros env rqs.
  apply (X24_one_wait_one_observation_one_access_entry_per_request env rqs).
  intros k. exists (2 ^ 52)%Z.
  split; [split; [discriminate | reflexivity] | reflexivity].
Defined.

(** X25.  The count that the start-up prints is the number of inserts
    that did not fail, not the number of rows inserted: when every
    generated user conflicts with an existing row, [ON CONFLICT DO
    NOTHING] makes each insert succeed with [rowCount] 0, and the
    start-up - here after a liveness statement answered at once - still
    reports fifty inserted users. *)
Theorem X25_startup_count_ignores_the_row_count (env : Env) (w : World) :
  instrumented (pool_query w) = false ->
  (forall k text params, db env k text params = db_all_conflicts k text params) ->
  exists w' pre,
    startup env w = (Return tt, w') /\
    new_events w w' = pre ++ [ EvConsole "Inserted 50 users." ] /\
    written_to Winston.ErrorLog (new_events w w') = [] /\
    db_seq w' = (db_seq w + 51)%N.
Proof.
  intros Hclean Hdb.
  destruct (waitForPostgres_loop_clean env 10 w Hclean)
    as (j & w1 & Hloop & Hle & Hfails & _ & Ht1 & Hdb1 & Hs1 & _).
  assert (Hj : j = 0%nat).
  { destruct j as [| j]; [reflexivity|].
    destruct (Hfails 0%nat ltac:(lia)) as [e He]. rewrite Hdb in He. discriminate He. }
  subst j. cbn [repeat concat app Nat.ltb Nat.leb] in Ht1, Hdb1.
  destruct (generateUsers_from_frame env 50 0%Z w1)
    as (users & w2 & Hgen & Hlen & Ht2 & Hs2 & Hdb2 & _).
  destruct (insert_users_clean env users 0%Z w2)
    as (w3 & evs & Hins & Ht3 & _ & _ & _ & Hfail & _ & Hdb3 & _).
  { rewrite Hs2, Hs1. exact Hclean. }
  assert (Hacc : forall us k, accepted env k us = length us).
  { induction us as [| u us IH]; intros k; cbn [accepted length]; [reflexivity|].
    rewrite Hdb, IH. reflexivity. }
  rewrite Hacc, Hlen in Hins, Hfail.
  eexists. exists (successful_attempt (pool_query w) ++ evs). split.
  { unfold startup.
    erewrite bind_return by exact Hloop.
    erewrite bind_return by exact Hgen.
    erewrite bind_return by exact Hins.
    reflexivity. }
  erewrite new_events_app.
  2:{ cbn [trace]. rewrite Ht3, Ht2, Ht1. rewrite <- !app_assoc. reflexivity. }
  split; [rewrite <- app_assoc; reflexivity|].
  split.
  { rewrite !written_to_app. cbn [written_to successful_attempt app].
    rewrite app_nil_r. 
    destruct (written_to Winston.ErrorLog evs); [reflexivity | simpl in Hfail; lia]. }
  cbn [db_seq]. rewrite Hdb3, Hdb2, Hdb1, Hlen. lia.
Qed.

(** X25 on a fresh process. *)
Lemma X25_witness :
  let env := sample_env db_all_conflicts (1 # 2) in
  exists w' pre,
    startup env initial_world = (Return tt, w') /\
    new_events initial_world w' = pre ++ [ EvConsole "Inserted 50 users." ] /\
    written_to Winston.ErrorLog (new_events initial_world w') = [] /\
    db_seq w' = 51%N.
Proof.
  intros env.
  apply (X25_startup_count_ignores_the_row_count env initial_world).
  - reflexivity.
  - intros k text params. reflexivity.
Defined.

(** ** Requests that overlap *)

Lemma bind_pointwise {A B : Type} (m m' : M A) (k k' : A -> M B) (w : World) :
  m w = m' w -> (forall a w1, k a w1 = k' a w1) -> bind m k w = bind m' k' w.
Proof.
  intros Hm Hk. unfold bind. rewrite Hm.
  destruct (m' w) as [[a | e] w1]; [apply Hk | reflexivity].
Qed.

Lemma try_catch_pointwise {A : Type} (m m' : M A) (h : Js.Exn -> M A) (w : World) :
  m w = m' w -> try_catch m h w = try_catch m' h w.
Proof. intros Hm. unfold try_catch. rewrite Hm. reflexivity. Qed.

Lemma try_finally_pointwise {A : Type} (m m' : M A) (c : M unit) (w : World) :
  m w = m' w -> try_finally m c w = try_finally m' c w.
Proof. intros Hm. unfold try_finally. rewrite Hm. reflexivity. Qed.

(** With nothing else going on, the overlap model is the model of one
    request at a time. *)
Lemma query_db_among_nobody (env : Env) (text : string) (params : Params) (w : World) :
  query_db_among env nobody text params w = query_db env text params w.
Proof.
  unfold query_db_among, nobody.
  destruct (query_db env text params w) as [r w']. reflexivity.
Qed.

Lemma call_among_nobody (env : Env) (c : Cap) :
  forall text params w,
    call_among env nobody c text params w = call env c text params w.
Proof.
  induction c as [| target IH | req o IH]; intros text params w;
    cbn [call call_among].
  - apply query_db_among_nobody.
  - apply IH.
  - apply bind_pointwise; [reflexivity|]. intros start w1.
    apply try_finally_pointwise. apply try_catch_pointwise. cbv zeta.
    apply bind_pointwise; [apply IH|]. intros explainResult w2.
    apply bind_pointwise; [reflexivity|]. intros plan w3.
    apply bind_pointwise; [reflexivity|]. intros costMatch w4.
    apply bind_pointwise; [apply IH|]. intros result w5. reflexivity.
Qed.

Lemma insert_orders_among_nobody (env : Env) (orders : list Order) :
  forall insertedRows w,
    insert_orders_among env nobody orders insertedRows w
    = insert_orders env orders insertedRows w.
Proof.
  induction orders as [| order orders IH]; intros n w;
    cbn [insert_orders insert_orders_among]; [reflexivity|].
  apply bind_pointwise; [| intros; apply IH].
  unfold pool_query_call_among, pool_query_call.
  apply bind_pointwise; [reflexivity|]. intros c w1.
  apply bind_pointwise; [reflexivity|]. intros _ w2.
  apply call_among_nobody.
Qed.

Lemma serve_orders_among_nobody (env : Env) (rq : Request) (w : World) :
  route rq = ApiOrdersGenerate ->
  serve_orders_among env nobody rq w = serve env rq w.
Proof.
  intros Hroute. unfold serve_orders_among, serve.
  apply bind_pointwise; [reflexivity|]. intros start w1. cbv zeta.
  apply bind_pointwise; [reflexivity|]. intros r w2.
  apply bind_pointwise; [reflexivity|]. intros _ w3.
  apply bind_pointwise; [reflexivity|]. intros _ w4.
  apply bind_pointwise; [| reflexivity].
  unfold dispatch. rewrite Hroute.
  unfold api_orders_generate_among, api_orders_generate.
  apply try_catch_pointwise.
  apply bind_pointwise; [reflexivity|]. intros start' w5.
  apply bind_pointwise; [reflexivity|]. intros orders w6.
  apply bind_pointwise; [apply insert_orders_among_nobody | reflexivity].
Qed.

(** C3, counterexample.  [GET /api/orders/generate] on a fresh process
    with the database up.  While the second insert is pending, [GET
    /metrics] arrives and is handled: its middleware puts its own wrapper
    in [pool.query], and its handler issues no query.  The third insert
    of the first request finds that wrapper: it is explained, timed,
    logged and recorded - under the second request. *)
Lemma C3_counterexample_overlapping_request :
  let env := sample_env db_up (1 # 2) in
  let rq := get ApiOrdersGenerate "/api/orders/generate" None 1 in
  let run := serve_orders_among env (scrape_during env 2 2) rq initial_world in
  map instrumented (invoked_caps (trace (snd run)))
    = [ true; false; true; false; false; false; false; false; false; false ] /\
  nth_error (invoked_caps (trace (snd run))) 2 = Some (Wrapper 2 (Bound (Bound Native))) /\
  statements (trace (snd run))
    = [ ("EXPLAIN " ++ insert_order)%string; insert_order; insert_order;
        ("EXPLAIN " ++ insert_order)%string ] ++ repeat insert_order 8 /\
  In (EvRecord 2 insert_order (Js.Fin 0) 7) (trace (snd run)) /\
  ~ C3_as_stated (new_events initial_world (snd run)).
Proof.
  intros env rq run.
  assert (Hcaps : invoked_caps (new_events initial_world (snd run))
                  = [ Wrapper 1 (Bound Native); Bound Native;
                      Wrapper 2 (Bound (Bound Native)) ]
                    ++ repeat (Bound (Bound Native)) 7)
    by (vm_compute; reflexivity).
  split; [vm_compute; reflexivity|].
  split; [vm_compute; reflexivity|].
  split; [vm_compute; reflexivity|].
  split; [vm_compute; auto 40|].
  intros H. unfold C3_as_stated in H. rewrite Hcaps in H.
  destruct H as (first & rest & Heq & _ & Hrest); [simpl; lia|].
  injection Heq as _ <-.
  inversion Hrest as [| c l _ Hl]; subst.
  inversion Hl as [| c' l' Hc _]; subst.
  discriminate Hc.
Qed.

(** A reply to an [EXPLAIN] from which the wrapper reads a plan text. *)
Lemma plan_readable (reply : Reply) :
  plan_unreadable reply = false ->
  exists explainResult plan costMatch,
    reply = Rows explainResult /\
    (forall w, query_plan explainResult w = (Return plan, w)) /\
    (forall w, plan_match plan w = (Return costMatch, w)).
Proof.
  unfold plan_unreadable. intros H.
  destruct reply as [er | e]; [| discriminate H].
  exists er. unfold query_plan.
  destruct (rows er) as [| row rest]; [discriminate H|].
  destruct (Winston.assoc "QUERY PLAN" row) as [v |].
  - destruct v as [| | b | n | s].
    + eexists. eexists. split; [reflexivity|]. split; intros w; reflexivity.
    + eexists. eexists. split; [reflexivity|]. split; intros w; reflexivity.
    + rewrite H. eexists. eexists. split; [reflexivity|]. split; intros w; reflexivity.
    + rewrite H. eexists. eexists. split; [reflexivity|]. split; intros w; reflexivity.
    + destruct (Js.truthy (Js.VStr s));
        eexists; eexists; (split; [reflexivity|]); split; intros w; reflexivity.
  - eexists. eexists. split; [reflexivity|]. split; intros w; reflexivity.
Qed.

(** A wrapped call over a capability that is not instrumented, when the
    plan is read and the statement is accepted: the [EXPLAIN], the
    statement, the entry with the cost read from the plan and the time
    between the two clock readings, the record, and the slot restored. *)
Lemma wrapper_call_completes (env : Env) (req : nat) (o : Cap)
    (text : string) (params : Params) (w : World)
    (explainResult : DbResult) (plan : Js.Val) (costMatch : option string)
    (result : DbResult) :
  instrumented o = false ->
  db env (db_seq w) ("EXPLAIN " ++ text)%string params = Rows explainResult ->
  (forall w0, query_plan explainResult w0 = (Return plan, w0)) ->
  (forall w0, plan_match plan w0 = (Return costMatch, w0)) ->
  db env (N.succ (db_seq w)) text params = Rows result ->
  let duration := (now env (N.succ (clk_seq w)) - now env (clk_seq w))%Z in
  call env (Wrapper req o) text params w
  = (Return result,
     mkWorld o (errors_total w)
       (trace w
        ++ EvDb ("EXPLAIN " ++ text)%string params
        :: EvDb text params
        :: writes (executed_query_entry text params duration (query_cost costMatch) result)
        ++ [ EvRecord req text (query_cost costMatch) duration ])
       (N.succ (N.succ (db_seq w))) (rnd_seq w) (N.succ (N.succ (clk_seq w)))
       (faker_seq w)).
Proof.
  intros Hclean Hexplain Hplan Hmatch Hreply duration.
  cbn [call]. erewrite bind_return by reflexivity.
  rewrite !(call_not_instrumented env o _ _ Hclean).
  unfold try_finally.
  erewrite try_catch_return.
  2:{ cbv zeta.
      erewrite bind_return.
      2:{ unfold query_db. cbn [db_seq]. rewrite Hexplain. reflexivity. }
      erewrite bind_return by apply Hplan.
      erewrite bind_return by apply Hmatch.
      erewrite bind_return.
      2:{ unfold query_db. cbn [db_seq]. rewrite Hreply. reflexivity. }
      erewrite bind_return by reflexivity.
      erewrite bind_return by reflexivity.
      erewrite bind_return by reflexivity.
      reflexivity. }
  cbn. f_equal. f_equal. rewrite <- !app_assoc. reflexivity.
Qed.

(** The inserts on a slot that is not instrumented: each is an
    invocation and a statement, up to the first one the database
    rejects. *)
Lemma insert_orders_clean_trace (env : Env) (err : Js.Exn) (orders : list Order) :
  forall insertedRows w j,
    instrumented (pool_query w) = false ->
    (j <= length orders)%nat ->
    (forall i params, (i < j)%nat ->
       exists r, db env (db_seq w + N.of_nat i) insert_order params = Rows r) ->
    ((j < length orders)%nat ->
     forall params, db env (db_seq w + N.of_nat j) insert_order params = Failed err) ->
    exists w',
      insert_orders env orders insertedRows w
        = (if (j <? length orders)%nat
           then Throw err
           else Return (insertedRows + Z.of_nat (length orders))%Z, w') /\
      trace w'
        = trace w
          ++ flat_map (plain_query (pool_query w))
               (firstn (j + if (j <? length orders)%nat then 1 else 0) orders) /\
      errors_total w' = errors_total w /\
      pool_query w' = pool_query w /\
      clk_seq w' = clk_seq w /\
      rnd_seq w' = rnd_seq w.
Proof.
  induction orders as [| order orders IH]; intros n w j Hclean Hle Hok Hfail;
    cbn [insert_orders length].
  - assert (j = 0)%nat by (simpl in Hle; lia). subst j.
    exists w. cbn. rewrite Z.add_0_r, app_nil_r. repeat split.
  - pose proof (pool_query_call_clean env insert_order (order_params order) w Hclean)
      as Hq.
    destruct j as [| j].
    + pose proof (Hfail ltac:(simpl; lia) (order_params order)) as Hreply.
      cbn [N.of_nat] in Hreply. rewrite N.add_0_r in Hreply. rewrite Hreply in Hq.
      exists (after_plain_query insert_order (order_params order) w).
      split; [erewrite bind_throw by exact Hq; reflexivity|].
      cbn [trace after_plain_query errors_total pool_query clk_seq rnd_seq].
      split; [| repeat split].
      cbn. rewrite <- app_assoc. reflexivity.
    + destruct (Hok 0%nat (order_params order) ltac:(lia)) as [r Hr].
      cbn [N.of_nat] in Hr. rewrite N.add_0_r in Hr. rewrite Hr in Hq.
      destruct (IH (n + 1)%Z (after_plain_query insert_order (order_params order) w) j)
        as (w' & Hloop & Htrace & Herr & Hslot & Hclk & Hrnd).
      * exact Hclean.
      * simpl in Hle. lia.
      * intros i params Hi. destruct (Hok (S i) params ltac:(lia)) as [r' Hr'].
        exists r'. rewrite <- Hr'. cbn [db_seq after_plain_query]. f_equal. lia.
      * intros Hj params. rewrite <- (Hfail ltac:(simpl; lia) params).
        cbn [db_seq after_plain_query]. f_equal. lia.
      * exists w'. split.
        { erewrite bind_return by exact Hq. rewrite Hloop.
          change (S j <? S (length orders))%nat with (j <? length orders)%nat.
          destruct (j <? length orders)%nat; [reflexivity|].
          f_equal. f_equal. lia. }
        change (S j <? S (length orders))%nat with (j <? length orders)%nat.
        split.
        { rewrite Htrace. cbn [trace after_plain_query pool_query].
          cbn [Nat.add firstn flat_map plain_query app].
          rewrite <- !app_assoc. reflexivity. }
        cbn [after_plain_query errors_total pool_query clk_seq rnd_seq]
          in Herr, Hslot, Hclk, Hrnd.
        repeat split; assumption.
Qed.

(** The inserts that find a capability that is not instrumented leave no
    mark of instrumentation. *)
Lemma plain_queries_leave_no_mark (c : Cap) (orders : list Order) :
  instrumented c = false ->
  existsb instrumentation_event (flat_map (plain_query c) orders) = false.
Proof.
  intros Hc. induction orders as [| order orders IH]; [reflexivity|].
  cbn [flat_map plain_query app existsb instrumentation_event].
  rewrite Hc, IH. reflexivity.
Qed.

Lemma existsb_writes (p : Event -> bool) (e : Winston.Entry) :
  (forall s, p (EvWrite s e) = false) -> existsb p (writes e) = false.
Proof.
  intros H. unfold writes.
  induction (Winston.destinations e) as [| s l IH]; [reflexivity|].
  cbn [map existsb]. rewrite H, IH. reflexivity.
Qed.

(** The call site in front of such a wrapper. *)
Lemma pool_query_call_completes (env : Env) (req : nat) (o : Cap)
    (text : string) (params : Params) (w : World)
    (explainResult : DbResult) (plan : Js.Val) (costMatch : option string)
    (result : DbResult) :
  pool_query w = Wrapper req o ->
  instrumented o = false ->
  db env (db_seq w) ("EXPLAIN " ++ text)%string params = Rows explainResult ->
  (forall w0, query_plan explainResult w0 = (Return plan, w0)) ->
  (forall w0, plan_match plan w0 = (Return costMatch, w0)) ->
  db env (N.succ (db_seq w)) text params = Rows result ->
  let duration := (now env (N.succ (clk_seq w)) - now env (clk_seq w))%Z in
  pool_query_call env text params w
  = (Return result,
     mkWorld o (errors_total w)
       (trace w
        ++ EvInvoke (Wrapper req o) text params
        :: EvDb ("EXPLAIN " ++ text)%string params
        :: EvDb text params
        :: writes (executed_query_entry text params duration (query_cost costMatch) result)
        ++ [ EvRecord req text (query_cost costMatch) duration ])
       (N.succ (N.succ (db_seq w))) (rnd_seq w) (N.succ (N.succ (clk_seq w)))
       (faker_seq w)).
Proof.
  intros Hslot Hclean Hexplain Hplan Hmatch Hreply duration.
  unfold pool_query_call.
  do 2 (erewrite bind_return by reflexivity).
  rewrite Hslot.
  erewrite wrapper_call_completes; try eassumption.
  cbn. f_equal. f_equal. rewrite <- !app_assoc. reflexivity.
Qed.

Lemma invoked_caps_app (a b : list Event) :
  invoked_caps (a ++ b) = invoked_caps a ++ invoked_caps b.
Proof.
  induction a as [| ev a IH]; [reflexivity|].
  destruct ev; cbn [app invoked_caps]; rewrite IH; reflexivity.
Qed.

Lemma invoked_caps_writes (e : Winston.Entry) : invoked_caps (writes e) = [].
Proof. unfold writes. induction (Winston.destinations e); [reflexivity | exact IHl]. Qed.

Lemma invoked_caps_plain (c : Cap) (orders : list Order) :
  invoked_caps (flat_map (plain_query c) orders) = repeat c (length orders).
Proof.
  induction orders as [| order orders IH]; [reflexivity|].
  cbn [flat_map plain_query app invoked_caps length repeat]. rewrite IH. reflexivity.
Qed.

Lemma invoked_caps_call_events (evs : list Event) :
  Forall call_event evs -> invoked_caps evs = [].
Proof.
  induction 1 as [| ev evs Hev _ IH]; [reflexivity|].
  destruct ev; cbn [call_event] in Hev; try contradiction; exact IH.
Qed.

Lemma invoked_caps_away_from_database (evs : list Event) :
  existsb reaches_database evs = false -> invoked_caps evs = [].
Proof.
  induction evs as [| ev evs IH]; [reflexivity|].
  cbn [existsb]. intros H. apply orb_false_elim in H. destruct H as [Hev Hevs].
  destruct ev; cbn [reaches_database] in Hev; try discriminate Hev; exact (IH Hevs).
Qed.

(** [GET /api/orders/generate] arriving on an instrumented slot, the
    database rejecting the [EXPLAIN] of an [EXPLAIN]: the first insert
    fails and the handler invokes the capability no second time. *)
Lemma orders_on_an_instrumented_slot (env : Env) (rq : Request) (w : World) :
  rejects_nested_explain env ->
  route rq = ApiOrdersGenerate ->
  instrumented (pool_query w) = true ->
  exists response w',
    serve env rq w = (Return response, w') /\
    status response = 500%Z /\
    invoked_caps (new_events w w') = [ Wrapper (req_id rq) (Bound (pool_query w)) ].
Proof.
  intros Hpg Hroute Hdirty.
  destruct (api_orders_generate_spec env rq (entering env rq w) (req_id rq)
              (Bound (pool_query w)) eq_refl (or_intror Hpg))
    as (resp & w5 & order & orders & first_call & k & tail
        & Hhandler & Htrace & _ & Hfirst & _ & Hk & Htail & _).
  assert (Hk0 : k = 0%nat).
  { destruct k as [| k]; [reflexivity|].
    specialize (Hk ltac:(lia)). cbn [instrumented] in Hk. congruence. }
  subst k.
  destruct (serve_poisoned env rq w Hpg Hdirty) as (resp' & w' & Hserve & _ & Hstatus).
  assert (Hrun : serve env rq w = (Return resp, leaving env rq w resp w5)).
  { apply serve_dispatch. unfold dispatch. rewrite Hroute. exact Hhandler. }
  rewrite Hrun in Hserve. injection Hserve as <- <-.
  exists resp. eexists. split; [exact Hrun|].
  split; [apply Hstatus; unfold issues_query; rewrite Hroute; reflexivity|].
  erewrite new_events_app.
  2:{ unfold leaving. cbn [trace]. rewrite Htrace. unfold entering. cbn [trace].
      rewrite <- !app_assoc. reflexivity. }
  cbn [app firstn flat_map invoked_caps].
  rewrite !invoked_caps_app, (invoked_caps_call_events _ Hfirst),
    (invoked_caps_away_from_database _ Htail).
  cbn [app invoked_caps]. rewrite invoked_caps_writes. reflexivity.
Qed.

(** C3, as the code has it.  [GET /api/orders/generate] served on its
    own, [pool.query] not being instrumented when it arrives, the
    [EXPLAIN] yielding a plan text and the database accepting the first
    [j >= 1] inserts (and rejecting the next one, if [j < 10]).

    The first insert finds the wrapper of this request.  It is
    instrumented in full: the [EXPLAIN] goes to the database before the
    statement, the cost is what [query_cost] reads from the plan the
    database returned, the duration is the difference of the two clock
    readings around the two statements, the entry with both is written
    to the log files, [logs/db.log] among them, and the pair is recorded
    in [req.queryComplexity].  The wrapper's [finally] then puts the
    capability it had captured back in the slot.

    There is a second invocation, and every later invocation finds that
    capability, which is not instrumented: it leaves its call site and
    its statement and nothing else.  After the inserts come the entry of
    the handler, the observation and the access entry; none of them nor
    any later insert bears a mark of instrumentation.  On this run the
    statement of the specification holds.

    Whatever a call of the wrapper of this request does, on success or
    on failure, the slot holds the captured capability afterwards.  And
    a request that gets to a second invocation did find the slot clean,
    as long as the database rejects the [EXPLAIN] of an [EXPLAIN] as
    PostgreSQL does: on an instrumented slot the first insert fails and
    the handler invokes the capability no second time. *)
Theorem C3_only_the_first_query_is_instrumented
    (env : Env) (rq : Request) (w : World) (j : nat) (err : Js.Exn) :
  route rq = ApiOrdersGenerate ->
  instrumented (pool_query w) = false ->
  (1 <= j <= 10)%nat ->
  (forall params,
      plan_unreadable (db env (db_seq w) ("EXPLAIN " ++ insert_order)%string params)
      = false) ->
  (forall i params, (i < j)%nat ->
     exists r, db env (db_seq w + 1 + N.of_nat i) insert_order params = Rows r) ->
  ((j < 10)%nat ->
   forall params, db env (db_seq w + 1 + N.of_nat j) insert_order params = Failed err) ->
  (forall text params w0 r w1,
      call env (Wrapper (req_id rq) (Bound (pool_query w))) text params w0 = (r, w1) ->
      pool_query w1 = Bound (pool_query w)) /\
  (rejects_nested_explain env ->
   forall w0,
     instrumented (pool_query w0) = true ->
     exists response w1,
       serve env rq w0 = (Return response, w1) /\
       status response = 500%Z /\
       invoked_caps (new_events w0 w1)
         = [ Wrapper (req_id rq) (Bound (pool_query w0)) ]) /\
  exists response w' order orders explainResult plan costMatch result
         handler_time response_time,
    serve env rq w = (Return response, w') /\
    length (order :: orders) = 10%nat /\
    db env (db_seq w) ("EXPLAIN " ++ insert_order)%string (order_params order)
      = Rows explainResult /\
    query_plan explainResult w = (Return plan, w) /\
    plan_match plan w = (Return costMatch, w) /\
    db env (db_seq w + 1) insert_order (order_params order) = Rows result /\
    let cost := query_cost costMatch in
    let duration := (now env (clk_seq w + 3) - now env (clk_seq w + 2))%Z in
    let first_entry :=
      executed_query_entry insert_order (order_params order) duration cost result in
    let later := firstn (j - 1 + if (j <? 10)%nat then 1 else 0) orders in
    let tail :=
      writes (if (j <? 10)%nat then orders_error_entry err
              else orders_saved_entry 10 handler_time)
      ++ EvObserve
      :: writes (access_entry env rq (status response) response_time
                   (networkLatency (random env (rnd_seq w)))) in
    new_events w w'
      = EvTimeout (networkLatency (random env (rnd_seq w)))
        :: EvInvoke (Wrapper (req_id rq) (Bound (pool_query w)))
             insert_order (order_params order)
        :: EvDb ("EXPLAIN " ++ insert_order)%string (order_params order)
        :: EvDb insert_order (order_params order)
        :: writes first_entry
        ++ EvRecord (req_id rq) insert_order cost duration
        :: flat_map (plain_query (Bound (pool_query w))) later
        ++ tail /\
    In (EvWrite Winston.DbLog first_entry) (new_events w w') /\
    (1 <= length later)%nat /\
    existsb instrumentation_event
      (flat_map (plain_query (Bound (pool_query w))) later ++ tail) = false /\
    invoked_caps (new_events w w')
      = Wrapper (req_id rq) (Bound (pool_query w))
        :: repeat (Bound (pool_query w)) (length later) /\
    C3_as_stated (new_events w w') /\
    pool_query w' = Bound (pool_query w).
Proof.
  intros Hroute Hclean [Hj1 Hj10] Hplan Hok Hfail.
  split; [intros text params w0 r w1; apply call_wrapper_restores|].
  split.
  { intros Hpg w0 Hdirty. apply orders_on_an_instrumented_slot; assumption. }
  set (w4 := entering env rq w).
  set (wa := snd (Date_now env w4)).
  destruct (generateOrders_frame env 10 wa)
    as (orders10 & wb & Hgen & Hlen & Htb & Hsb & Hdb & Heb & Hrb & Hcb).
  destruct orders10 as [| order orders]; [discriminate Hlen|].
  assert (Hlen9 : length orders = 9%nat) by (simpl in Hlen; lia).
  cbn [wa w4 entering Date_now snd trace pool_query db_seq errors_total rnd_seq clk_seq]
    in Htb, Hsb, Hdb, Heb, Hrb, Hcb.
  destruct (plan_readable _ (Hplan (order_params order)))
    as (er & plan & cm & Her & Hqp & Hpm).
  destruct (Hok 0%nat (order_params order) ltac:(lia)) as [res Hres].
  replace (db_seq w + 1 + N.of_nat 0)%N with (N.succ (db_seq w)) in Hres by lia.
  pose proof (pool_query_call_completes env (req_id rq) (Bound (pool_query w))
                insert_order (order_params order) wb er plan cm res
                Hsb Hclean) as Hq.
  rewrite Hdb in Hq. specialize (Hq Her Hqp Hpm Hres). cbv zeta in Hq.
  rewrite Hcb, Htb, Heb, Hrb in Hq.
  match type of Hq with
  | _ = (_, ?W) => set (w1 := W) in *
  end.
  destruct j as [| j]; [lia|].
  destruct (insert_orders_clean_trace env err orders (0 + 1)%Z w1 j)
    as (w2 & Hloop & Ht2 & He2 & Hs2 & Hc2 & _).
  { exact Hclean. }
  { lia. }
  { intros i params Hi. destruct (Hok (S i) params ltac:(lia)) as [r' Hr'].
    exists r'. rewrite <- Hr'. cbn [w1 db_seq]. f_equal. lia. }
  { intros Hj params. rewrite <- (Hfail ltac:(lia) params).
    cbn [w1 db_seq]. f_equal. lia. }
  rewrite Hlen9 in Hloop, Ht2.
  cbn [w1 trace pool_query errors_total clk_seq] in Ht2, He2, Hs2, Hc2.
  change (S j <? 10)%nat with (j <? 9)%nat.
  replace (S j - 1)%nat with j by lia.
  replace (clk_seq w + 3)%N with (N.succ (N.succ (N.succ (clk_seq w)))) by lia.
  replace (clk_seq w + 2)%N with (N.succ (N.succ (clk_seq w))) by lia.
  replace (db_seq w + 1)%N with (N.succ (db_seq w)) by lia.
  assert (Hlater : (1 <= length (firstn (j + if (j <? 9)%nat then 1 else 0) orders))%nat).
  { rewrite length_firstn, Hlen9.
    destruct (j <? 9)%nat eqn:E; [lia|]. apply Nat.ltb_ge in E. lia. }
  assert (Hmark : forall (e1 e2 : Winston.Entry),
             Winston.metric "query_cost" e1 = None ->
             Winston.metric "query_cost" e2 = None ->
             existsb instrumentation_event
               (flat_map (plain_query (Bound (pool_query w)))
                  (firstn (j + if (j <? 9)%nat then 1 else 0) orders)
                ++ writes e1 ++ EvObserve :: writes e2) = false).
  { intros e1 e2 H1 H2. rewrite !existsb_app.
    rewrite plain_queries_leave_no_mark by exact Hclean.
    rewrite existsb_writes
      by (intros s; cbn [instrumentation_event]; rewrite H1; reflexivity).
    cbn [existsb instrumentation_event orb].
    apply existsb_writes. intros s. cbn [instrumentation_event]. rewrite H2.
    reflexivity. }
  assert (Hcaps : forall (lat : Z) (p : Params) (e0 e1 e2 : Winston.Entry)
                          (cost : Js.Num) (d : Z),
             invoked_caps
               (EvTimeout lat
                :: EvInvoke (Wrapper (req_id rq) (Bound (pool_query w))) insert_order p
                :: EvDb ("EXPLAIN " ++ insert_order)%string p
                :: EvDb insert_order p
                :: writes e0
                ++ EvRecord (req_id rq) insert_order cost d
                :: flat_map (plain_query (Bound (pool_query w)))
                     (firstn (j + if (j <? 9)%nat then 1 else 0) orders)
                ++ writes e1 ++ EvObserve :: writes e2)
             = Wrapper (req_id rq) (Bound (pool_query w))
               :: repeat (Bound (pool_query w))
                    (length (firstn (j + if (j <? 9)%nat then 1 else 0) orders))).
  { intros lat p e0 e1 e2 cost d. cbn [invoked_caps].
    rewrite invoked_caps_app, invoked_caps_writes. cbn [app invoked_caps].
    rewrite !invoked_caps_app, invoked_caps_plain, invoked_caps_writes.
    cbn [app invoked_caps]. rewrite invoked_caps_writes, app_nil_r. reflexivity. }
  assert (Hstated : forall evs,
             invoked_caps evs
             = Wrapper (req_id rq) (Bound (pool_query w))
               :: repeat (Bound (pool_query w))
                    (length (firstn (j + if (j <? 9)%nat then 1 else 0) orders)) ->
             C3_as_stated evs).
  { intros evs Hevs _. eexists. eexists. split; [exact Hevs|].
    split; [reflexivity|].
    apply Forall_forall. intros c Hc. apply repeat_spec in Hc. subst c. exact Hclean. }
  destruct (j <? 9)%nat.
  - exists (mkResponse 500 (Json [ ("error", Js.VStr "Failed to generate orders") ])).
    eexists. exists order, orders, er, plan, cm, res, 0%Z. eexists.
    split.
    { apply serve_dispatch. unfold dispatch. rewrite Hroute. unfold api_orders_generate.
      erewrite try_catch_throw.
      2:{ erewrite bind_return by reflexivity.
          erewrite bind_return by exact Hgen.
          erewrite bind_throw; [reflexivity|].
          cbn [insert_orders]. erewrite bind_return by exact Hq. exact Hloop. }
      do 2 (erewrite bind_return by reflexivity). reflexivity. }
    split; [exact Hlen|]. split; [exact Her|].
    split; [apply Hqp|]. split; [apply Hpm|]. split; [exact Hres|].
    cbv zeta. unfold leaving. cbn [trace errors_total pool_query status].
    erewrite new_events_app.
    2:{ rewrite Ht2. rewrite <- !app_assoc. cbn [app].
        rewrite <- !app_assoc. cbn [app]. reflexivity. }
    split; [reflexivity|].
    split.
    { right. right. right. right. apply in_or_app. left.
      unfold writes. apply in_map_iff. exists Winston.DbLog.
      split; [reflexivity | vm_compute; auto]. }
    split; [exact Hlater|].
    split; [apply Hmark; reflexivity|].
    split; [apply Hcaps|].
    split; [apply Hstated; apply Hcaps|].
    rewrite Hs2. reflexivity.
  - exists (mkResponse 200 (JsonOrders (order :: orders))).
    eexists. exists order, orders, er, plan, cm, res. eexists. eexists.
    split.
    { apply serve_dispatch. unfold dispatch. rewrite Hroute. unfold api_orders_generate.
      erewrite try_catch_return; [reflexivity|].
      erewrite bind_return by reflexivity.
      erewrite bind_return by exact Hgen.
      erewrite bind_return.
      2:{ cbn [insert_orders]. erewrite bind_return by exact Hq. exact Hloop. }
      do 2 (erewrite bind_return by reflexivity). reflexivity. }
    split; [exact Hlen|]. split; [exact Her|].
    split; [apply Hqp|]. split; [apply Hpm|]. split; [exact Hres|].
    cbv zeta. unfold leaving. cbn [trace errors_total pool_query status].
    erewrite new_events_app.
    2:{ rewrite Ht2. rewrite <- !app_assoc. cbn [app].
        rewrite <- !app_assoc. cbn [app]. reflexivity. }
    split; [reflexivity|].
    split.
    { right. right. right. right. apply in_or_app. left.
      unfold writes. apply in_map_iff. exists Winston.DbLog.
      split; [reflexivity | vm_compute; auto]. }
    split; [exact Hlater|].
    split; [apply Hmark; reflexivity|].
    split; [apply Hcaps|].
    split; [apply Hstated; apply Hcaps|].
    rewrite Hs2. reflexivity.
Qed.

(** C3 on a fresh process with the database up: the ten inserts are
    accepted, the first through the wrapper, the other nine plainly. *)
Lemma C3_witness :
  let env := sample_env db_up (1 # 2) in
  let rq := get ApiOrdersGenerate "/api/orders/generate" None 1 in
  let w := initial_world in
  (forall text params w0 r w1,
      call env (Wrapper 1 (Bound Native)) text params w0 = (r, w1) ->
      pool_query w1 = Bound Native) /\
  (rejects_nested_explain env ->
   forall w0,
     instrumented (pool_query w0) = true ->
     exists response w1,
       serve env rq w0 = (Return response, w1) /\
       status response = 500%Z /\
       invoked_caps (new_events w0 w1) = [ Wrapper 1 (Bound (pool_query w0)) ]) /\
  exists response w' order orders explainResult plan costMatch result
         handler_time response_time,
    serve env rq w = (Return response, w') /\
    length (order :: orders) = 10%nat /\
    db env (db_seq w) ("EXPLAIN " ++ insert_order)%string (order_params order)
      = Rows explainResult /\
    query_plan explainResult w = (Return plan, w) /\
    plan_match plan w = (Return costMatch, w) /\
    db env (db_seq w + 1) insert_order (order_params order) = Rows result /\
    let cost := query_cost costMatch in
    let duration := (now env (clk_seq w + 3) - now env (clk_seq w + 2))%Z in
    let first_entry :=
      executed_query_entry insert_order (order_params order) duration cost result in
    let later := firstn 9 orders in
    let tail :=
      writes (orders_saved_entry 10 handler_time)
      ++ EvObserve
      :: writes (access_entry env rq (status response) response_time 55) in
    new_events w w'
      = EvTimeout 55
        :: EvInvoke (Wrapper 1 (Bound Native)) insert_order (order_params order)
        :: EvDb ("EXPLAIN " ++ insert_order)%string (order_params order)
        :: EvDb insert_order (order_params order)
        :: writes first_entry
        ++ EvRecord 1 insert_order cost duration
        :: flat_map (plain_query (Bound Native)) later
        ++ tail /\
    In (EvWrite Winston.DbLog first_entry) (new_events w w') /\
    (1 <= length later)%nat /\
    existsb instrumentation_event
      (flat_map (plain_query (Bound Native)) later ++ tail) = false /\
    invoked_caps (new_events w w')
      = Wrapper 1 (Bound Native) :: repeat (Bound Native) (length later) /\
    C3_as_stated (new_events w w') /\
    pool_query w' = Bound Native.
Proof.
  intros env rq w.
  apply (C3_only_the_first_query_is_instrumented env rq w 10 (Js.mkExn Js.Error "none")).
  - reflexivity.
  - reflexivity.
  - lia.
  - intros params. reflexivity.
  - intros i params Hi. eexists. reflexivity.
  - intros Hlt. lia.
Defined.
